(** * feedToHtml: monthly archive pages from syndication feeds

    A shallow embedding of the services of the feedToHtml repository
    (RSSParser, MonthlyGroupingService, HtmlParserService, TemplateEngine,
    FileWriter and the FeedToHtml facade) and of its models, together with
    the properties of the incremental monthly-archive engine.

    Conventions of the embedding.
    - A JavaScript string is a [string]: a sequence of 8-bit code units.
    - A regular expression literal of the source is a value of [regex]
      below; [String.prototype.replace], [RegExp.prototype.test] and
      [String.prototype.match] are the functions of module [Js].
    - A thrown [Error] is the left injection of a sum, carrying its
      message; an error of [node:fs] carries its code as well.
    - Paths are those of [node:path] on a POSIX host: [Path.resolve]
      follows [path.resolve], with the working directory of the process.
    - The file system is an explicit [Disk] value threaded through the code
      that reads and writes files: its files, its directories, and the
      calls that the system refuses.
    - The network, the XML parser and the URL validator lie outside: what
      they answer is given by a value of [RSSParser.Outside]. *)

From Stdlib Require Import String Ascii List ZArith Lia Bool Arith.
From Stdlib Require Import Sorting.Sorted Sorting.Permutation.
From Stdlib Require Import Numbers.DecimalString.
From Stdlib Require Import OrderedTypeEx.
Import ListNotations.

Open Scope list_scope.
Open Scope string_scope.

Set Implicit Arguments.

(* ================================================================== *)
(** * JavaScript strings and regular expressions *)
(* ================================================================== *)

Module Js.

(** The double quote character, as a one-character string. *)
Definition dq : string := String "034"%char "".

(** Source text that holds double quotes is written here with a backquote
    in the place of each double quote (no template or pattern of the source
    holds a backquote); [q] puts the double quotes back. *)
Fixpoint q (s : string) : string :=
  match s with
  | EmptyString => EmptyString
  | String c s' => String (if (c =? "`")%char then "034"%char else c) (q s')
  end.

(** Line feed. *)
Definition nl : string := String "010"%char "".

Definition is_digit (c : ascii) : bool :=
  let n := nat_of_ascii c in ((48 <=? n) && (n <=? 57))%nat.

Definition is_upper (c : ascii) : bool :=
  let n := nat_of_ascii c in ((65 <=? n) && (n <=? 90))%nat.

Definition is_lower (c : ascii) : bool :=
  let n := nat_of_ascii c in ((97 <=? n) && (n <=? 122))%nat.

(** [\w] *)
Definition is_word (c : ascii) : bool :=
  is_digit c || is_upper c || is_lower c || (c =? "_")%char.

(** [\s] and the characters [trim] strips, among the 8-bit code units:
    TAB, LF, VT, FF, CR, SPACE and NBSP. *)
Definition is_space (c : ascii) : bool :=
  let n := nat_of_ascii c in
  (((9 <=? n) && (n <=? 13)) || (n =? 32) || (n =? 160))%nat.

(** Canonicalisation of the [i] flag on 8-bit code units whose patterns
    are ASCII: only the ASCII letters fold. *)
Definition fold_case (c : ascii) : ascii :=
  if is_upper c then ascii_of_nat (nat_of_ascii c + 32) else c.

(** Character comparison, [ci] being the [i] flag. *)
Definition char_eq (ci : bool) (a b : ascii) : bool :=
  if ci then (fold_case a =? fold_case b)%char else (a =? b)%char.

(** Character classes used by the source's expressions. *)
Definition is_slash (c : ascii) : bool := (c =? "/")%char.
Definition any_char (_ : ascii) : bool := true.           (* any character: the class of all characters, and the dot under the s flag *)
Definition not_gt (c : ascii) : bool := negb (c =? ">")%char.       (* [^>] *)
Definition not_dq (c : ascii) : bool := negb (c =? "034")%char.     (* any character but the double quote *)
Definition is_quote (c : ascii) : bool := (c =? "034")%char || (c =? "'")%char.  (* either quote character *)
Definition not_quote (c : ascii) : bool := negb (is_quote c).       (* any character but the two quotes *)

Fixpoint trimStart (s : string) : string :=
  match s with
  | String c s' => if is_space c then trimStart s' else s
  | EmptyString => EmptyString
  end.

Fixpoint trimEnd (s : string) : string :=
  match s with
  | EmptyString => EmptyString
  | String c s' =>
      match trimEnd s' with
      | EmptyString => if is_space c then EmptyString else String c EmptyString
      | t => String c t
      end
  end.

Definition trim (s : string) : string := trimEnd (trimStart s).

(** A string is falsy exactly when it is empty. *)
Definition truthy (s : string) : bool := negb (s =? "").

(** [a || b] on strings. *)
Definition or_else (a b : string) : string := if truthy a then a else b.

Fixpoint rev_append (a b : string) : string :=
  match a with
  | EmptyString => b
  | String c a' => rev_append a' (String c b)
  end.

Fixpoint concat_all (l : list string) : string :=
  match l with
  | [] => ""
  | x :: l' => x ++ concat_all l'
  end.

(** [Array.prototype.join] *)
Fixpoint join (sep : string) (l : list string) : string :=
  match l with
  | [] => ""
  | [x] => x
  | x :: l' => x ++ sep ++ join sep l'
  end.

(** [String.prototype.startsWith], under a case mode; the text consumed
    is returned together with what follows it. *)
Fixpoint strip (ci : bool) (p s : string) : option (string * string) :=
  match p with
  | EmptyString => Some (EmptyString, s)
  | String a p' =>
      match s with
      | EmptyString => None
      | String b s' =>
          if char_eq ci a b then
            match strip ci p' s' with
            | Some (m, r) => Some (String b m, r)
            | None => None
            end
          else None
      end
  end.

(** ** Regular expressions

    Every expression of the source is a sequence of literals, single
    character classes and repeated character classes (greedy or lazy, with
    a least count).  Capture groups are ranges of that sequence. *)

Inductive atom : Type :=
| Lit (s : string)
| One (cls : ascii -> bool)
| Opt (cls : ascii -> bool)
| Rep (cls : ascii -> bool) (least : nat) (greedy : bool).

Record regex : Type := mkRegex {
  atoms : list atom;
  icase : bool;                    (* the i flag *)
  groups : list (nat * nat)        (* group n: first atom, number of atoms *)
}.

(** The first of two alternatives that matches. *)
Definition prefer (A : Type) (first second : option A) : option A :=
  match first with
  | Some x => Some x
  | None => second
  end.

(** A repetition that stops here: allowed once the least count is met. *)
Definition rep_stop (k : string -> option (list string * string))
    (s : string) (least : nat) : option (list string * string) :=
  match least with
  | O => match k s with
         | Some (ps, r) => Some (EmptyString :: ps, r)
         | None => None
         end
  | S _ => None
  end.

(** A repetition that takes the character [c] and goes on. *)
Definition rep_more (c : ascii) (rest : option (list string * string))
    : option (list string * string) :=
  match rest with
  | Some (m :: ps, r) => Some (String c m :: ps, r)
  | _ => None
  end.

(** The repetition of a class, backtracking into the continuation [k] in
    the order of the quantifier: longest first when greedy, shortest first
    when lazy. *)
Fixpoint rep (cls : ascii -> bool) (greedy : bool)
    (k : string -> option (list string * string))
    (s : string) (least : nat) {struct s} : option (list string * string) :=
  let stop := rep_stop k s least in
  let more :=
    match s with
    | String c s' =>
        if cls c then rep_more c (rep cls greedy k s' (Nat.pred least)) else None
    | EmptyString => None
    end in
  if greedy then prefer more stop else prefer stop more.

(** A match anchored at the start of [s]: the text matched by each atom,
    and the rest of the string. *)
Fixpoint match_here (ci : bool) (r : list atom) (s : string)
    : option (list string * string) :=
  match r with
  | [] => Some ([], s)
  | Lit l :: r' =>
      match strip ci l s with
      | Some (m, s') =>
          match match_here ci r' s' with
          | Some (ps, rest) => Some (m :: ps, rest)
          | None => None
          end
      | None => None
      end
  | One cls :: r' =>
      match s with
      | String c s' =>
          if cls c then
            match match_here ci r' s' with
            | Some (ps, rest) => Some (String c EmptyString :: ps, rest)
            | None => None
            end
          else None
      | EmptyString => None
      end
  | Opt cls :: r' =>
      let skip :=
        match match_here ci r' s with
        | Some (ps, rest) => Some (EmptyString :: ps, rest)
        | None => None
        end in
      match s with
      | String c s' =>
          if cls c then
            match match_here ci r' s' with
            | Some (ps, rest) => Some (String c EmptyString :: ps, rest)
            | None => skip
            end
          else skip
      | EmptyString => skip
      end
  | Rep cls least greedy :: r' => rep cls greedy (match_here ci r') s least
  end.

(** The leftmost match: the text before it, the pieces, the text after. *)
Fixpoint search (re : regex) (s : string)
    : option (string * list string * string) :=
  match match_here (icase re) (atoms re) s with
  | Some (ps, rest) => Some (EmptyString, ps, rest)
  | None =>
      match s with
      | EmptyString => None
      | String c s' =>
          match search re s' with
          | Some (pre, ps, rest) => Some (String c pre, ps, rest)
          | None => None
          end
      end
  end.

(** [RegExp.prototype.test] *)
Definition test (re : regex) (s : string) : bool :=
  match search re s with Some _ => true | None => false end.

(** The text of a capture group, from the pieces of a match. *)
Definition capture (ps : list string) (g : nat * nat) : string :=
  concat_all (firstn (snd g) (skipn (fst g) ps)).

Definition captures (re : regex) (ps : list string) : list string :=
  map (capture ps) (groups re).

Definition digit_val (c : ascii) : nat := nat_of_ascii c - 48.

(** [GetSubstitution]: the replacement text for one match, from a
    replacement template.  [caps] are the capture groups, [matched] the
    matched text, [pre] and [post] the subject before and after it.  The
    source's expressions have no named groups. *)
Fixpoint expand (caps : list string) (matched pre post : string)
    (t : string) : string :=
  match t with
  | EmptyString => EmptyString
  | String c t1 =>
      if (c =? "$")%char then
        match t1 with
        | EmptyString => String c EmptyString
        | String d t2 =>
            if (d =? "$")%char then String "$" (expand caps matched pre post t2)
            else if (d =? "&")%char then matched ++ expand caps matched pre post t2
            else if (d =? "`")%char then pre ++ expand caps matched pre post t2
            else if (d =? "'")%char then post ++ expand caps matched pre post t2
            else if is_digit d then
              let one := digit_val d in
              let single :=
                if ((1 <=? one) && (one <=? List.length caps))%nat
                then nth (one - 1) caps "" ++ expand caps matched pre post t2
                else String c (expand caps matched pre post t1) in
              match t2 with
              | String e t3 =>
                  let two := 10 * one + digit_val e in
                  if (is_digit e && (1 <=? two) && (two <=? List.length caps))%nat
                  then nth (two - 1) caps "" ++ expand caps matched pre post t3
                  else single
              | EmptyString => single
              end
            else String c (expand caps matched pre post t1)
        end
      else String c (expand caps matched pre post t1)
  end.

(** [String.prototype.replace] with an expression without the g flag. *)
Definition replace_first (re : regex) (tmpl : string) (s : string) : string :=
  match search re s with
  | Some (pre, ps, rest) =>
      let m := concat_all ps in
      pre ++ expand (captures re ps) m pre rest tmpl ++ rest
  | None => s
  end.

(** A left-to-right scan for the successive matches of an expression with
    the g flag: the subject is cut into the characters outside matches and
    the matches themselves.  [skip] counts the characters of the current
    match still to pass; [before] is the subject read so far, reversed. *)
Inductive token : Type :=
| Text (c : ascii)
| Hit (pre : string) (ps : list string) (post : string).

Fixpoint scan (re : regex) (skip : nat) (before : string) (s : string)
    : list token :=
  match skip with
  | S k =>
      match s with
      | String c s' => scan re k (String c before) s'
      | EmptyString => []
      end
  | O =>
      match match_here (icase re) (atoms re) s with
      | Some (ps, rest) =>
          let hit := Hit (rev_append before "") ps rest in
          match s with
          | String c s' =>
              match String.length (concat_all ps) with
              | O => hit :: Text c :: scan re 0 (String c before) s'
              | S k => hit :: scan re k (String c before) s'
              end
          | EmptyString => [hit]
          end
      | None =>
          match s with
          | String c s' => Text c :: scan re 0 (String c before) s'
          | EmptyString => []
          end
      end
  end.

Definition matches (re : regex) (s : string) : list (list string) :=
  flat_map (fun t => match t with Hit _ ps _ => [ps] | Text _ => [] end)
           (scan re 0 "" s).

(** [(s.match(/re/g) || []).length] *)
Definition count_matches (re : regex) (s : string) : nat :=
  List.length (matches re s).

(** [String.prototype.replace] with an expression with the g flag. *)
Definition replace_all (re : regex) (tmpl : string) (s : string) : string :=
  concat_all
    (map (fun t =>
            match t with
            | Text c => String c ""
            | Hit pre ps post =>
                expand (captures re ps) (concat_all ps) pre post tmpl
            end)
         (scan re 0 "" s)).

(** An expression that is one literal, as built by
    [new RegExp(escapeRegExp(text), 'g')] and by literal patterns. *)
Definition literal (text : string) : regex := mkRegex [Lit text] false [].

(** [String.prototype.includes] *)
Definition includes (s text : string) : bool := test (literal text) s.

(** [String(n)] for an integer. *)
Definition string_of_Z (z : Z) : string := NilZero.string_of_int (Z.to_int z).

(** [String.prototype.padStart(2, '0')] *)
Definition padStart2 (s : string) : string :=
  match String.length s with
  | 0 => "00"
  | 1 => "0" ++ s
  | _ => s
  end.

(** [s.split('-')[0]] *)
Fixpoint before_dash (s : string) : string :=
  match s with
  | EmptyString => EmptyString
  | String c s' => if (c =? "-")%char then EmptyString else String c (before_dash s')
  end.

(** [s.replace(/\/+$/, '')]: the string without its trailing slashes. *)
Fixpoint strip_trailing_slashes (s : string) : string :=
  match s with
  | EmptyString => EmptyString
  | String c s' =>
      match strip_trailing_slashes s' with
      | EmptyString => if (c =? "/")%char then EmptyString else String c EmptyString
      | t => String c t
      end
  end.

End Js.

(* ================================================================== *)
(** * Models: Date, RSSItem, RSSFeed, HTMLTemplate, OutputFile *)
(* ================================================================== *)

(** Thrown errors: [inl message] is a throw, [inr v] a normal return. *)
Definition Result (A : Type) : Type := (string + A)%type.

(** A JavaScript [Date] through the three methods the code calls:
    [getTime()] (milliseconds since the epoch) and, in the host's local
    calendar, [getFullYear()] and [getMonth()] (0 for January). *)
Record Date : Type := mkDate {
  getTime : Z;
  getFullYear : Z;
  getMonth : Z
}.

(** src/models/rss_item.js; [pubDate] is a [Date] or [null]. *)
Record RSSItem : Type := mkItem {
  title : string;
  description : string;
  link : string;
  pubDate : option Date;
  author : string;
  categories : list string
}.

(** src/models/rss_feed.js *)
Record RSSFeed : Type := mkFeed {
  feed_title : string;
  feed_description : string;
  feed_link : string;
  feed_language : string;
  items : list RSSItem
}.

(** What the code takes from its host: the clock ([new Date()], read as
    [toISOString()]), the parsing of a date string ([new Date(text)],
    absent for an invalid date) and the display form of a date
    ([toLocaleDateString] with the configured locale and options, with the
    fallback of [formatItemDate]). *)
Record Host : Type := mkHost {
  now : string;
  parseDate : string -> option Date;
  toLocaleDateString : Date -> string
}.

Module RSSItemMethods.
Import Js.

Definition hasAuthor (item : RSSItem) : bool :=
  truthy (author item) && (0 <? String.length (trim (author item)))%nat.

Definition hasCategories (item : RSSItem) : bool :=
  (0 <? List.length (categories item))%nat.

Definition getCategoriesString (item : RSSItem) : string :=
  join ", " (categories item).

(** The constructor's [validate], on the fields that can fail for an item
    whose fields have the types of the record; [validURL] tells whether
    [new URL(link)] returns. *)
Definition validate (validURL : string -> bool) (item : RSSItem) : Result unit :=
  if negb (truthy (title item)) || (String.length (trim (title item)) =? 0)%nat
  then inl "Item title is required and must be a non-empty string"
  else if negb (truthy (link item))
  then inl "Item link is required and must be a string"
  else if negb (validURL (link item))
  then inl ("Item link must be a valid URL: " ++ link item)
  else inr tt.

End RSSItemMethods.

Module HTMLTemplate.
Import Js.

Record t : Type := mk { content : string }.

Definition hasPlaceholder (template : t) (placeholder : string) : bool :=
  let normalizedPlaceholder :=
    if String.prefix "{{" placeholder then placeholder
    else "{{" ++ placeholder ++ "}}" in
  includes (content template) normalizedPlaceholder.

Definition getDefaultTemplate : string := q
"<!DOCTYPE html>
<html lang=`en`>
<head>
    <meta charset=`UTF-8`>
    <meta name=`viewport` content=`width=device-width, initial-scale=1.0`>
    <meta name=`date` content=`{{META_DATE}}`>
    <title>{{FEED_TITLE}} - {{YEAR_MONTH}}</title>
    <style>
        body { font-family: Arial, sans-serif; max-width: 800px; margin: 0 auto; padding: 20px; }
        header { border-bottom: 2px solid #333; margin-bottom: 20px; }
        article { margin-bottom: 30px; border-bottom: 1px solid #eee; padding-bottom: 20px; }
        .meta { color: #666; margin-bottom: 10px; }
        .categories { margin-top: 10px; font-size: 0.9em; color: #666; }
        h1 { color: #333; }
        h2 { color: #555; }
        a { color: #0066cc; text-decoration: none; }
        a:hover { text-decoration: underline; }
        .monthly-nav {
            display: flex;
            justify-content: space-between;
            align-items: center;
            padding: 1em 0;
            margin: 1em 0;
            border-top: 1px solid #eee;
            border-bottom: 1px solid #eee;
        }
        .monthly-nav a {
            padding: 0.5em 1em;
            border: 1px solid #ddd;
            border-radius: 4px;
        }
        .monthly-nav a:hover {
            background-color: #f5f5f5;
        }
        .monthly-nav .current-month {
            font-weight: bold;
        }
        .monthly-nav .disabled {
            visibility: hidden;
            padding: 0.5em 1em;
        }
    </style>
</head>
<body>
    <header>
        <h1>{{FEED_TITLE}}</h1>
        <p>{{FEED_DESCRIPTION}}</p>
        <p><a href=`{{FEED_LINK}}`>Visit Original Site</a></p>
        <p>{{YEAR_MONTH}}</p>
    </header>

    {{MONTHLY_NAV}}

    <main>
        {{ITEMS}}
    </main>

    <footer>
        <p>Generated on {{GENERATION_DATE}}</p>
    </footer>
</body>
</html>".

Definition createDefault : t := mk getDefaultTemplate.

(** [\{\{#ITEMS\}\}[\s\S]*?\{\{\/ITEMS\}\}] *)
Definition blockRegex : regex :=
  mkRegex [Lit "{{#ITEMS}}"; Rep any_char 0 false; Lit "{{/ITEMS}}"] false [].

(** The constructor's [validate]: it throws, or returns after printing
    the warnings that are the value returned here. *)
Definition validate (content : string) : Result (list string) :=
  if negb (truthy content)
  then inl "Template content is required and must be a string"
  else if (String.length (trim content) =? 0)%nat
  then inl "Template content cannot be empty"
  else
    let hasItemsPlaceholder := includes content "{{ITEMS}}" in
    let hasItemsBlock := test blockRegex content in
    let hasItems := hasItemsPlaceholder || hasItemsBlock in
    let missingRequired :=
      ((if negb (includes content "{{FEED_TITLE}}") then ["{{FEED_TITLE}}"] else [])
       ++ (if negb hasItems then ["{{ITEMS}} or {{#ITEMS}}...{{/ITEMS}}"] else []))%list in
    let warnings :=
      match missingRequired with
      | [] => []
      | _ => ["Warning: Template missing required placeholders: "
                ++ join ", " missingRequired]
      end in
    let itemsPlaceholderMatches := count_matches (literal "{{ITEMS}}") content in
    let itemsBlockMatches := count_matches (literal "{{#ITEMS}}") content in
    let totalItemsCount := itemsPlaceholderMatches + itemsBlockMatches in
    if (1 <? totalItemsCount)%nat
    then inl "{{ITEMS}} or {{#ITEMS}}...{{/ITEMS}} must appear exactly once in template"
    else inr warnings.

(** [new HTMLTemplate({ content })] *)
Definition fromContent (content : string) : Result t :=
  match validate content with
  | inl error => inl error
  | inr _ => inr (mk content)
  end.

End HTMLTemplate.

Module OutputFile.
Import Js.

Record t : Type := mk {
  filename : string;
  content : string;
  itemCount : nat
}.

(** The constructor's [validate], on the fields that can fail. *)
Definition create (filename content : string) (itemCount : nat) : Result t :=
  if negb (truthy filename) then inl "Filename is required and must be a string"
  else if (String.length (trim filename) =? 0)%nat then inl "Filename cannot be empty"
  else if negb (truthy content) then inl "Content is required and must be a string"
  else if (String.length (trim content) =? 0)%nat then inl "Content cannot be empty"
  else inr (mk filename content itemCount).

Definition createMonthly (yearMonth outputDir content : string)
    (itemCount : nat) : Result t :=
  let year := before_dash yearMonth in
  create (year ++ "/" ++ yearMonth ++ ".html") content itemCount.

(** [\d{4}\/\d{4}-\d{2}\.html] *)
Definition monthlyNameAtoms : list atom :=
  [One is_digit; One is_digit; One is_digit; One is_digit; Lit "/";
   One is_digit; One is_digit; One is_digit; One is_digit; Lit "-";
   One is_digit; One is_digit; Lit ".html"].

(** [/^\d{4}\/\d{4}-\d{2}\.html$/i.test(this.filename)].  The atoms have a
    fixed length, so the match of [match_here] is the only candidate, and
    the end anchor asks that nothing follows it. *)
Definition isMonthlyOutput (f : t) : bool :=
  match match_here true monthlyNameAtoms (filename f) with
  | Some (_, EmptyString) => true
  | _ => false
  end.

(** [(\d{4}-\d{2})\.html] *)
Definition yearMonthAtoms : list atom :=
  [One is_digit; One is_digit; One is_digit; One is_digit; Lit "-";
   One is_digit; One is_digit; Lit ".html"].

(** The leftmost match of atoms of fixed length that reaches the end of
    the string: an expression that ends with the end anchor, under the i
    flag. *)
Fixpoint match_to_end (r : list atom) (s : string) : option (list string) :=
  match match_here true r s with
  | Some (ps, EmptyString) => Some ps
  | _ =>
      match s with
      | String _ s' => match_to_end r s'
      | EmptyString => None
      end
  end.

(** [this.filename.match(/(\d{4}-\d{2})\.html$/i)], then group 1. *)
Definition getYearMonth (f : t) : option string :=
  match match_to_end yearMonthAtoms (filename f) with
  | Some ps => Some (capture ps (0, 7))
  | None => None
  end.

End OutputFile.

(* ================================================================== *)
(** * MonthlyGroupingService *)
(* ================================================================== *)

Module MonthlyGroupingService.
Import Js.

(** [a.localeCompare(b)], on the keys the service compares (digits and
    dashes), where it is the order of the code units. *)
Definition localeCompare (a b : string) : Z :=
  match String.compare a b with
  | Lt => (-1)%Z
  | Eq => 0%Z
  | Gt => 1%Z
  end.

(** [Array.prototype.sort(cmp)]: the sort is stable, and for a comparator
    that is a total preorder its result is the one of this insertion
    sort. *)
Section Sort.
Variable A : Type.
Variable cmp : A -> A -> Z.

Fixpoint insert (x : A) (l : list A) : list A :=
  match l with
  | [] => [x]
  | y :: l' => if (0 <? cmp x y)%Z then y :: insert x l' else x :: l
  end.

Definition sort (l : list A) : list A := fold_right insert [] l.

End Sort.

(** The comparator [(a, b) => b.pubDate.getTime() - a.pubDate.getTime()];
    it is only applied to items that have a date. *)
Definition time_of (item : RSSItem) : Z :=
  match pubDate item with
  | Some d => getTime d
  | None => 0%Z
  end.

Definition byDateDescending (a b : RSSItem) : Z := (time_of b - time_of a)%Z.

Definition getYearMonthKey (date : Date) : string :=
  let year := string_of_Z (getFullYear date) in
  let month := padStart2 (string_of_Z (getMonth date + 1)) in
  year ++ "-" ++ month.

(** A [Map] from keys to arrays, in insertion order. *)
Definition Groups : Type := list (string * list RSSItem).

(** [if (!groups.has(k)) groups.set(k, []); groups.get(k).push(item)] *)
Fixpoint push (k : string) (item : RSSItem) (groups : Groups) : Groups :=
  match groups with
  | [] => [(k, [item])]
  | (k', group) :: rest =>
      if (k' =? k) then (k', (group ++ [item])%list) :: rest
      else (k', group) :: push k item rest
  end.

Definition collect (groups : Groups) (item : RSSItem) : Groups :=
  match pubDate item with
  | None => groups
  | Some date => push (getYearMonthKey date) item groups
  end.

Definition groupItemsByMonth (items : list RSSItem) : Groups :=
  let groups := fold_left collect items [] in
  let groups := map (fun g => (fst g, sort byDateDescending (snd g))) groups in
  sort (fun a b => localeCompare (fst b) (fst a)) groups.

Definition generateFilePath (yearMonth outputDir : string) : string :=
  let year := before_dash yearMonth in
  let normalizedDir := strip_trailing_slashes outputDir in
  normalizedDir ++ "/" ++ year ++ "/" ++ yearMonth ++ ".html".

Definition getYearDirPath (yearMonth outputDir : string) : string :=
  let year := before_dash yearMonth in
  let normalizedDir := strip_trailing_slashes outputDir in
  normalizedDir ++ "/" ++ year.

(** [existingLinks] is a [Set] of strings; [has] is [Set.prototype.has]. *)
Definition has (links : list string) (x : string) : bool :=
  existsb (String.eqb x) links.

Definition filterNewItems (T : Type) (newItems : list RSSItem)
    (lastDate : option T) (existingLinks : list string) : list RSSItem :=
  filter (fun item =>
            match pubDate item with
            | None => false
            | Some _ => if has existingLinks (link item) then false else true
            end)
         newItems.

Definition mergeItems (newItems existingItems : list RSSItem) : list RSSItem :=
  let sortedNewItems := sort byDateDescending newItems in
  (sortedNewItems ++ existingItems)%list.

Definition countProcessableItems (items : list RSSItem) : nat :=
  List.length (filter (fun item => match pubDate item with Some _ => true | None => false end) items).

Definition countSkippedItems (items : list RSSItem) : nat :=
  List.length (filter (fun item => match pubDate item with Some _ => false | None => true end) items).

Fixpoint indexOf (x : string) (l : list string) : option nat :=
  match l with
  | [] => None
  | y :: l' => if (y =? x) then Some 0
               else match indexOf x l' with
                    | Some i => Some (S i)
                    | None => None
                    end
  end.

(** The result [{ prev, next }]. *)
Definition findAdjacentMonths (currentYearMonth : string)
    (availableMonths : list string) : option string * option string :=
  let sorted := sort localeCompare availableMonths in
  match indexOf currentYearMonth sorted with
  | None => (None, None)
  | Some currentIndex =>
      ((if (0 <? currentIndex)%nat then nth_error sorted (currentIndex - 1) else None),
       (if (currentIndex <? List.length sorted - 1)%nat
        then nth_error sorted (currentIndex + 1) else None))
  end.

Definition generateRelativePath (fromYearMonth toYearMonth : string) : string :=
  let fromYear := before_dash fromYearMonth in
  let toYear := before_dash toYearMonth in
  if (fromYear =? toYear) then toYearMonth ++ ".html"
  else "../" ++ toYear ++ "/" ++ toYearMonth ++ ".html".

(** [yearMonths] is a [Set], kept in insertion order. *)
Definition getUniqueYearMonths (items : list RSSItem) : list string :=
  let yearMonths :=
    fold_left
      (fun (yearMonths : list string) item =>
         match pubDate item with
         | Some date =>
             let key := getYearMonthKey date in
             if has yearMonths key then yearMonths else (yearMonths ++ [key])%list
         | None => yearMonths
         end)
      items [] in
  sort (fun a b => localeCompare b a) yearMonths.

End MonthlyGroupingService.

(* ================================================================== *)
(** * HtmlParserService *)
(* ================================================================== *)

Module HtmlParserService.
Import Js.

(** [<meta\s+name=QdateQ\s+content=Q([^Q]+)Q\s*\/?>] with the i flag, Q
    being either quote character. *)
Definition metaNameContent : regex :=
  mkRegex [Lit "<meta"; Rep is_space 1 true; Lit "name="; One is_quote;
           Lit "date"; One is_quote; Rep is_space 1 true; Lit "content=";
           One is_quote; Rep not_quote 1 true; One is_quote;
           Rep is_space 0 true; Opt is_slash; Lit ">"]
          true [(9, 1)].

(** [<meta\s+content=Q([^Q]+)Q\s+name=QdateQ\s*\/?>] with the i flag. *)
Definition metaContentName : regex :=
  mkRegex [Lit "<meta"; Rep is_space 1 true; Lit "content="; One is_quote;
           Rep not_quote 1 true; One is_quote; Rep is_space 1 true;
           Lit "name="; One is_quote; Lit "date"; One is_quote;
           Rep is_space 0 true; Opt is_slash; Lit ">"]
          true [(4, 1)].

(** The first group of the leftmost match, or nothing. *)
Definition firstGroup (re : regex) (s : string) : option string :=
  match search re s with
  | Some (_, ps, _) => Some (nth 0 (captures re ps) "")
  | None => None
  end.

Definition extractMetaDate (host : Host) (htmlContent : string) : option Date :=
  let try (pattern : regex) :=
    match firstGroup pattern htmlContent with
    | Some text => if truthy text then parseDate host text else None
    | None => None
    end in
  match try metaNameContent with
  | Some date => Some date
  | None => try metaContentName
  end.

(** [<article[^>]*>([\s\S]*?)<\/article>] with the g and i flags. *)
Definition articleRegex : regex :=
  mkRegex [Lit "<article"; Rep not_gt 0 true; Lit ">"; Rep any_char 0 false;
           Lit "</article>"]
          true [(3, 1)].

(** [<h2[^>]*>\s*<a\s+[^>]*href=Q([^Q]+)Q] with the i flag. *)
Definition h2LinkRegex : regex :=
  mkRegex [Lit "<h2"; Rep not_gt 0 true; Lit ">"; Rep is_space 0 true;
           Lit "<a"; Rep is_space 1 true; Rep not_gt 0 true; Lit "href=";
           One is_quote; Rep not_quote 1 true; One is_quote]
          true [(9, 1)].

(** [<a\s+[^>]*href=Q([^Q]+)Q] with the g and i flags. *)
Definition anyLinkRegex : regex :=
  mkRegex [Lit "<a"; Rep is_space 1 true; Rep not_gt 0 true; Lit "href=";
           One is_quote; Rep not_quote 1 true; One is_quote]
          true [(5, 1)].

(** [Set.prototype.add] *)
Definition add (x : string) (links : list string) : list string :=
  if existsb (String.eqb x) links then links else (links ++ [x])%list.

Definition startsWithHash (s : string) : bool :=
  match s with
  | String c _ => (c =? "#")%char
  | EmptyString => false
  end.

(** The link one article contributes, if any. *)
Definition articleLink (articleContent : string) : option string :=
  match firstGroup h2LinkRegex articleContent with
  | Some h2 => Some h2
  | None =>
      hd_error
        (filter (fun l => truthy l && negb (startsWithHash l))
                (map (fun ps => nth 0 (captures anyLinkRegex ps) "")
                     (matches anyLinkRegex articleContent)))
  end.

Definition extractExistingLinks (htmlContent : string) : list string :=
  fold_left
    (fun links ps =>
       match articleLink (nth 0 (captures articleRegex ps) "") with
       | Some l => add l links
       | None => links
       end)
    (matches articleRegex htmlContent) [].

(** [<meta\s+(name=QdateQ\s+content=Q)[^Q]*Q] with the i flag. *)
Definition existingMetaRegex : regex :=
  mkRegex [Lit "<meta"; Rep is_space 1 true; Lit "name="; One is_quote;
           Lit "date"; One is_quote; Rep is_space 1 true; Lit "content=";
           One is_quote; Rep not_quote 0 true; One is_quote]
          true [(2, 7)].

(** [<meta\s+(content=Q)[^Q]*Q\s+(name=QdateQ)] with the i flag. *)
Definition existingMetaRegex2 : regex :=
  mkRegex [Lit "<meta"; Rep is_space 1 true; Lit "content="; One is_quote;
           Rep not_quote 0 true; One is_quote; Rep is_space 1 true;
           Lit "name="; One is_quote; Lit "date"; One is_quote]
          true [(2, 2); (7, 4)].

(** [(<head[^>]*>)] with the i flag. *)
Definition headRegex : regex :=
  mkRegex [Lit "<head"; Rep not_gt 0 true; Lit ">"] true [(0, 3)].

(** [newDate] is given as its [toISOString()]. *)
Definition updateMetaDate (htmlContent isoDate : string) : string :=
  if test existingMetaRegex htmlContent then
    replace_first existingMetaRegex ("<meta $1" ++ isoDate ++ dq) htmlContent
  else if test existingMetaRegex2 htmlContent then
    replace_first existingMetaRegex2 ("<meta $1" ++ isoDate ++ dq ++ " $2")
                  htmlContent
  else if test headRegex htmlContent then
    replace_first headRegex
      ("$1" ++ nl ++ q "    <meta name=`date` content=`" ++ isoDate ++ q "`>")
      htmlContent
  else htmlContent.

(** [<main[^>]*>([\s\S]*?)<\/main>] with the i flag. *)
Definition mainRegex : regex :=
  mkRegex [Lit "<main"; Rep not_gt 0 true; Lit ">"; Rep any_char 0 false;
           Lit "</main>"]
          true [(3, 1)].

Definition extractMainContent (htmlContent : string) : option string :=
  match firstGroup mainRegex htmlContent with
  | Some body => Some (trim body)
  | None => None
  end.

End HtmlParserService.

(* ================================================================== *)
(** * TemplateEngine *)
(* ================================================================== *)

Module TemplateEngine.
Import Js RSSItemMethods.

(** The engine instance: its one mutable field. *)
Record t : Type := mk { itemTemplate : string }.

(** The constructor. *)
Definition new : t := mk (q
"<article>
    <h2><a href=`{{ITEM_LINK}}`>{{ITEM_TITLE}}</a></h2>
    <div class=`meta`>
        <time>{{ITEM_DATE}}</time>
        {{#ITEM_AUTHOR}}<span class=`author`>by {{ITEM_AUTHOR}}</span>{{/ITEM_AUTHOR}}
    </div>
    <div class=`content`>{{ITEM_DESCRIPTION}}</div>
    {{#ITEM_CATEGORIES}}
    <div class=`categories`>
        Tags: {{ITEM_CATEGORIES}}
    </div>
    {{/ITEM_CATEGORIES}}
</article>").

(** [\{\{#ITEMS\}\}([\s\S]*?)\{\{\/ITEMS\}\}] *)
Definition itemBlockRegex : regex :=
  mkRegex [Lit "{{#ITEMS}}"; Rep any_char 0 false; Lit "{{/ITEMS}}"]
          false [(1, 1)].

(** The result [{ itemTemplate, processedContent }]. *)
Definition extractItemTemplate (templateContent : string)
    : option string * string :=
  match search itemBlockRegex templateContent with
  | Some (_, ps, _) =>
      let extractedTemplate := trim (nth 0 (captures itemBlockRegex ps) "") in
      let processedContent :=
        replace_first itemBlockRegex "{{ITEMS}}" templateContent in
      (Some extractedTemplate, processedContent)
  | None => (None, templateContent)
  end.

(** Substitution values: an object's own entries, in insertion order. *)
Definition Values : Type := list (string * string).

(** [Object.entries(vals).forEach(([key, value]) => result =
    result.replace(new RegExp(escapeRegExp('{{' + key + '}}'), 'g'), value))] *)
Definition substitute (vals : Values) (text : string) : string :=
  fold_left
    (fun result kv =>
       replace_all (literal ("{{" ++ fst kv ++ "}}")) (snd kv) result)
    vals text.

Definition escapeHTML (text : string) : string :=
  if negb (truthy text) then ""
  else
    replace_all (literal "'") "&#39;"
      (replace_all (literal dq) "&quot;"
         (replace_all (literal ">") "&gt;"
            (replace_all (literal "<") "&lt;"
               (replace_all (literal "&") "&amp;" text)))).

(** The four expressions of [processItemDescription]. *)
Definition scriptRegex : regex :=
  mkRegex [Lit "<script"; Rep not_gt 0 true; Lit ">"; Rep any_char 0 false;
           Lit "</script>"] true [].
Definition iframeRegex : regex :=
  mkRegex [Lit "<iframe"; Rep not_gt 0 true; Lit ">"; Rep any_char 0 false;
           Lit "</iframe>"] true [].
Definition handlerRegex : regex :=
  mkRegex [Lit "on"; Rep is_word 1 true; Lit (q "=`"); Rep not_dq 0 true;
           Lit dq] true [].
Definition srcRegex : regex :=
  mkRegex [Lit (q "src=`/"); Rep not_dq 1 true; Lit dq] false [(1, 1)].

Definition processItemDescription (description : string) : string :=
  if negb (truthy description) then ""
  else
    let processed :=
      replace_all handlerRegex ""
        (replace_all iframeRegex ""
           (replace_all scriptRegex "" description)) in
    replace_all srcRegex (q "src=`/$1`") processed.

Definition formatItemDate (host : Host) (item : RSSItem) : string :=
  match pubDate item with
  | None => ""
  | Some date => toLocaleDateString host date
  end.

(** [\{\{#NAME\}\}.*?\{\{\/NAME\}\}] with the g and s flags. *)
Definition conditionalRegex (name : string) : regex :=
  mkRegex [Lit ("{{#" ++ name ++ "}}"); Rep any_char 0 false;
           Lit ("{{/" ++ name ++ "}}")] false [].

Definition conditional (name : string) (present : bool) (html : string) : string :=
  if present then
    replace_all (literal ("{{/" ++ name ++ "}}")) ""
      (replace_all (literal ("{{#" ++ name ++ "}}")) "" html)
  else replace_all (conditionalRegex name) "" html.

Definition generateItemHTML (host : Host) (engine : t) (item : RSSItem) : string :=
  let itemValues : Values :=
    [("ITEM_TITLE", escapeHTML (or_else (title item) "Untitled"));
     ("ITEM_LINK", or_else (link item) "#");
     ("ITEM_DESCRIPTION", processItemDescription (or_else (description item) ""));
     ("ITEM_DATE", formatItemDate host item);
     ("ITEM_AUTHOR", if hasAuthor item then escapeHTML (author item) else "");
     ("ITEM_CATEGORIES",
      if hasCategories item then escapeHTML (getCategoriesString item) else "")] in
  let html := itemTemplate engine in
  let html := conditional "ITEM_AUTHOR" (hasAuthor item) html in
  let html := conditional "ITEM_CATEGORIES" (hasCategories item) html in
  substitute itemValues html.

Definition generateItemsHTML (host : Host) (engine : t) (items : list RSSItem) : string :=
  match items with
  | [] => "<p>No items available.</p>"
  | _ => join (nl ++ nl) (map (generateItemHTML host engine) items)
  end.

(** A nullable key is truthy when it is present and not empty. *)
Definition present (k : option string) : bool :=
  match k with
  | Some s => truthy s
  | None => false
  end.

Definition key_text (k : option string) : string :=
  match k with
  | Some s => s
  | None => ""
  end.

Definition createMonthlyNavigation (currentYearMonth : string)
    (adjacentMonths : option string * option string)
    (generateRelativePath : string -> string -> string) : string :=
  let prev := fst adjacentMonths in
  let next := snd adjacentMonths in
  if negb (present prev) && negb (present next) then ""
  else
    let nav := q "<nav class=`monthly-nav`>" ++ nl in
    let nav :=
      if present next then
        let nextPath := generateRelativePath currentYearMonth (key_text next) in
        nav ++ q "  <a href=`" ++ nextPath ++ q "` class=`next-month`>&laquo; "
            ++ key_text next ++ "</a>" ++ nl
      else nav ++ q "  <span class=`next-month disabled`></span>" ++ nl in
    let nav :=
      nav ++ q "  <span class=`current-month`>" ++ currentYearMonth ++ "</span>" ++ nl in
    let nav :=
      if present prev then
        let prevPath := generateRelativePath currentYearMonth (key_text prev) in
        nav ++ q "  <a href=`" ++ prevPath ++ q "` class=`prev-month`>"
            ++ key_text prev ++ " &raquo;</a>" ++ nl
      else nav ++ q "  <span class=`prev-month disabled`></span>" ++ nl in
    nav ++ "</nav>".

(** The [options] argument of [generateHTML]. *)
Record Options : Type := mkOptions {
  yearMonth : string;                                   (* empty when absent *)
  pageItems : option (list RSSItem);
  adjacentMonths : option (option string * option string);
  generateRelativePath : string -> string -> string
}.

Definition prepareFeedValues (feed : RSSFeed) : Values :=
  [("FEED_TITLE", or_else (feed_title feed) "");
   ("FEED_DESCRIPTION", or_else (feed_description feed) "");
   ("FEED_LINK", or_else (feed_link feed) "");
   ("FEED_LANGUAGE", or_else (feed_language feed) "en");
   ("TOTAL_ITEMS", string_of_Z (Z.of_nat (List.length (items feed))))].

Definition prepareMonthlyValues (host : Host) (options : Options) : Values :=
  let metaDate := now host in
  [("YEAR_MONTH", yearMonth options);
   ("META_DATE", metaDate);
   ("MONTHLY_NAV",
    match adjacentMonths options with
    | Some adjacent =>
        createMonthlyNavigation (yearMonth options) adjacent
                                (generateRelativePath options)
    | None => ""
    end)].

(** [new Date().toISOString().replace('T', ' ').substring(0, 19)] *)
Definition generationDate (host : Host) : string :=
  substring 0 19 (replace_first (literal "T") " " (now host)).

(** [generateHTML] returns the page and leaves the engine in a new state. *)
Definition generateHTML (host : Host) (engine : t) (feed : RSSFeed)
    (template : HTMLTemplate.t) (options : Options) : string * t :=
  let extracted := extractItemTemplate (HTMLTemplate.content template) in
  let processedContent := snd extracted in
  let engine :=
    match fst extracted with
    | Some itemTemplate => if truthy itemTemplate then mk itemTemplate else engine
    | None => engine
    end in
  let values := prepareFeedValues feed in
  let values :=
    if truthy (yearMonth options)
    then (values ++ prepareMonthlyValues host options)%list else values in
  let itemsToRender :=
    match pageItems options with
    | Some pageItems => pageItems
    | None => items feed
    end in
  let values :=
    (values ++ [("ITEMS", generateItemsHTML host engine itemsToRender);
                ("GENERATION_DATE", generationDate host)])%list in
  (substitute values processedContent, engine).

(** [validateTemplate] either throws or returns after printing warnings;
    the warnings printed are the value returned. *)
Definition validateTemplate (template : HTMLTemplate.t) : Result (list string) :=
  let content := HTMLTemplate.content template in
  let hasItemsPlaceholder := includes content "{{ITEMS}}" in
  let hasItemsBlock := test itemBlockRegex content in
  let hasItems := hasItemsPlaceholder || hasItemsBlock in
  let missing :=
    ((if negb (HTMLTemplate.hasPlaceholder template "{{FEED_TITLE}}")
      then ["{{FEED_TITLE}}"] else [])
     ++ (if negb hasItems then ["{{ITEMS}} or {{#ITEMS}}...{{/ITEMS}}"] else []))%list in
  let warnings :=
    match missing with
    | [] => []
    | _ => ["Template missing recommended placeholders: " ++ join ", " missing]
    end in
  let itemsPlaceholderCount := count_matches (literal "{{ITEMS}}") content in
  let itemsBlockCount := count_matches (literal "{{#ITEMS}}") content in
  let totalItemsCount := itemsPlaceholderCount + itemsBlockCount in
  if negb (totalItemsCount =? 1)%nat then
    inl "{{ITEMS}} or {{#ITEMS}}...{{/ITEMS}} must appear exactly once in template"
  else inr warnings.

(** [<a[^>]+class=Q[^Q]*next-month[^Q]*Q[^>]*>], Q the double quote. *)
Definition nextLinkRegex : regex :=
  mkRegex [Lit "<a"; Rep not_gt 1 true; Lit (q "class=`"); Rep not_dq 0 true;
           Lit "next-month"; Rep not_dq 0 true; Lit dq; Rep not_gt 0 true;
           Lit ">"] false [].

Definition disabledNextPattern : regex :=
  literal (q "<span class=`next-month disabled`></span>").

Definition updateNextLink (html nextYearMonth : string)
    (generateRelativePath : string -> string -> string)
    (currentYearMonth : string) : string :=
  let hasNextLink := test nextLinkRegex html in
  if hasNextLink then html
  else if test disabledNextPattern html then
    let nextPath := generateRelativePath currentYearMonth nextYearMonth in
    let nextLink :=
      q "<a href=`" ++ nextPath ++ q "` class=`next-month`>&laquo; "
        ++ nextYearMonth ++ "</a>" in
    replace_first disabledNextPattern nextLink html
  else html.

End TemplateEngine.

(* ================================================================== *)
(** * Paths and the file system *)
(* ================================================================== *)

(** ** node:path on a POSIX host *)

Module Path.
Import Js.

Definition isAbsolute (path : string) : bool :=
  match path with
  | String c _ => (c =? "/")%char
  | EmptyString => false
  end.

(** [path.split('/')] *)
Fixpoint segments (path : string) : list string :=
  match path with
  | EmptyString => [EmptyString]
  | String c rest =>
      if (c =? "/")%char then EmptyString :: segments rest
      else
        match segments rest with
        | name :: names => String c name :: names
        | [] => [String c EmptyString]
        end
  end.

(** One segment in [normalizeString] without [allowAboveRoot]: [kept]
    holds the names kept so far, the last one first.  An empty segment
    and a dot are dropped, two dots drop the last name kept, if any. *)
Definition step (kept : list string) (name : string) : list string :=
  if (name =? "") || (name =? ".") then kept
  else if (name =? "..") then tl kept
  else name :: kept.

(** The names of a normalised absolute path, from the root. *)
Definition normalize (path : string) : list string :=
  rev (fold_left step (segments path) []).

(** The absolute path of a list of names. *)
Definition root (names : list string) : string := "/" ++ join "/" names.

(** [process.cwd()], an absolute path, is kept as the names of its
    directories from the root. *)
Definition posixCwd (cwd : list string) : string := root cwd.

(** The loop of [path.resolve] over its arguments, the last one first,
    until an absolute one is met: [(resolvedAbsolute, resolvedPath)]. *)
Fixpoint gather (paths : list string) : bool * string :=
  match paths with
  | [] => (false, "")
  | path :: rest =>
      let '(resolvedAbsolute, resolvedPath) := gather rest in
      if resolvedAbsolute then (resolvedAbsolute, resolvedPath)
      else if (String.length path =? 0)%nat then (false, resolvedPath)
      else (isAbsolute path, path ++ "/" ++ resolvedPath)
  end.

(** The names of [path.resolve(...paths)]. *)
Definition locate (cwd : list string) (paths : list string) : list string :=
  let '(resolvedAbsolute, resolvedPath) := gather paths in
  normalize (if resolvedAbsolute then resolvedPath
             else posixCwd cwd ++ "/" ++ resolvedPath).

(** [path.resolve(...paths)] *)
Definition resolve (cwd : list string) (paths : list string) : string :=
  root (locate cwd paths).

(** [path.dirname(path)] for a normalised absolute [path], which is what
    the source passes: the result of [path.resolve]. *)
Definition dirname (path : string) : string :=
  root (removelast (normalize path)).

(** [path.join(dir, name)] for an absolute [dir] and a [name] that does
    not end with a slash, which is how the source calls it. *)
Definition join (dir name : string) : string :=
  root (normalize (dir ++ "/" ++ name)).

(** The directories on the way to a path, the path itself last. *)
Fixpoint prefixes (done names : list string) : list (list string) :=
  match names with
  | [] => []
  | name :: rest =>
      (done ++ [name])%list :: prefixes (done ++ [name])%list rest
  end.

End Path.

(** ** node:fs *)

(** What a run does to files, most recent first. *)
Inductive event : Type :=
| Wrote (path : string)
| Unlinked (path : string).

(** An error thrown by a call of [node:fs]: its [code] and [message]. *)
Record FsError : Type := mkFsError {
  code : string;
  message : string
}.

Inductive operation : Type := Reading | Writing | Unlinking | MakingDir.

(** The file system.  A file or a directory is known by its normalised
    absolute path; the root is a directory.  [refused] tells which calls
    the system refuses (permissions, a full disk, ...) and with which
    error; a call also fails for what the state of the disk is.  There
    are no symbolic links.  [trace] lists what was done to files. *)
Record Disk : Type := mkDisk {
  cwd : list string;
  files : string -> option string;
  dirs : string -> bool;
  refused : operation -> string -> option FsError;
  trace : list event
}.

Module Fs.
Import Js.

Definition isFile (disk : Disk) (absolutePath : string) : bool :=
  match files disk absolutePath with
  | Some _ => true
  | None => false
  end.

Definition isDirectory (disk : Disk) (absolutePath : string) : bool :=
  (absolutePath =? "/") || dirs disk absolutePath.

(** The error of a call that the state of the disk makes fail, with the
    message the host gives it. *)
Definition failure (code description syscall path : string) : FsError :=
  mkFsError code
            (code ++ ": " ++ description ++ ", " ++ syscall ++ " '" ++ path ++ "'").

Definition existsSync (path : string) (disk : Disk) : bool :=
  let absolutePath := Path.resolve (cwd disk) [path] in
  isFile disk absolutePath || isDirectory disk absolutePath.

Definition readFileSync (path : string) (disk : Disk) : FsError + string :=
  let absolutePath := Path.resolve (cwd disk) [path] in
  match refused disk Reading absolutePath with
  | Some error => inl error
  | None =>
      match files disk absolutePath with
      | Some content => inr content
      | None =>
          if isDirectory disk absolutePath
          then inl (failure "EISDIR" "illegal operation on a directory" "read" path)
          else inl (failure "ENOENT" "no such file or directory" "open" path)
      end
  end.

(** [writeFileSync]: all of the content or an error. *)
Definition writeFileSync (path content : string) (disk : Disk) : FsError + Disk :=
  let absolutePath := Path.resolve (cwd disk) [path] in
  let parent := Path.dirname absolutePath in
  match refused disk Writing absolutePath with
  | Some error => inl error
  | None =>
      if isDirectory disk absolutePath
      then inl (failure "EISDIR" "illegal operation on a directory" "open" path)
      else if isFile disk parent
      then inl (failure "ENOTDIR" "not a directory" "open" path)
      else if negb (isDirectory disk parent)
      then inl (failure "ENOENT" "no such file or directory" "open" path)
      else inr (mkDisk (cwd disk)
                       (fun p => if (p =? absolutePath) then Some content
                                 else files disk p)
                       (dirs disk) (refused disk)
                       (Wrote absolutePath :: trace disk))
  end.

Definition unlinkSync (path : string) (disk : Disk) : FsError + Disk :=
  let absolutePath := Path.resolve (cwd disk) [path] in
  match refused disk Unlinking absolutePath with
  | Some error => inl error
  | None =>
      match files disk absolutePath with
      | None =>
          if isDirectory disk absolutePath
          then inl (failure "EISDIR" "illegal operation on a directory" "unlink" path)
          else inl (failure "ENOENT" "no such file or directory" "unlink" path)
      | Some _ =>
          inr (mkDisk (cwd disk)
                      (fun p => if (p =? absolutePath) then None else files disk p)
                      (dirs disk) (refused disk)
                      (Unlinked absolutePath :: trace disk))
      end
  end.

(** [mkdirSync(path, { recursive: true })]: the directory and the missing
    ones on the way to it are made, unless a file is in the way. *)
Definition mkdirSync (path : string) (disk : Disk) : FsError + Disk :=
  let absolutePath := Path.resolve (cwd disk) [path] in
  let chain := map Path.root (Path.prefixes [] (Path.locate (cwd disk) [path])) in
  match refused disk MakingDir absolutePath with
  | Some error => inl error
  | None =>
      match find (isFile disk) chain with
      | Some p =>
          if (p =? absolutePath)
          then inl (failure "EEXIST" "file already exists" "mkdir" path)
          else inl (failure "ENOTDIR" "not a directory" "mkdir" path)
      | None =>
          inr (mkDisk (cwd disk) (files disk)
                      (fun p => dirs disk p || existsb (String.eqb p) chain)
                      (refused disk) (trace disk))
      end
  end.

End Fs.

(* ================================================================== *)
(** * FileWriter *)
(* ================================================================== *)

Module FileWriter.
Import Js.

(** [ensureDirectoryExists] *)
Definition ensureDirectoryExists (dirPath : string) (disk : Disk)
    : Result unit * Disk :=
  if Fs.existsSync dirPath disk then (inr tt, disk)
  else
    match Fs.mkdirSync dirPath disk with
    | inr disk' => (inr tt, disk')
    | inl error =>
        if (code error =? "EACCES") || (code error =? "EPERM")
        then (inl ("FILESYSTEM Permission denied: cannot create directory "
                     ++ dirPath), disk)
        else (inl ("FILESYSTEM Failed to create directory " ++ dirPath ++ ": "
                     ++ message error), disk)
    end.

(** The [catch] block of [writeFile]: the error thrown for the error
    caught.  An [Error] made by the code itself has no code. *)
Definition caught (filename : string) (error : FsError) : string :=
  if (code error =? "EACCES") || (code error =? "EPERM")
  then "FILESYSTEM Permission denied: cannot write to " ++ filename
  else if (code error =? "ENOSPC")
  then "FILESYSTEM Disk full: cannot write " ++ filename
  else if (code error =? "ENOTDIR")
  then "FILESYSTEM Invalid path: " ++ filename ++ " contains non-directory component"
  else if String.prefix "FILESYSTEM" (message error) then message error
  else "FILESYSTEM Failed to write file " ++ filename ++ ": " ++ message error.

(** [writeFile]: the path written, or the error thrown.  The entry that
    the source adds to [writtenFiles] is left out. *)
Definition writeFile (outputFile : OutputFile.t) (outputDir : string)
    (disk : Disk) : Result string * Disk :=
  let filename := OutputFile.filename outputFile in
  let absolutePath := Path.resolve (cwd disk) [outputDir; filename] in
  let dirPath := Path.dirname absolutePath in
  match ensureDirectoryExists dirPath disk with
  | (inl error, disk') => (inl (caught filename (mkFsError "" error)), disk')
  | (inr _, disk') =>
      match Fs.writeFileSync absolutePath (OutputFile.content outputFile) disk' with
      | inr disk'' => (inr absolutePath, disk'')
      | inl error => (inl (caught filename error), disk')
      end
  end.

(** [cleanupFiles]: an unlink that fails is reported on the console and
    passed over. *)
Fixpoint cleanupFiles (filePaths : list string) (disk : Disk) : Disk :=
  match filePaths with
  | [] => disk
  | filePath :: rest =>
      match Fs.unlinkSync filePath disk with
      | inr disk' => cleanupFiles rest disk'
      | inl _ => cleanupFiles rest disk
      end
  end.

(** The [for] loop of [writeFiles]: either every file is written, or a
    write throws with [writtenPaths] as they stand then. *)
Fixpoint writeEach (outputFiles : list OutputFile.t) (outputDir : string)
    (writtenPaths : list string) (disk : Disk)
    : (string * list string * Disk) + (list string * Disk) :=
  match outputFiles with
  | [] => inr (writtenPaths, disk)
  | outputFile :: rest =>
      match writeFile outputFile outputDir disk with
      | (inr path, disk') =>
          writeEach rest outputDir (writtenPaths ++ [path])%list disk'
      | (inl error, disk') => inl (error, writtenPaths, disk')
      end
  end.

Definition writeFiles (outputFiles : list OutputFile.t) (outputDir : string)
    (disk : Disk) : Result (list string) * Disk :=
  match writeEach outputFiles outputDir [] disk with
  | inr (writtenPaths, disk') => (inr writtenPaths, disk')
  | inl (error, writtenPaths, disk') =>
      (inl error, cleanupFiles writtenPaths disk')
  end.

(** [validateOutputDirectory]: the directory or its parent has to exist;
    a probe file is written and removed. *)
Definition validateOutputDirectory (outputDir : string) (disk : Disk)
    : Result unit * Disk :=
  let wrap (error : string) : string :=
    if String.prefix "FILESYSTEM" error then error
    else "FILESYSTEM Invalid output directory: " ++ error in
  let resolvedDir := Path.resolve (cwd disk) [outputDir] in
  let parentDir := Path.dirname resolvedDir in
  if negb (Fs.existsSync resolvedDir disk) && negb (Fs.existsSync parentDir disk)
  then (inl (wrap ("FILESYSTEM Parent directory does not exist: " ++ parentDir)),
        disk)
  else
    let testFile := Path.join resolvedDir ".feedtohtml-write-test" in
    match Fs.writeFileSync testFile "test" disk with
    | inr disk' =>
        match Fs.unlinkSync testFile disk' with
        | inr disk'' => (inr tt, disk'')
        | inl _ => (inr tt, disk')
        end
    | inl writeError =>
        if (code writeError =? "EACCES") || (code writeError =? "EPERM")
        then (inl (wrap ("FILESYSTEM Directory not writable: " ++ resolvedDir)),
              disk)
        else (inl (wrap (message writeError)), disk)
    end.

End FileWriter.

(* ================================================================== *)
(** * RSSParser *)
(* ================================================================== *)

Module RSSParser.
Import Js.

Definition nonBlank (s : string) : bool :=
  truthy s && (0 <? String.length (trim s))%nat.

Definition validateFeed (feed : RSSFeed) : Result unit :=
  if negb (nonBlank (feed_title feed)) then inl "PARSE Feed must have a title"
  else if (List.length (items feed) =? 0)%nat
  then inl "PARSE Feed must contain at least one item"
  else
    let validItems :=
      filter (fun item => nonBlank (title item) && nonBlank (link item))
             (items feed) in
    if (List.length validItems =? 0)%nat
    then inl "PARSE Feed must contain at least one item with title and link"
    else inr tt.

(** ** Fetching and parsing *)

(** An error as the [catch] blocks look at it. *)
Record Raised : Type := mkRaised { errorName : string; errorMessage : string }.

(** What lies outside the program: [xmlToFeed] is the [try] block of
    [parseXML] (the XML parser, then [parseRSSFeed] or [parseAtomFeed]) on
    a text, [fetchFeed] is [fetchFeed] on a URL with the time allowed, and
    [validateUrl] gives [isValid] and [errors] of [urlValidator.validate]
    with the options of the call. *)
Record Outside : Type := mkOutside {
  xmlToFeed : string -> Result RSSFeed;
  fetchFeed : string -> Z -> Raised + string;
  validateUrl : string -> bool * list string
}.

Definition parseXML (outside : Outside) (xmlContent : string) : Result RSSFeed :=
  match xmlToFeed outside xmlContent with
  | inr feed => inr feed
  | inl error =>
      if String.prefix "PARSE" error then inl error
      else inl ("PARSE Invalid XML format in RSS feed: " ++ error)
  end.

(** [timeout] is a whole number of seconds. *)
Definition fetchAndParse (outside : Outside) (url : string) (timeout : Z)
    : Result RSSFeed :=
  let handler (error : Raised) : Result RSSFeed :=
    if (errorName error =? "TypeError") && includes (errorMessage error) "fetch"
    then inl ("NETWORK Failed to fetch RSS feed: " ++ errorMessage error)
    else if includes (errorMessage error) "timeout"
    then inl ("NETWORK Failed to fetch RSS feed: timeout after "
                ++ string_of_Z timeout ++ " seconds")
    else if String.prefix "NETWORK" (errorMessage error)
            || String.prefix "PARSE" (errorMessage error)
    then inl (errorMessage error)
    else inl ("NETWORK Failed to fetch RSS feed: " ++ errorMessage error) in
  match fetchFeed outside url (timeout * 1000) with
  | inl error => handler error
  | inr xmlContent =>
      match parseXML outside xmlContent with
      | inl error => handler (mkRaised "Error" error)
      | inr feed => inr feed
      end
  end.

Definition parseFromFile (outside : Outside) (filePath : string) (disk : Disk)
    : Result RSSFeed :=
  let handler (error : string) : Result RSSFeed :=
    if String.prefix "FILESYSTEM" error || String.prefix "PARSE" error
    then inl error
    else inl ("FILESYSTEM Failed to read feed file: " ++ error) in
  if negb (Fs.existsSync filePath disk)
  then handler ("FILESYSTEM Feed file not found: " ++ filePath)
  else
    match Fs.readFileSync filePath disk with
    | inl error => handler (message error)
    | inr xmlContent =>
        match parseXML outside xmlContent with
        | inl error => handler error
        | inr feed => inr feed
        end
    end.

(** ** Atom links *)

Section AtomLink.

(** The XML parser is configured with [parseAttributeValue]: an attribute
    that reads as a number or a boolean arrives as one.  [nonzero] is the
    truthiness of a number. *)
Variable number : Type.
Variable nonzero : number -> bool.

(** The value of a property of a link element. *)
Inductive attr : Type :=
| Absent                          (* undefined *)
| Text (s : string)
| Number (n : number)
| Flag (b : bool).

Definition truthyAttr (a : attr) : bool :=
  match a with
  | Absent => false
  | Text s => truthy s
  | Number n => nonzero n
  | Flag b => b
  end.

(** [a === text] *)
Definition isText (a : attr) (text : string) : bool :=
  match a with
  | Text s => (s =? text)
  | _ => false
  end.

(** What [extractAtomLink] reads of a link element: its properties
    [@_rel] and [@_href]; both are undefined on an element that is a
    string or a number. *)
Record linkElement : Type := mkLink { rel : attr; href : attr }.

(** The argument of [extractAtomLink]: a falsy value, an array, one
    object, or a truthy primitive given by its [String(link)]. *)
Inductive linkValue : Type :=
| Falsy
| Elements (links : list linkElement)
| Element (l : linkElement)
| Primitive (text : string).

(** [found && found['@_href']] *)
Definition hrefOf (found : option linkElement) : option attr :=
  match found with
  | Some l => if truthyAttr (href l) then Some (href l) else None
  | None => None
  end.

Definition extractAtomLink (link : linkValue) : attr :=
  match link with
  | Falsy => Text ""
  | Elements links =>
      let alternateLink := find (fun l => isText (rel l) "alternate") links in
      match hrefOf alternateLink with
      | Some url => url
      | None =>
          let selfLink := find (fun l => isText (rel l) "self") links in
          match hrefOf selfLink with
          | Some url => url
          | None =>
              let anyLink :=
                find (fun l => truthyAttr (href l)
                               && (negb (truthyAttr (rel l))
                                   || negb (isText (rel l) "next")))
                     links in
              match hrefOf anyLink with
              | Some url => url
              | None => Text ""
              end
          end
      end
  | Element l =>
      if truthyAttr (href l) then href l else Text "[object Object]"
  | Primitive text => Text text
  end.

End AtomLink.

End RSSParser.

(* ================================================================== *)
(** * FeedToHtml *)
(* ================================================================== *)

Module FeedToHtml.
Import Js.

(** [(<main[^>]*>)[\s\S]*?(<\/main>)] with the i flag. *)
Definition mainReplaceRegex : regex :=
  mkRegex [Lit "<main"; Rep not_gt 0 true; Lit ">"; Rep any_char 0 false;
           Lit "</main>"]
          true [(0, 3); (4, 1)].

Definition mainItems (html : string) : string :=
  match HtmlParserService.firstGroup HtmlParserService.mainRegex html with
  | Some body => trim body
  | None => ""
  end.

Definition mergeHtmlContent (host : Host) (existingHtml newHtml : string) : string :=
  let newItemsHtml := mainItems newHtml in
  let existingItemsHtml := mainItems existingHtml in
  let mergedItemsHtml := newItemsHtml ++ nl ++ nl ++ existingItemsHtml in
  let mergedHtml :=
    replace_first mainReplaceRegex
      ("$1" ++ nl ++ "    " ++ mergedItemsHtml ++ nl ++ "    $2") existingHtml in
  HtmlParserService.updateMetaDate mergedHtml (now host).

(** The arguments of [convert] after [mergeConfigs]; an empty string
    stands for an option that is not given. *)
Record Request : Type := mkRequest {
  rssUrl : string;
  filePath : string;
  timeout : Z;
  templatePath : string;
  outputDir : string
}.

(** What [convert] resolves to. *)
Inductive ConvertResult : Type :=
| Failure (message : string)
| Success (writtenPaths : list string) (newItems updatedFiles : nat).

(** From the start of [convert] to the feed. *)
Definition loadFeed (outside : RSSParser.Outside) (request : Request)
    (disk : Disk) : Result RSSFeed :=
  if truthy (filePath request)
  then RSSParser.parseFromFile outside (filePath request) disk
  else
    let urlValidation := RSSParser.validateUrl outside (rssUrl request) in
    if negb (fst urlValidation)
    then inl ("CONFIG Invalid RSS URL: " ++ join ", " (snd urlValidation))
    else RSSParser.fetchAndParse outside (rssUrl request) (timeout request).

(** [HTMLTemplate.loadFromFile] *)
Definition loadFromFile (filePath : string) (disk : Disk) : Result HTMLTemplate.t :=
  let wrap (error : string) : string := "Failed to load template file: " ++ error in
  match Fs.readFileSync filePath disk with
  | inl error => inl (wrap (message error))
  | inr content =>
      match HTMLTemplate.fromContent content with
      | inl error => inl (wrap error)
      | inr template => inr template
      end
  end.

Definition loadTemplate (templatePath : string) (disk : Disk)
    : Result HTMLTemplate.t :=
  if negb (truthy templatePath) then inr HTMLTemplate.createDefault
  else
    match loadFromFile templatePath disk with
    | inr template => inr template
    | inl error =>
        inl ("CONFIG Failed to load template from " ++ templatePath ++ ": " ++ error)
    end.

(** The variables of the loop over the monthly groups and the disk;
    [thrown] holds the error once an iteration has thrown. *)
Record Loop : Type := mkLoop {
  engine : TemplateEngine.t;
  outputFiles : list OutputFile.t;
  newlyCreatedPages : list (string * string);   (* yearMonth, prevMonth *)
  totalNewItems : nat;
  updatedFiles : nat;
  thrown : option string;
  fsState : Disk
}.

(** From the generation of the page with its navigation to the end of the
    iteration. *)
Definition render (host : Host) (feed : RSSFeed) (template : HTMLTemplate.t)
    (outputDir : string) (availableMonths : list string)
    (yearMonth : string) (itemsToRender : list RSSItem)
    (existing : option string) (st : Loop) : Loop :=
  let adjacentMonths :=
    MonthlyGroupingService.findAdjacentMonths yearMonth availableMonths in
  let isUpdate := match existing with Some _ => true | None => false end in
  let created :=
    if negb isUpdate && TemplateEngine.present (fst adjacentMonths)
    then (newlyCreatedPages st
            ++ [(yearMonth, TemplateEngine.key_text (fst adjacentMonths))])%list
    else newlyCreatedPages st in
  let generated :=
    TemplateEngine.generateHTML host (engine st) feed template
      (TemplateEngine.mkOptions yearMonth (Some itemsToRender)
         (Some adjacentMonths) MonthlyGroupingService.generateRelativePath) in
  let htmlContent := fst generated in
  let finalHtml :=
    match existing with
    | Some existingHtml => mergeHtmlContent host existingHtml htmlContent
    | None => htmlContent
    end in
  match OutputFile.createMonthly yearMonth outputDir finalHtml
                                 (List.length itemsToRender) with
  | inr outputFile =>
      mkLoop (snd generated) (outputFiles st ++ [outputFile])%list created
             (totalNewItems st) (updatedFiles st) None (fsState st)
  | inl error =>
      mkLoop (snd generated) (outputFiles st) created
             (totalNewItems st) (updatedFiles st) (Some error) (fsState st)
  end.

(** One iteration of [for (const [yearMonth, items] of monthlyGroups)].
    The page is read a second time before the merge; nothing is written
    in between, so the second reading gives what the first one gave. *)
Definition processGroup (host : Host) (feed : RSSFeed)
    (template : HTMLTemplate.t) (outputDir : string)
    (availableMonths : list string) (st : Loop)
    (group : string * list RSSItem) : Loop :=
  match thrown st with
  | Some _ => st
  | None =>
      let yearMonth := fst group in
      let items := snd group in
      let filePath := MonthlyGroupingService.generateFilePath yearMonth outputDir in
      let yearDirPath := MonthlyGroupingService.getYearDirPath yearMonth outputDir in
      let raise (error : FsError) (disk1 : Disk) : Loop :=
        mkLoop (engine st) (outputFiles st) (newlyCreatedPages st)
               (totalNewItems st) (updatedFiles st) (Some (message error)) disk1 in
      match (if Fs.existsSync yearDirPath (fsState st) then inr (fsState st)
             else Fs.mkdirSync yearDirPath (fsState st)) with
      | inl error => raise error (fsState st)
      | inr disk1 =>
          if Fs.existsSync filePath disk1 then
            match Fs.readFileSync filePath disk1 with
            | inl error => raise error disk1
            | inr existingHtml =>
                let lastDate := HtmlParserService.extractMetaDate host existingHtml in
                let existingLinks :=
                  HtmlParserService.extractExistingLinks existingHtml in
                let newItems :=
                  MonthlyGroupingService.filterNewItems items lastDate existingLinks in
                if (List.length newItems =? 0)%nat
                then mkLoop (engine st) (outputFiles st) (newlyCreatedPages st)
                            (totalNewItems st) (updatedFiles st) None disk1
                else
                  render host feed template outputDir availableMonths yearMonth
                         newItems (Some existingHtml)
                         (mkLoop (engine st) (outputFiles st) (newlyCreatedPages st)
                                 (totalNewItems st + List.length newItems)
                                 (updatedFiles st + 1) None disk1)
            end
          else
            render host feed template outputDir availableMonths yearMonth
                   items None
                   (mkLoop (engine st) (outputFiles st) (newlyCreatedPages st)
                           (totalNewItems st + List.length items)
                           (updatedFiles st) None disk1)
      end
  end.

(** The loop that gives the pages before the new ones a link to them:
    the error of a call that throws, or the disk. *)
Fixpoint patchNavigation (pages : list (string * string)) (outputDir : string)
    (disk : Disk) : Result unit * Disk :=
  match pages with
  | [] => (inr tt, disk)
  | (yearMonth, prevMonth) :: rest =>
      let prevFilePath :=
        MonthlyGroupingService.generateFilePath prevMonth outputDir in
      if Fs.existsSync prevFilePath disk then
        match Fs.readFileSync prevFilePath disk with
        | inl error => (inl (message error), disk)
        | inr prevHtml =>
            let updatedHtml :=
              TemplateEngine.updateNextLink prevHtml yearMonth
                MonthlyGroupingService.generateRelativePath prevMonth in
            if (updatedHtml =? prevHtml) then patchNavigation rest outputDir disk
            else
              match Fs.writeFileSync prevFilePath updatedHtml disk with
              | inr disk' => patchNavigation rest outputDir disk'
              | inl error => (inl (message error), disk)
              end
        end
      else patchNavigation rest outputDir disk
  end.

(** [convert] from the grouping of the items on: the feed and the template
    are loaded and accepted. *)
Definition convertFeed (host : Host) (engine0 : TemplateEngine.t)
    (feed : RSSFeed) (template : HTMLTemplate.t) (outputDir : string)
    (disk0 : Disk) : ConvertResult * TemplateEngine.t * Disk :=
  let monthlyGroups := MonthlyGroupingService.groupItemsByMonth (items feed) in
  match monthlyGroups with
  | [] => (Success [] 0 0, engine0, disk0)
  | _ =>
  let availableMonths := map fst monthlyGroups in
  let st :=
    fold_left (processGroup host feed template outputDir availableMonths)
              monthlyGroups (mkLoop engine0 [] [] 0 0 None disk0) in
  match thrown st with
  | Some error => (Failure error, engine st, fsState st)
  | None =>
  match outputFiles st with
  | [] => (Success [] 0 0, engine st, fsState st)
  | _ =>
  match FileWriter.validateOutputDirectory outputDir (fsState st) with
  | (inl error, disk1) => (Failure error, engine st, disk1)
  | (inr _, disk1) =>
  match FileWriter.writeFiles (outputFiles st) outputDir disk1 with
  | (inl error, disk2) => (Failure error, engine st, disk2)
  | (inr writtenPaths, disk2) =>
  match patchNavigation (newlyCreatedPages st) outputDir disk2 with
  | (inl error, disk3) => (Failure error, engine st, disk3)
  | (inr _, disk3) =>
      (Success writtenPaths (totalNewItems st) (updatedFiles st), engine st, disk3)
  end end end end end end.

(** [convert]: the body of its [try], with the [catch] that turns an
    error into a failure. *)
Definition convert (host : Host) (outside : RSSParser.Outside)
    (engine0 : TemplateEngine.t) (request : Request) (disk0 : Disk)
    : ConvertResult * TemplateEngine.t * Disk :=
  match loadFeed outside request disk0 with
  | inl error => (Failure error, engine0, disk0)
  | inr feed =>
  match RSSParser.validateFeed feed with
  | inl error => (Failure error, engine0, disk0)
  | inr _ =>
  match loadTemplate (templatePath request) disk0 with
  | inl error => (Failure error, engine0, disk0)
  | inr template =>
  match TemplateEngine.validateTemplate template with
  | inl error => (Failure error, engine0, disk0)
  | inr _ =>
      convertFeed host engine0 feed template
                  (or_else (outputDir request) (Path.posixCwd (cwd disk0))) disk0
  end end end end.

(** [categorizeError], on the message of the error. *)
Definition categorizeError (message : string) : string :=
  if String.prefix "NETWORK" message then "network"
  else if String.prefix "PARSE" message then "parse"
  else if String.prefix "FILESYSTEM" message then "filesystem"
  else if String.prefix "CONFIG" message then "config"
  else "unknown".

End FeedToHtml.

(* ================================================================== *)
(** * RSSFeed: the constructor's validation *)
(* ================================================================== *)

Module RSSFeedMethods.
Import Js.

(** [validate], for a feed whose fields have the types of the record. *)
Definition validate (validURL : string -> bool) (feed : RSSFeed) : Result unit :=
  if negb (truthy (feed_title feed))
     || (String.length (trim (feed_title feed)) =? 0)%nat
  then inl "Feed title is required and must be a non-empty string"
  else if negb (truthy (feed_description feed))
          || (String.length (trim (feed_description feed)) =? 0)%nat
  then inl "Feed description is required and must be a non-empty string"
  else if truthy (feed_link feed)
          && (0 <? String.length (trim (feed_link feed)))%nat
          && negb (validURL (feed_link feed))
  then inl ("Feed link must be a valid URL when provided: " ++ feed_link feed)
  else if (List.length (items feed) =? 0)%nat
  then inl "Feed must contain at least one item"
  else inr tt.

End RSSFeedMethods.

(* ================================================================== *)
(** * Vocabulary of the properties *)
(* ================================================================== *)

Import Js.
Import TemplateEngine MonthlyGroupingService.
Import HtmlParserService FileWriter FeedToHtml.

(** [x] is placed no later than [y] by a comparator. *)
Definition precedes (A : Type) (cmp : A -> A -> Z) (x y : A) : Prop :=
  (cmp x y <= 0)%Z.

(** The selection in the words of the specification: an item is new when
    it has a publication date and its link is not a known link. *)
Definition is_new (knownLinks : list string) (item : RSSItem) : bool :=
  match pubDate item with
  | None => false
  | Some _ => if in_dec string_dec (link item) knownLinks then false else true
  end.

Definition no_dash (s : string) : Prop := before_dash s = s.

(** The number [validateTemplate] compares with one: the occurrences of
    the bare placeholder plus the occurrences of the block opener. *)
Definition regionCount (template : HTMLTemplate.t) : nat :=
  count_matches (literal "{{ITEMS}}") (HTMLTemplate.content template)
  + count_matches (literal "{{#ITEMS}}") (HTMLTemplate.content template).

Definition untitledTemplate : HTMLTemplate.t :=
  HTMLTemplate.mk "<main>{{ITEMS}}</main>".

Definition sampleHost : Host :=
  mkHost "2025-02-01T10:20:30.000Z" (fun _ => None)
         (fun date => string_of_Z (getTime date)).

Definition sampleItem : RSSItem :=
  mkItem "Hello" "text" "http://example.com/1"
         (Some (mkDate 1000 2025 0)) "" [].

Definition sampleFeed : RSSFeed :=
  mkFeed "Feed" "about" "http://example.com/" "en" [sampleItem].

Definition blockTemplate : HTMLTemplate.t :=
  HTMLTemplate.mk
    "<h1>{{FEED_TITLE}}</h1><main>{{#ITEMS}}<li>{{ITEM_TITLE}}</li>{{/ITEMS}}</main>".

Definition bareTemplate : HTMLTemplate.t :=
  HTMLTemplate.mk "<h1>{{FEED_TITLE}}</h1><main>{{ITEMS}}</main>".

Definition sampleOptions : Options :=
  mkOptions "" None None MonthlyGroupingService.generateRelativePath.

(** The file that [writeFile] writes for an output file. *)
Definition pathOf (disk : Disk) (outputDir : string) (outputFile : OutputFile.t)
    : string :=
  Path.resolve (cwd disk) [outputDir; OutputFile.filename outputFile].

(** What a batch leaves at a path: the content of the last file of the
    batch that goes there. *)
Definition batchContent (disk : Disk) (outputDir : string)
    (batch : list OutputFile.t) (path : string) : option string :=
  match find (fun f => (pathOf disk outputDir f =? path)) (rev batch) with
  | Some f => Some (OutputFile.content f)
  | None => None
  end.

Definition after_batch (outputDir : string) (batch : list OutputFile.t)
    (disk : Disk) (path : string) : option string :=
  match batchContent disk outputDir batch path with
  | Some content => Some content
  | None => files disk path
  end.

Definition wrote_all (disk : Disk) (outputDir : string)
    (batch : list OutputFile.t) : list event :=
  rev (map (fun f => Wrote (pathOf disk outputDir f)) batch).

(** A directory of [before] is a directory of [after]. *)
Definition dirs_kept (before after : Disk) : Prop :=
  forall p, dirs before p = true -> dirs after p = true.

(** Two states of one file system: the same working directory and the
    same refusals. *)
Definition same_system (before after : Disk) : Prop :=
  cwd after = cwd before /\ refused after = refused before.



Definition in_month (k : string) (item : RSSItem) : bool :=
  match pubDate item with
  | Some date => (getYearMonthKey date =? k)
  | None => false
  end.

Definition keys (groups : Groups) : list string := map fst groups.

Definition size (groups : Groups) : nat :=
  list_sum (map (fun g => List.length (snd g)) groups).

Fixpoint every (p : ascii -> bool) (s : string) : bool :=
  match s with
  | EmptyString => true
  | String c s' => p c && every p s'
  end.

Definition key_char (c : ascii) : bool := is_digit c || (c =? "-")%char.

(** Four digits, a dash, two digits. *)
Definition is_year_month (s : string) : bool :=
  match s with
  | String y1 (String y2 (String y3 (String y4 (String d (String m1 (String m2 EmptyString)))))) =>
      is_digit y1 && is_digit y2 && is_digit y3 && is_digit y4
      && (d =? "-")%char && is_digit m1 && is_digit m2
  | _ => false
  end.

Definition four_digits (s : string) : bool :=
  match s with
  | String y1 (String y2 (String y3 (String y4 EmptyString))) =>
      is_digit y1 && is_digit y2 && is_digit y3 && is_digit y4
  | _ => false
  end.

Definition two_digits (s : string) : bool :=
  match s with
  | String m1 (String m2 EmptyString) => is_digit m1 && is_digit m2
  | _ => false
  end.

Definition not_dollar (c : ascii) : bool := negb (c =? "$")%char.

Definition placeholder : string := q "<span class=`next-month disabled`></span>".

(** The active link that [updateNextLink] writes. *)
Definition nextLink (currentYearMonth nextYearMonth : string) : string :=
  q "<a href=`" ++ generateRelativePath currentYearMonth nextYearMonth
    ++ q "` class=`next-month`>&laquo; " ++ nextYearMonth ++ "</a>".

(** Neither a dollar sign nor a closing angle bracket. *)
Definition link_char (c : ascii) : bool :=
  negb (c =? "$")%char && negb (c =? ">")%char.

Definition decemberNav : string :=
  q "<nav class=`monthly-nav`>
  <span class=`next-month disabled`></span>
  <span class=`current-month`>2024-12</span>
</nav>".

(** The file that a run reads as the page of a month. *)
Definition pagePath (disk : Disk) (outputDir yearMonth : string) : string :=
  Path.resolve (cwd disk) [generateFilePath yearMonth outputDir].

(** The page of a group exists and knows the link of every item of the
    group. *)
Definition page_knows (outputDir : string) (disk : Disk)
    (group : string * list RSSItem) : bool :=
  match files disk (pagePath disk outputDir (fst group)) with
  | Some html =>
      forallb (fun item => has (extractExistingLinks html) (link item))
              (snd group)
  | None => false
  end.

Definition nothing_new (feed : RSSFeed) (outputDir : string) (disk : Disk) : bool :=
  forallb (page_knows outputDir disk) (groupItemsByMonth (items feed)).

(** A run on an empty disk, and the same feed again. *)
Definition emptyDisk : Disk :=
  mkDisk [] (fun _ => None) (fun _ => false) (fun _ _ => None) [].

Definition entry (name : string) (time year month : Z) : RSSItem :=
  mkItem ("Entry " ++ name) ("About " ++ name) ("http://example.com/" ++ name)
         (Some (mkDate time year month)) "" [].

Definition entryA : RSSItem := entry "A" 1 2024 11.
Definition entryB : RSSItem := entry "B" 2 2024 11.
Definition entryC : RSSItem := entry "C" 3 2024 11.
Definition entryD : RSSItem := entry "D" 4 2024 11.
Definition entryN : RSSItem := entry "N" 1 2024 10.
Definition entryJ : RSSItem := entry "J" 9 2025 0.

Definition feedOf (entries : list RSSItem) : RSSFeed :=
  mkFeed "Feed" "about" "http://example.com/" "en" entries.

(** The network answers with a text that the parser reads as the feed of
    [entries]. *)
Definition feedAt (entries : list RSSItem) : RSSParser.Outside :=
  RSSParser.mkOutside (fun _ => inr (feedOf entries))
                      (fun _ _ => inr "<rss></rss>")
                      (fun _ => (true, [])).

Definition request : Request :=
  mkRequest "http://example.com/feed.xml" "" 60 "" "/out".

(** A run of the feed of [entries] with the default template into /out. *)
Definition run (entries : list RSSItem) (disk : Disk)
    : ConvertResult * TemplateEngine.t * Disk :=
  convert sampleHost (feedAt entries) TemplateEngine.new request disk.

Definition firstRun : ConvertResult * TemplateEngine.t * Disk :=
  run [entryA; entryB; entryN] emptyDisk.

(** The relative name of the page of a month. *)
Definition pageName (yearMonth : string) : string :=
  before_dash yearMonth ++ "/" ++ yearMonth ++ ".html".

(** A bucket is changed by a run when its page is missing or some entry
    of the bucket is new for the page. *)
Definition changed (host : Host) (outputDir : string) (disk : Disk)
    (group : string * list RSSItem) : bool :=
  match files disk (pagePath disk outputDir (fst group)) with
  | Some html =>
      negb (List.length
              (filterNewItems (snd group) (extractMetaDate host html)
                              (extractExistingLinks html)) =? 0)%nat
  | None => true
  end.

(** The navigation patch a bucket asks for: its page is created by the
    run and an earlier month is among the months of the run. *)
Definition createdBy (outputDir : string) (disk : Disk)
    (availableMonths : list string) (group : string * list RSSItem)
    : list (string * string) :=
  match files disk (pagePath disk outputDir (fst group)) with
  | Some _ => []
  | None =>
      let adjacent := findAdjacentMonths (fst group) availableMonths in
      if present (fst adjacent) then [(fst group, key_text (fst adjacent))]
      else []
  end.

Definition probeFile (disk : Disk) (outputDir : string) : string :=
  Path.join (Path.resolve (cwd disk) [outputDir]) ".feedtohtml-write-test".

Definition not_slash (c : ascii) : bool := negb (c =? "/")%char.

(** The events a run adds to the trace. *)
Definition newEvents (before after : Disk) : list event :=
  firstn (List.length (trace after) - List.length (trace before)) (trace after).


(** A later run with entries new for December and one of a new month. *)
Definition busyRun : ConvertResult * TemplateEngine.t * Disk :=
  run [entryC; entryA; entryD; entryB; entryN; entryJ] (snd firstRun).

Definition pageOf (disk : Disk) (path : string) : string :=
  match files disk path with
  | Some html => html
  | None => ""
  end.

(** An entry whose description holds a dollar sign and a digit. *)
Definition priced : RSSItem :=
  mkItem "Sale" "Only $1 today" "http://example.com/sale"
         (Some (mkDate 1 2024 11)) "" [].

Definition pricedRun : ConvertResult * TemplateEngine.t * Disk :=
  run [priced] emptyDisk.

Definition pricedUpdate : ConvertResult * TemplateEngine.t * Disk :=
  run [entryB; priced] (snd pricedRun).

(** An entry whose link holds an apostrophe. *)
Definition quoted : RSSItem :=
  mkItem "It" "text" "http://example.com/it's"
         (Some (mkDate 1 2024 11)) "" [].

Definition quotedRun : ConvertResult * TemplateEngine.t * Disk :=
  run [quoted] emptyDisk.

Definition quotedRerun : ConvertResult * TemplateEngine.t * Disk :=
  run [quoted] (snd quotedRun).

(** [a] comes before [b] in the order of the keys. *)
Definition earlier (a b : string) : Prop := String.compare a b = Lt.

(** [r] is the nearest of [months] before [cur], if any. *)
Definition nearest_before (cur : string) (months : list string)
    (r : option string) : Prop :=
  match r with
  | Some p =>
      In p months /\ earlier p cur
      /\ forall k, In k months -> earlier k cur -> k = p \/ earlier k p
  | None => forall k, In k months -> ~ earlier k cur
  end.

(** [r] is the nearest of [months] after [cur], if any. *)
Definition nearest_after (cur : string) (months : list string)
    (r : option string) : Prop :=
  match r with
  | Some n =>
      In n months /\ earlier cur n
      /\ forall k, In k months -> earlier cur k -> k = n \/ earlier n k
  | None => forall k, In k months -> ~ earlier cur k
  end.
(** The entries of a bucket that a run renders: all of them when the page
    of the bucket is missing, otherwise the ones that are new for the
    page. *)
Definition rendered (host : Host) (outputDir : string) (disk : Disk)
    (group : string * list RSSItem) : list RSSItem :=
  match files disk (pagePath disk outputDir (fst group)) with
  | Some html =>
      filterNewItems (snd group) (extractMetaDate host html)
                     (extractExistingLinks html)
  | None => snd group
  end.

(** The page of a bucket is a file of the disk. *)
Definition page_exists (outputDir : string) (disk : Disk)
    (group : string * list RSSItem) : bool :=
  Fs.isFile disk (pagePath disk outputDir (fst group)).

(** [disk] is [disk0] with, maybe, more directories. *)
Definition grown (disk0 disk : Disk) : Prop :=
  same_system disk0 disk
  /\ files disk = files disk0
  /\ trace disk = trace disk0
  /\ dirs_kept disk0 disk.

(** The file that [writeFile] writes for the page of a month. *)
Definition writtenPath (disk : Disk) (outputDir yearMonth : string) : string :=
  Path.resolve (cwd disk) [outputDir; pageName yearMonth].
(** A stand-in for the URL parser of the host: the strings that start
    with an http scheme. *)
Definition httpURL (s : string) : bool :=
  String.prefix "http://" s || String.prefix "https://" s.
(** A text matches a literal, under a case mode. *)
Fixpoint lit_match (ci : bool) (l m : string) : bool :=
  match l, m with
  | EmptyString, EmptyString => true
  | String a l', String b m' => char_eq ci a b && lit_match ci l' m'
  | _, _ => false
  end.

(** What an atom can match. *)
Definition piece_ok (ci : bool) (a : atom) (m : string) : Prop :=
  match a with
  | Lit l => lit_match ci l m = true
  | One cls => exists c, m = String c "" /\ cls c = true
  | Opt cls => m = "" \/ exists c, m = String c "" /\ cls c = true
  | Rep cls least _ => every cls m = true /\ least <= String.length m
  end.

(** The string without its first [n] characters. *)
Fixpoint drop (n : nat) (s : string) : string :=
  match n, s with
  | S k, String _ s' => drop k s'
  | _, _ => s
  end.

(** The subject text that a token of a scan stands for. *)
Definition token_text (t : token) : string :=
  match t with
  | Text c => String c ""
  | Hit _ ps _ => concat_all ps
  end.

(** [a] is [b] with some characters deleted. *)
Inductive deleted_from : string -> string -> Prop :=
| deleted_nil : deleted_from "" ""
| deleted_keep (c : ascii) (a b : string) :
    deleted_from a b -> deleted_from (String c a) (String c b)
| deleted_drop (c : ascii) (a b : string) :
    deleted_from a b -> deleted_from a (String c b).

(** The concatenation of the images of the characters of a string. *)
Fixpoint flat_map_s (f : ascii -> string) (s : string) : string :=
  match s with
  | EmptyString => EmptyString
  | String c s' => f c ++ flat_map_s f s'
  end.

(** The entity that stands for a character in HTML text. *)
Definition entity (c : ascii) : string :=
  if (c =? "&")%char then "&amp;"
  else if (c =? "<")%char then "&lt;"
  else if (c =? ">")%char then "&gt;"
  else if (c =? "034")%char then "&quot;"
  else if (c =? "'")%char then "&#39;"
  else String c "".

(** Neither an angle bracket nor a quote character. *)
Definition markup_free (c : ascii) : bool :=
  negb (c =? "<")%char && negb (c =? ">")%char
  && negb (c =? "034")%char && negb (c =? "'")%char.
(** Neither an opening angle bracket nor a double quote. *)
Definition plain_char (c : ascii) : bool :=
  negb (c =? "<")%char && negb (c =? "034")%char.
(** The characters of a relative path between monthly pages: those of the
    keys, the dot, the slash and the letters of the extension. *)
Definition path_char (c : ascii) : bool :=
  key_char c || (c =? ".")%char || (c =? "/")%char
  || (c =? "h")%char || (c =? "t")%char || (c =? "m")%char || (c =? "l")%char.

(** A link element that [extractAtomLink] may answer with: it has an
    href and is not a link to the next page of the feed. *)
Definition usable_link (number : Type) (nonzero : number -> bool)
    (l : RSSParser.linkElement number) : bool :=
  RSSParser.truthyAttr nonzero (RSSParser.href l)
  && negb (RSSParser.isText (RSSParser.rel l) "next").

(** The first character of [s], if any, is outside [cls]. *)
Definition stops_at (cls : ascii -> bool) (s : string) : bool :=
  match s with
  | String c _ => negb (cls c)
  | EmptyString => true
  end.

(** A cut of a text into pieces, one per atom, that leaves the matcher no
    choice: a greedy repetition is followed by a character outside its
    class, and so is an optional character that is left out.  Lazy
    repetitions are not covered. *)
Fixpoint exact_cut (ci : bool) (r : list atom) (ps : list string)
    (rest : string) : Prop :=
  match r, ps with
  | [], [] => True
  | a :: r', m :: ps' =>
      piece_ok ci a m
      /\ match a with
         | Rep cls _ true => stops_at cls (concat_all ps' ++ rest) = true
         | Rep _ _ false => False
         | Opt cls => m = "" -> stops_at cls (concat_all ps' ++ rest) = true
         | _ => True
         end
      /\ exact_cut ci r' ps' rest
  | _, _ => False
  end.

(** The characters of [Date.prototype.toISOString]. *)
Definition iso_char (c : ascii) : bool :=
  is_digit c || (c =? "-")%char || (c =? ":")%char || (c =? ".")%char
  || (c =? "T")%char || (c =? "Z")%char || (c =? "+")%char.

(** The end of a meta tag follows at once: [\s*\/?>]. *)
Definition closes_tag (s : string) : bool :=
  match match_here true [Rep is_space 0 true; Opt is_slash; Lit ">"] s with
  | Some _ => true
  | None => false
  end.

Definition not_lt (c : ascii) : bool := negb (c =? "<")%char.

(** A host that reads one date text. *)
Definition readingHost : Host :=
  mkHost "2025-02-01T10:20:30.000Z"
         (fun text => if (text =? "2025-02-01T10:20:30.000Z")
                      then Some (mkDate 1738405230000 2025 1) else None)
         (fun date => string_of_Z (getTime date)).

(** A page with a date, after another meta tag. *)
Definition datedPage : string :=
  q "<head><meta charset=`utf-8`><meta name=`date` content=`2024-12-31T00:00:00.000Z`></head>".

Definition datedPieces : list string :=
  ["<meta"; " "; "name="; dq; "date"; dq; " "; "content="; dq;
   "2024-12-31T00:00:00.000Z"; dq].

(** The names kept after the segments of [path], the last one first. *)
Definition walk (kept : list string) (path : string) : list string :=
  fold_left Path.step (Path.segments path) kept.

(** A name of a normalised path: no slash, not empty, neither one dot nor
    two. *)
Definition plain_name (name : string) : bool :=
  every not_slash name
  && negb (name =? "") && negb (name =? ".") && negb (name =? "..").

(** The state of the disk after the files of [done] of a batch started
    on [disk0]. *)
Definition batch_state (outputDir : string) (done : list OutputFile.t)
    (disk0 disk : Disk) : Prop :=
  (forall p, files disk p = after_batch outputDir done disk0 p)
  /\ same_system disk0 disk
  /\ dirs_kept disk0 disk
  /\ trace disk = (wrote_all disk0 outputDir done ++ trace disk0)%list.

(** The page of a group is in place for a run that has nothing to add:
    the directory of its year exists, the page is read, and it knows the
    link of every item of the group. *)
Definition page_settled (outputDir : string) (disk : Disk)
    (group : string * list RSSItem) : bool :=
  Fs.existsSync (getYearDirPath (fst group) outputDir) disk
  && Fs.existsSync (generateFilePath (fst group) outputDir) disk
  && match Fs.readFileSync (generateFilePath (fst group) outputDir) disk with
     | inr html =>
         forallb (fun item => has (extractExistingLinks html) (link item))
                 (snd group)
     | inl _ => false
     end.

Definition settled (feed : RSSFeed) (outputDir : string) (disk : Disk) : bool :=
  forallb (page_settled outputDir disk) (groupItemsByMonth (items feed)).

(** The directory that a run writes into. *)
Definition targetDir (request : Request) (disk : Disk) : string :=
  or_else (outputDir request) (Path.posixCwd (cwd disk)).

(** An entry of November 2024 whose link holds apostrophes. *)
Definition lyrics : RSSItem :=
  mkItem "Lyrics" "text" "http://example.com/?q=rock'n'roll"
         (Some (mkDate 5 2024 10)) "" [].

Definition lyricsRun : ConvertResult * TemplateEngine.t * Disk :=
  run [entryA; lyrics] emptyDisk.

Definition lyricsRerun : ConvertResult * TemplateEngine.t * Disk :=
  run [entryA; lyrics] (snd lyricsRun).

(** An output directory that holds a file of its owner. *)
Definition notesDisk : Disk :=
  mkDisk []
         (fun p => if (p =? "/out/notes.txt") then Some "keep" else None)
         (fun p => (p =? "/out"))
         (fun _ _ => None) [].




(** A process that works in /home/u and writes into the directory site
    of its working directory. *)
Definition homeDisk : Disk :=
  mkDisk ["home"; "u"] (fun _ => None) (fun _ => false) (fun _ _ => None) [].

Definition relativeRequest : Request :=
  mkRequest "http://example.com/feed.xml" "" 60 "" "site/".

(* ================================================================== *)
(** * Properties *)
(* ================================================================== *)

(** ** Link-based selection of new items *)

Lemma has_In (links : list string) (x : string) :
  has links x = true <-> In x links.
Proof.
  unfold has. rewrite existsb_exists. split.
  - intros [y [Hy Heq]]. apply String.eqb_eq in Heq. now subst.
  - intros H. exists x. split; [assumption | apply String.eqb_refl].
Qed.

Lemma filterNewItems_is_new (T : Type) (newItems : list RSSItem)
    (lastDate : option T) (existingLinks : list string) :
  filterNewItems newItems lastDate existingLinks
  = filter (is_new existingLinks) newItems.
Proof.
  unfold filterNewItems. apply filter_ext. intros item. unfold is_new.
  destruct (pubDate item) as [d|]; [|reflexivity].
  destruct (in_dec string_dec (link item) existingLinks) as [Hin|Hout].
  - apply has_In in Hin. now rewrite Hin.
  - destruct (has existingLinks (link item)) eqn:E; [|reflexivity].
    apply has_In in E. contradiction.
Qed.

(** C1. [filterNewItems] returns, in input order, exactly the items that
    have a publication date and whose link is not a known link; the
    [lastDate] argument has no effect, so an item whose link is known is
    never returned, whatever its date or description. *)
Theorem filterNewItems_selects_by_link (T : Type) (newItems : list RSSItem)
    (lastDate : option T) (existingLinks : list string) :
  filterNewItems newItems lastDate existingLinks
    = filter (is_new existingLinks) newItems
  /\ (forall item,
        In item (filterNewItems newItems lastDate existingLinks)
        <-> In item newItems /\ pubDate item <> None
            /\ ~ In (link item) existingLinks)
  /\ (forall (U : Type) (otherDate : option U),
        filterNewItems newItems otherDate existingLinks
        = filterNewItems newItems lastDate existingLinks)
  /\ (forall item,
        In (link item) existingLinks ->
        ~ In item (filterNewItems newItems lastDate existingLinks)).
Proof.
  assert (Hmem : forall item,
            In item (filterNewItems newItems lastDate existingLinks)
            <-> In item newItems /\ pubDate item <> None
                /\ ~ In (link item) existingLinks).
  { intros item. rewrite filterNewItems_is_new, filter_In. unfold is_new.
    destruct (pubDate item) as [d|];
      destruct (in_dec string_dec (link item) existingLinks);
      intuition (try discriminate; try congruence). }
  split; [apply filterNewItems_is_new|].
  split; [exact Hmem|].
  split.
  - intros U otherDate. now rewrite !filterNewItems_is_new.
  - intros item Hknown Hin. apply Hmem in Hin. tauto.
Qed.

(** ** Relative paths between monthly pages *)

Lemma before_dash_key (year rest : string) :
  no_dash year -> before_dash (year ++ "-" ++ rest) = year.
Proof.
  unfold no_dash. induction year as [|c year IH]; simpl; intros H.
  - reflexivity.
  - destruct (c =? "-")%char; [discriminate|].
    injection H as H. f_equal. now apply IH.
Qed.

(** C7. [generateRelativePath] depends on its two keys only: with equal
    year components (the text before the first dash) the result is the bare
    file name of the target, otherwise it climbs to the target's year
    directory; from 2024-12 to 2025-01 it is ../2025/2025-01.html. *)
Theorem generateRelativePath_by_year (fromYearMonth toYearMonth : string) :
  (before_dash fromYearMonth = before_dash toYearMonth ->
     generateRelativePath fromYearMonth toYearMonth = toYearMonth ++ ".html")
  /\ (before_dash fromYearMonth <> before_dash toYearMonth ->
        generateRelativePath fromYearMonth toYearMonth
        = "../" ++ before_dash toYearMonth ++ "/" ++ toYearMonth ++ ".html")
  /\ (forall fromYear fromMonth toYear toMonth,
        no_dash fromYear -> no_dash toYear ->
        fromYearMonth = fromYear ++ "-" ++ fromMonth ->
        toYearMonth = toYear ++ "-" ++ toMonth ->
        generateRelativePath fromYearMonth toYearMonth
        = if (fromYear =? toYear) then toYearMonth ++ ".html"
          else "../" ++ toYear ++ "/" ++ toYearMonth ++ ".html")
  /\ generateRelativePath "2024-12" "2025-01" = "../2025/2025-01.html".
Proof.
  unfold generateRelativePath. repeat split.
  - intros H. apply String.eqb_eq in H. now rewrite H.
  - intros H. apply String.eqb_neq in H. now rewrite H.
  - intros fy fm ty tm Hf Ht -> ->. now rewrite !before_dash_key.
Qed.

(** ** Template validation *)

Lemma validateTemplate_throws_iff (template : HTMLTemplate.t) :
  (exists error, validateTemplate template = inl error)
  <-> regionCount template <> 1.
Proof.
  unfold validateTemplate, regionCount.
  destruct (_ + _ =? 1)%nat eqn:E; simpl.
  - apply Nat.eqb_eq in E. split; [intros [e He]; discriminate | congruence].
  - apply Nat.eqb_neq in E. split; [intros _; exact E | intros _; eauto].
Qed.

Lemma convert_stops_at_validateTemplate (host : Host)
    (outside : RSSParser.Outside) (engine : TemplateEngine.t)
    (request : FeedToHtml.Request) (template : HTMLTemplate.t)
    (disk : Disk) (error : string) :
  FeedToHtml.loadTemplate (FeedToHtml.templatePath request) disk = inr template ->
  validateTemplate template = inl error ->
  exists message,
    FeedToHtml.convert host outside engine request disk
    = (FeedToHtml.Failure message, engine, disk).
Proof.
  intros Hload H. unfold FeedToHtml.convert.
  destruct (FeedToHtml.loadFeed outside request disk) as [e|feed]; [eauto|].
  destruct (RSSParser.validateFeed feed); [eauto|].
  rewrite Hload, H. eauto.
Qed.

(** C4, as the code has it.  [validateTemplate] throws exactly when the
    occurrences of the bare placeholder and of the block opener do not add
    up to one; a template without the main-title marker gets a warning and
    is accepted; and when it throws for the template that a run has
    loaded, [convert] fails before anything is rendered or written. *)
Theorem validateTemplate_requires_one_region (template : HTMLTemplate.t) :
  ((exists error, validateTemplate template = inl error)
   <-> regionCount template <> 1)
  /\ (regionCount template = 1 ->
      HTMLTemplate.hasPlaceholder template "{{FEED_TITLE}}" = false ->
      exists warning, validateTemplate template = inr [warning])
  /\ (forall host outside engine request disk error,
        FeedToHtml.loadTemplate (FeedToHtml.templatePath request) disk
        = inr template ->
        validateTemplate template = inl error ->
        exists message,
          FeedToHtml.convert host outside engine request disk
          = (FeedToHtml.Failure message, engine, disk)).
Proof.
  split; [apply validateTemplate_throws_iff|]. split.
  - intros Hone Htitle. unfold validateTemplate.
    fold (regionCount template). rewrite Hone, Htitle. simpl.
    eexists. reflexivity.
  - intros. eapply convert_stops_at_validateTemplate; eassumption.
Qed.

(** C4, as stated, fails: a template without the main-title marker and
    with one entries region is accepted with a warning. *)
Lemma validateTemplate_accepts_missing_title :
  HTMLTemplate.hasPlaceholder untitledTemplate "{{FEED_TITLE}}" = false
  /\ validateTemplate untitledTemplate
     = inr ["Template missing recommended placeholders: {{FEED_TITLE}}"]
  /\ ~ (forall template,
          HTMLTemplate.hasPlaceholder template "{{FEED_TITLE}}" = false ->
          exists error, validateTemplate template = inl error).
Proof.
  split; [reflexivity|]. split; [reflexivity|].
  intros H. destruct (H untitledTemplate eq_refl) as [e He]. discriminate.
Qed.

(** A block opener without its closer counts as a region: the template is
    accepted although it has no entries region. *)
Example validateTemplate_accepts_unclosed_block :
  validateTemplate (HTMLTemplate.mk "<h1>{{FEED_TITLE}}</h1>{{#ITEMS}}")
  = inr ["Template missing recommended placeholders: {{ITEMS}} or {{#ITEMS}}...{{/ITEMS}}"].
Proof. reflexivity. Qed.

(** ** The engine's stored item template *)

Lemma generateHTML_stores_block (host : Host) (engine : t) (feed : RSSFeed)
    (template : HTMLTemplate.t) (options : Options) (body : string) :
  fst (extractItemTemplate (HTMLTemplate.content template)) = Some body ->
  truthy body = true ->
  itemTemplate (snd (generateHTML host engine feed template options)) = body.
Proof.
  intros Hbody Htruthy. unfold generateHTML. simpl.
  rewrite Hbody, Htruthy. reflexivity.
Qed.

Lemma generateHTML_keeps_engine (host : Host) (engine : t) (feed : RSSFeed)
    (template : HTMLTemplate.t) (options : Options) :
  fst (extractItemTemplate (HTMLTemplate.content template)) = None ->
  snd (generateHTML host engine feed template options) = engine.
Proof.
  intros Hnone. unfold generateHTML. simpl. now rewrite Hnone.
Qed.

(** C10. A call of [generateHTML] with a block-form template stores the
    block's body as the engine's item template, a call with a bare
    placeholder leaves the stored template alone, and so the same
    arguments give different pages on a fresh engine and on an engine that
    rendered a block-form template before. *)
Theorem generateHTML_depends_on_engine_history :
  (forall host engine feed template options body,
      fst (extractItemTemplate (HTMLTemplate.content template)) = Some body ->
      truthy body = true ->
      itemTemplate (snd (generateHTML host engine feed template options)) = body)
  /\ (forall host engine feed template options,
        fst (extractItemTemplate (HTMLTemplate.content template)) = None ->
        snd (generateHTML host engine feed template options) = engine)
  /\ (exists host feed block bare options,
        let used := snd (generateHTML host new feed block options) in
        itemTemplate used <> itemTemplate new
        /\ fst (generateHTML host new feed bare options)
           <> fst (generateHTML host used feed bare options)).
Proof.
  split; [exact generateHTML_stores_block|].
  split; [exact generateHTML_keeps_engine|].
  exists sampleHost, sampleFeed, blockTemplate, bareTemplate, sampleOptions.
  split.
  - intros H. apply (f_equal String.length) in H. vm_compute in H. discriminate.
  - intros H. apply (f_equal String.length) in H. vm_compute in H. discriminate.
Qed.

Example generateHTML_fresh_and_used :
  fst (generateHTML sampleHost new sampleFeed bareTemplate sampleOptions)
  = "<h1>Feed</h1><main>" ++ generateItemHTML sampleHost new sampleItem ++ "</main>"
  /\ fst (generateHTML sampleHost
            (snd (generateHTML sampleHost new sampleFeed blockTemplate sampleOptions))
            sampleFeed bareTemplate sampleOptions)
     = "<h1>Feed</h1><main><li>Hello</li></main>".
Proof. split; vm_compute; reflexivity. Qed.

(** ** Sorting *)

Section SortFacts.
Variable A : Type.
Variable cmp : A -> A -> Z.

Lemma insert_perm (x : A) (l : list A) : Permutation (insert cmp x l) (x :: l).
Proof.
  induction l as [|y l IH]; cbn [insert].
  - apply Permutation_refl.
  - destruct (0 <? cmp x y)%Z.
    + eapply Permutation_trans; [apply perm_skip, IH | apply perm_swap].
    + apply Permutation_refl.
Qed.

Lemma sort_perm (l : list A) : Permutation (sort cmp l) l.
Proof.
  induction l as [|x l IH]; cbn [sort fold_right].
  - apply Permutation_refl.
  - eapply Permutation_trans; [apply insert_perm | apply perm_skip, IH].
Qed.

Lemma sort_length (l : list A) : List.length (sort cmp l) = List.length l.
Proof. apply Permutation_length, sort_perm. Qed.

Lemma sort_In (x : A) (l : list A) : In x (sort cmp l) <-> In x l.
Proof.
  split; apply Permutation_in; [apply sort_perm | apply Permutation_sym, sort_perm].
Qed.

Hypothesis cmp_total : forall x y, (0 < cmp x y)%Z -> (cmp y x <= 0)%Z.
Hypothesis cmp_trans :
  forall x y z, precedes cmp x y -> precedes cmp y z -> precedes cmp x z.

Lemma insert_sorted (x : A) (l : list A) :
  StronglySorted (precedes cmp) l -> StronglySorted (precedes cmp) (insert cmp x l).
Proof.
  induction 1 as [|y l Hs IH Hall]; cbn [insert].
  - constructor; constructor.
  - destruct (0 <? cmp x y)%Z eqn:E.
    + apply Z.ltb_lt in E. constructor; [exact IH|].
      apply Forall_forall. intros z Hz.
      apply (Permutation_in _ (insert_perm x l)) in Hz.
      destruct Hz as [<-|Hz]; [now apply cmp_total|].
      rewrite Forall_forall in Hall. now apply Hall.
    + apply Z.ltb_ge in E. constructor; [now constructor|].
      constructor; [exact E|].
      apply Forall_forall. intros z Hz. rewrite Forall_forall in Hall.
      apply cmp_trans with y; [exact E | now apply Hall].
Qed.

Lemma sort_sorted (l : list A) : StronglySorted (precedes cmp) (sort cmp l).
Proof.
  induction l as [|x l IH]; cbn [sort fold_right].
  - constructor.
  - now apply insert_sorted.
Qed.

(** Stability: a class of elements that the comparator does not order
    keeps its input order. *)
Variable same : A -> bool.
Hypothesis same_unordered :
  forall x y, same x = true -> same y = true -> (cmp x y <= 0)%Z.

Lemma insert_filter (x : A) (l : list A) :
  filter same (insert cmp x l)
  = if same x then x :: filter same l else filter same l.
Proof.
  induction l as [|y l IH]; cbn [insert filter].
  - reflexivity.
  - destruct (0 <? cmp x y)%Z eqn:E.
    + cbn [filter]. rewrite IH. apply Z.ltb_lt in E.
      destruct (same x) eqn:Ex; [|reflexivity].
      destruct (same y) eqn:Ey; [|reflexivity].
      pose proof (@same_unordered x y Ex Ey). lia.
    + cbn [filter]. destruct (same x); reflexivity.
Qed.

Lemma sort_filter (l : list A) : filter same (sort cmp l) = filter same l.
Proof.
  induction l as [|x l IH]; cbn [sort fold_right filter].
  - reflexivity.
  - fold (sort cmp l). rewrite insert_filter, IH. reflexivity.
Qed.

End SortFacts.

(** ** Monthly grouping *)

Lemma push_keys (k : string) (x : RSSItem) (groups : Groups) :
  forall k', In k' (keys (push k x groups)) <-> k' = k \/ In k' (keys groups).
Proof.
  induction groups as [|[k0 g0] groups IH]; intros k'; cbn [push keys map fst In].
  - intuition congruence.
  - destruct (k0 =? k) eqn:E.
    + apply String.eqb_eq in E. subst k0. cbn [keys map fst In].
      intuition congruence.
    + cbn [keys map fst In]. fold (keys (push k x groups)). rewrite IH.
      fold (keys groups). intuition congruence.
Qed.

Lemma push_NoDup (k : string) (x : RSSItem) (groups : Groups) :
  NoDup (keys groups) -> NoDup (keys (push k x groups)).
Proof.
  induction groups as [|[k0 g0] groups IH]; cbn [push keys map fst]; intros H.
  - constructor; [intros []|constructor].
  - inversion H as [|? ? Hnotin Hrest]; subst.
    destruct (k0 =? k) eqn:E.
    + cbn [map fst]. constructor; assumption.
    + cbn [map fst]. apply String.eqb_neq in E. constructor.
      * fold (keys (push k x groups)). rewrite push_keys. intros [->|Hin]; auto.
      * now apply IH.
Qed.

Lemma In_keys (k : string) (g : list RSSItem) (groups : Groups) :
  In (k, g) groups -> In k (keys groups).
Proof. intros H. apply (in_map fst) in H. exact H. Qed.

Lemma push_In (k : string) (x : RSSItem) (groups : Groups) (k' : string)
    (g : list RSSItem) :
  NoDup (keys groups) ->
  In (k', g) (push k x groups) ->
  (k' <> k /\ In (k', g) groups)
  \/ (k' = k /\ ((exists g0, In (k, g0) groups /\ g = (g0 ++ [x])%list)
                \/ (~ In k (keys groups) /\ g = [x]))).
Proof.
  induction groups as [|[k0 g0] groups IH]; cbn [push In keys map fst]; intros Hnd.
  - intros [H|[]]. injection H as <- <-. right. split; [reflexivity|].
    right. split; [tauto|reflexivity].
  - inversion Hnd as [|? ? Hnotin Hrest]; subst.
    destruct (k0 =? k) eqn:E.
    + apply String.eqb_eq in E. subst k0. intros [H|H].
      * injection H as <- <-. right. split; [reflexivity|]. left.
        exists g0. split; [now left|reflexivity].
      * left. split; [|now right].
        intros ->. apply Hnotin. eapply In_keys; eassumption.
    + apply String.eqb_neq in E. intros [H|H].
      * injection H as <- <-. left. split; [assumption|now left].
      * destruct (IH Hrest H) as [[Hne Hin]|[-> [[g1 [Hin ->]]|[Hout ->]]]].
        -- left. split; [assumption|now right].
        -- right. split; [reflexivity|]. left. exists g1. split; [now right|reflexivity].
        -- right. split; [reflexivity|]. right. split; [|reflexivity].
           intros [Heq|Hin]; [now apply E|now apply Hout].
Qed.

Lemma push_size (k : string) (x : RSSItem) (groups : Groups) :
  size (push k x groups) = S (size groups).
Proof.
  unfold size. induction groups as [|[k0 g0] groups IH];
    cbn [push map list_sum fold_right snd].
  - reflexivity.
  - destruct (k0 =? k); cbn [map list_sum fold_right snd].
    + rewrite length_app. cbn [List.length]. lia.
    + unfold list_sum in IH. rewrite IH. lia.
Qed.

Lemma fold_left_snoc (B C : Type) (f : B -> C -> B) (l : list C) (x : C) (a : B) :
  fold_left f (l ++ [x]) a = f (fold_left f l a) x.
Proof. now rewrite fold_left_app. Qed.

Lemma in_month_key (k : string) (item : RSSItem) (date : Date) :
  pubDate item = Some date ->
  in_month k item = (getYearMonthKey date =? k).
Proof. intros H. unfold in_month. now rewrite H. Qed.

(** The groups as collected, before any sorting. *)
Lemma collect_outcome (items : list RSSItem) :
  let groups := fold_left collect items [] in
  NoDup (keys groups)
  /\ (forall k g, In (k, g) groups -> g = filter (in_month k) items /\ g <> [])
  /\ (forall item date, In item items -> pubDate item = Some date ->
                        In (getYearMonthKey date) (keys groups))
  /\ size groups = countProcessableItems items.
Proof.
  induction items as [|x items IH] using rev_ind; cbn zeta.
  - cbn. repeat split; [constructor | contradiction | contradiction | contradiction].
  - rewrite fold_left_snoc. cbn zeta in IH.
    destruct IH as (Hnd & Hgroups & Hkeys & Hsize).
    set (groups := fold_left collect items []) in *.
    unfold collect.
    destruct (pubDate x) as [date|] eqn:Edate.
    + split; [now apply push_NoDup|]. split; [|split].
      * intros k g Hin. rewrite filter_app. cbn [filter].
        rewrite (in_month_key k x Edate).
        apply push_In in Hin; [|assumption].
        destruct Hin as [[Hne Hin]|[-> [[g0 [Hin ->]]|[Hout ->]]]].
        -- apply not_eq_sym in Hne. apply String.eqb_neq in Hne. rewrite Hne.
           rewrite app_nil_r. now apply Hgroups.
        -- rewrite String.eqb_refl. destruct (Hgroups _ _ Hin) as [-> _].
           split; [reflexivity|]. intros H. now apply app_eq_nil in H.
        -- rewrite String.eqb_refl.
           assert (Hnone : filter (in_month (getYearMonthKey date)) items = []).
           { destruct (filter _ items) as [|y rest] eqn:E; [reflexivity|].
             exfalso. assert (Hy : In y (y :: rest)) by now left.
             rewrite <- E in Hy. apply filter_In in Hy. destruct Hy as [Hy Hm].
             unfold in_month in Hm. destruct (pubDate y) as [d|] eqn:Ed; [|discriminate].
             apply String.eqb_eq in Hm. apply Hout. rewrite <- Hm.
             eapply Hkeys; eassumption. }
           rewrite Hnone. split; [reflexivity|discriminate].
      * intros item d Hin Hd. apply push_keys.
        apply in_app_or in Hin. destruct Hin as [Hin|[<-|[]]].
        -- right. eapply Hkeys; eassumption.
        -- left. congruence.
      * rewrite push_size, Hsize. unfold countProcessableItems.
        rewrite filter_app, length_app. cbn [filter]. rewrite Edate.
        cbn [List.length]. lia.
    + split; [assumption|]. split; [|split].
      * intros k g Hin. rewrite filter_app. cbn [filter]. unfold in_month at 2.
        rewrite Edate, app_nil_r. now apply Hgroups.
      * intros item d Hin Hd. apply in_app_or in Hin.
        destruct Hin as [Hin|[<-|[]]]; [eapply Hkeys; eassumption|congruence].
      * rewrite Hsize. unfold countProcessableItems.
        rewrite filter_app, length_app. cbn [filter]. rewrite Edate.
        cbn [List.length]. lia.
Qed.

Lemma byDate_total (x y : RSSItem) :
  (0 < byDateDescending x y)%Z -> (byDateDescending y x <= 0)%Z.
Proof. unfold byDateDescending. lia. Qed.

Lemma byDate_trans (x y z : RSSItem) :
  precedes byDateDescending x y -> precedes byDateDescending y z ->
  precedes byDateDescending x z.
Proof. unfold precedes, byDateDescending. lia. Qed.

Lemma localeCompare_antisym (a b : string) :
  (0 < localeCompare a b)%Z -> (localeCompare b a <= 0)%Z.
Proof.
  unfold localeCompare. rewrite (String.compare_antisym b a).
  destruct (String.compare a b); cbn; lia.
Qed.

Lemma localeCompare_le (a b : string) :
  (localeCompare a b <= 0)%Z <-> a = b \/ String.compare a b = Lt.
Proof.
  unfold localeCompare. destruct (String.compare a b) eqn:E.
  - apply String_as_OT.cmp_eq in E. split; [auto|lia].
  - split; [auto|lia].
  - split; [lia|]. intros [->|H]; [|discriminate].
    assert (String.compare b b = Eq) by now apply String_as_OT.cmp_eq.
    congruence.
Qed.

Lemma localeCompare_trans (a b c : string) :
  (localeCompare a b <= 0)%Z -> (localeCompare b c <= 0)%Z ->
  (localeCompare a c <= 0)%Z.
Proof.
  rewrite !localeCompare_le.
  intros [->|H1] [->|H2]; auto. right.
  apply String_as_OT.cmp_lt. eapply String_as_OT.lt_trans;
    apply String_as_OT.cmp_lt; eassumption.
Qed.

Lemma size_perm (l l' : Groups) : Permutation l l' -> size l = size l'.
Proof.
  unfold size. induction 1; cbn [map list_sum fold_right]; unfold list_sum in *; lia.
Qed.

Lemma size_map_sort (groups : Groups) :
  size (map (fun g => (fst g, sort byDateDescending (snd g))) groups) = size groups.
Proof.
  unfold size. induction groups as [|g groups IH]; cbn [map list_sum fold_right snd].
  - reflexivity.
  - rewrite sort_length. unfold list_sum in IH. now rewrite IH.
Qed.

Lemma count_dated_skipped (items : list RSSItem) :
  countProcessableItems items + countSkippedItems items = List.length items.
Proof.
  unfold countProcessableItems, countSkippedItems.
  induction items as [|x items IH]; cbn [filter List.length].
  - reflexivity.
  - destruct (pubDate x); cbn [List.length]; lia.
Qed.

Lemma StronglySorted_impl (A : Type) (R R' : A -> A -> Prop) (l : list A) :
  (forall x y, R x y -> R' x y) -> StronglySorted R l -> StronglySorted R' l.
Proof.
  intros Himpl. induction 1 as [|x l Hs IH Hall]; constructor; [exact IH|].
  eapply Forall_impl; [|exact Hall]. intros y. apply Himpl.
Qed.

Lemma sorted_distinct (R : string -> string -> Prop) (groups : Groups) :
  StronglySorted (fun g1 g2 => fst g1 = fst g2 \/ R (fst g1) (fst g2)) groups ->
  NoDup (keys groups) ->
  StronglySorted (fun g1 g2 => R (fst g1) (fst g2)) groups.
Proof.
  induction 1 as [|g groups Hs IH Hall]; intros Hnd; constructor.
  - apply IH. now inversion Hnd.
  - inversion Hnd as [|? ? Hnotin _]; subst.
    rewrite Forall_forall in *. intros g' Hin.
    destruct (Hall g' Hin) as [Heq|HR]; [|assumption].
    exfalso. apply Hnotin. rewrite Heq. apply in_map. assumption.
Qed.

(** What [groupItemsByMonth] returns. *)
Lemma groupItemsByMonth_outcome (items : list RSSItem) :
  let groups := groupItemsByMonth items in
  NoDup (keys groups)
  /\ StronglySorted (fun g1 g2 => String.compare (fst g2) (fst g1) = Lt) groups
  /\ (forall k g, In (k, g) groups ->
        g = sort byDateDescending (filter (in_month k) items) /\ g <> [])
  /\ (forall item date, In item items -> pubDate item = Some date ->
        exists g, In (getYearMonthKey date, g) groups /\ In item g)
  /\ size groups + countSkippedItems items = List.length items.
Proof.
  cbn zeta. unfold groupItemsByMonth.
  destruct (collect_outcome items) as (Hnd & Hgroups & Hkeys & Hsize).
  cbn zeta in Hnd, Hgroups, Hkeys, Hsize.
  set (raw := fold_left collect items []) in *.
  set (each := map (fun g => (fst g, sort byDateDescending (snd g))) raw).
  set (byKey := fun a b : string * list RSSItem => localeCompare (fst b) (fst a)).
  assert (Hperm : Permutation (sort byKey each) each) by apply sort_perm.
  assert (Hkeys_each : keys each = keys raw).
  { unfold each, keys. rewrite map_map. reflexivity. }
  assert (Hnd' : NoDup (keys (sort byKey each))).
  { eapply Permutation_NoDup; [apply Permutation_sym, Permutation_map, Hperm|].
    fold (keys each). now rewrite Hkeys_each. }
  assert (Hin_each : forall k g, In (k, g) (sort byKey each) ->
            exists g0, In (k, g0) raw /\ g = sort byDateDescending g0).
  { intros k g Hin. apply (Permutation_in _ Hperm) in Hin.
    unfold each in Hin. apply in_map_iff in Hin.
    destruct Hin as ([k0 g0] & Heq & Hin). cbn [fst snd] in Heq.
    injection Heq as <- <-. eauto. }
  split; [exact Hnd'|]. split; [|split; [|split]].
  - apply (sorted_distinct (fun k1 k2 => String.compare k2 k1 = Lt)); [|exact Hnd'].
    eapply StronglySorted_impl; [|apply sort_sorted].
    + intros g1 g2 H. unfold precedes, byKey in H.
      rewrite localeCompare_le in H. destruct H as [H|H]; auto.
    + intros x y. unfold byKey. apply localeCompare_antisym.
    + intros x y z. unfold precedes, byKey. intros H1 H2.
      eapply localeCompare_trans; eassumption.
  - intros k g Hin. destruct (Hin_each k g Hin) as (g0 & Hraw & ->).
    destruct (Hgroups k g0 Hraw) as [-> Hne]. split; [reflexivity|].
    intros H. apply Hne. apply (f_equal (@List.length _)) in H.
    rewrite sort_length in H. now apply length_zero_iff_nil.
  - intros item date Hin Hdate.
    specialize (Hkeys item date Hin Hdate). unfold keys in Hkeys.
    apply in_map_iff in Hkeys. destruct Hkeys as ([k g0] & Hk & Hraw).
    cbn [fst] in Hk. subst k.
    exists (sort byDateDescending g0). split.
    + apply (Permutation_in _ (Permutation_sym Hperm)). unfold each.
      apply in_map_iff. exists (getYearMonthKey date, g0). split; [reflexivity|assumption].
    + apply sort_In. destruct (Hgroups _ _ Hraw) as [-> _].
      apply filter_In. split; [assumption|].
      rewrite (in_month_key _ _ Hdate). apply String.eqb_refl.
  - rewrite (size_perm Hperm). unfold each. rewrite size_map_sort, Hsize.
    apply count_dated_skipped.
Qed.

(** The order inside a bucket: newest first, ties in input order. *)
Lemma bucket_order (k : string) (items : list RSSItem) :
  let bucket := sort byDateDescending (filter (in_month k) items) in
  StronglySorted (fun a b => (time_of b <= time_of a)%Z) bucket
  /\ Permutation bucket (filter (in_month k) items)
  /\ (forall t,
        filter (fun item => (time_of item =? t)%Z) bucket
        = filter (fun item => in_month k item && (time_of item =? t)%Z) items).
Proof.
  cbn zeta. split; [|split].
  - eapply StronglySorted_impl;
      [|apply sort_sorted; [apply byDate_total | apply byDate_trans]].
    intros a b H. unfold precedes, byDateDescending in H. lia.
  - apply sort_perm.
  - intros t. rewrite sort_filter.
    + induction items as [|x items IH]; cbn [filter]; [reflexivity|].
      destruct (in_month k x); cbn [filter andb]; [|exact IH].
      destruct (time_of x =? t)%Z; now rewrite IH.
    + intros x y Hx Hy. apply Z.eqb_eq in Hx, Hy. unfold byDateDescending. lia.
Qed.

(** ** The form of the keys *)

Lemma every_app (p : ascii -> bool) (a b : string) :
  every p (a ++ b) = every p a && every p b.
Proof.
  induction a as [|c a IH]; cbn [append every]; [reflexivity|].
  rewrite IH. apply andb_assoc.
Qed.

Lemma every_impl (p p' : ascii -> bool) (s : string) :
  (forall c, p c = true -> p' c = true) -> every p s = true -> every p' s = true.
Proof.
  intros Himpl. induction s as [|c s IH]; cbn [every]; [auto|].
  rewrite !andb_true_iff. intros [Hc Hs]. auto.
Qed.

Lemma string_of_uint_digits (d : Decimal.uint) :
  every is_digit (NilEmpty.string_of_uint d) = true.
Proof. induction d; cbn [NilEmpty.string_of_uint every]; auto. Qed.

Lemma string_of_Z_chars (z : Z) : every key_char (string_of_Z z) = true.
Proof.
  unfold string_of_Z, NilZero.string_of_int, NilZero.string_of_uint.
  assert (H : forall d, every key_char (NilEmpty.string_of_uint d) = true).
  { intros d. apply every_impl with is_digit; [|apply string_of_uint_digits].
    intros c Hc. unfold key_char. now rewrite Hc. }
  destruct (Z.to_int z) as [d|d]; destruct d; try reflexivity;
    cbn [every]; try apply H; rewrite H; reflexivity.
Qed.

Lemma padStart2_chars (s : string) :
  every key_char s = true -> every key_char (padStart2 s) = true.
Proof.
  intros H. unfold padStart2.
  destruct (String.length s) as [|[|n]]; [reflexivity| |assumption].
  cbn [append every]. now rewrite H.
Qed.

(** Every key that [getYearMonthKey] produces is made of digits and
    dashes. *)
Lemma getYearMonthKey_chars (date : Date) :
  every key_char (getYearMonthKey date) = true.
Proof.
  unfold getYearMonthKey. rewrite !every_app, string_of_Z_chars.
  rewrite padStart2_chars by apply string_of_Z_chars. reflexivity.
Qed.

Lemma range_check (p : Z -> bool) (lo hi : Z) :
  forallb (fun i => p (lo + Z.of_nat i)%Z) (seq 0 (Z.to_nat (hi - lo + 1))) = true ->
  forall z, (lo <= z <= hi)%Z -> p z = true.
Proof.
  intros H z Hz. rewrite forallb_forall in H.
  specialize (H (Z.to_nat (z - lo))). rewrite Z2Nat.id in H by lia.
  replace (lo + (z - lo))%Z with z in H by lia.
  apply H. apply in_seq. lia.
Qed.

(** For the years of four digits the key has the form YYYY-MM. *)
Lemma getYearMonthKey_four_digits (date : Date) :
  (1000 <= getFullYear date <= 9999)%Z ->
  (0 <= getMonth date <= 11)%Z ->
  is_year_month (getYearMonthKey date) = true.
Proof.
  intros Hy Hm. unfold getYearMonthKey.
  assert (Hyear : four_digits (string_of_Z (getFullYear date)) = true).
  { apply (@range_check (fun y => four_digits (string_of_Z y)) 1000%Z 9999%Z);
      [vm_compute; reflexivity|assumption]. }
  assert (Hmonth : two_digits (padStart2 (string_of_Z (getMonth date + 1))) = true).
  { apply (@range_check (fun m => two_digits (padStart2 (string_of_Z (m + 1)))) 0%Z 11%Z);
      [vm_compute; reflexivity|assumption]. }
  destruct (string_of_Z (getFullYear date)) as [|y1 [|y2 [|y3 [|y4 [|? ?]]]]];
    try discriminate.
  destruct (padStart2 _) as [|m1 [|m2 [|? ?]]]; try discriminate.
  cbn [four_digits two_digits] in Hyear, Hmonth.
  cbn [append is_year_month].
  apply andb_true_iff in Hmonth. destruct Hmonth as [Hm1 Hm2].
  rewrite Hyear, Hm1, Hm2. reflexivity.
Qed.

(** C6, at an input where the code departs from it.  For a date in the
    year 999 the key has a year of three digits, is not of the form
    YYYY-MM, and the bucket of that old month comes before the bucket of
    January 2025. *)
Example getYearMonthKey_year_999 :
  getYearMonthKey (mkDate 0 999 4) = "999-05"
  /\ is_year_month (getYearMonthKey (mkDate 0 999 4)) = false
  /\ keys (groupItemsByMonth
             [mkItem "old" "" "http://example.com/old"
                     (Some (mkDate 0 999 4)) "" [];
              mkItem "new" "" "http://example.com/new"
                     (Some (mkDate 1 2025 0)) "" []])
     = ["999-05"; "2025-01"].
Proof. repeat split. Qed.

(** ** Facts on strings and on the matcher *)

Lemma app_assoc_s (a b c : string) : (a ++ b) ++ c = a ++ (b ++ c).
Proof. induction a as [|x a IH]; cbn [append]; [reflexivity|now rewrite IH]. Qed.

Lemma app_nil_r_s (a : string) : a ++ "" = a.
Proof. induction a as [|x a IH]; cbn [append]; [reflexivity|now rewrite IH]. Qed.

Lemma length_app_s (a b : string) :
  String.length (a ++ b) = String.length a + String.length b.
Proof. induction a as [|x a IH]; cbn [append String.length]; [reflexivity|now rewrite IH]. Qed.

Lemma char_eq_refl (ci : bool) (c : ascii) : char_eq ci c c = true.
Proof. unfold char_eq. destruct ci; apply Ascii.eqb_refl. Qed.

Lemma strip_prefix (ci : bool) (l s : string) :
  strip ci l (l ++ s) = Some (l, s).
Proof.
  induction l as [|c l IH]; cbn [append strip]; [reflexivity|].
  now rewrite char_eq_refl, IH.
Qed.

Lemma strip_sound (ci : bool) (l : string) :
  forall s m r, strip ci l s = Some (m, r) ->
                s = m ++ r /\ String.length m = String.length l.
Proof.
  induction l as [|c l IH]; intros s m r; cbn [strip].
  - intros H. injection H as <- <-. auto.
  - destruct s as [|b s]; [discriminate|].
    destruct (char_eq ci c b); [|discriminate].
    destruct (strip ci l s) as [[m' r']|] eqn:E; [|discriminate].
    intros H. injection H as <- <-. destruct (IH _ _ _ E) as [-> Hlen].
    cbn [append String.length]. auto.
Qed.

Lemma strip_exact (l : string) :
  forall s m r, strip false l s = Some (m, r) -> m = l /\ s = l ++ r.
Proof.
  induction l as [|c l IH]; intros s m r; cbn [strip].
  - intros H. injection H as <- <-. auto.
  - destruct s as [|b s]; [discriminate|].
    unfold char_eq. destruct (c =? b)%char eqn:Ec; [|discriminate].
    apply Ascii.eqb_eq in Ec. subst b.
    destruct (strip false l s) as [[m' r']|] eqn:E; [|discriminate].
    intros H. injection H as <- <-. destruct (IH _ _ _ E) as [-> ->].
    auto.
Qed.

Lemma prefer_some (A : Type) (a b : option A) (x : A) :
  prefer a b = Some x -> a = Some x \/ b = Some x.
Proof. destruct a; cbn; auto. Qed.

Lemma prefer_left (A : Type) (a b : option A) : a <> None -> prefer a b <> None.
Proof. destruct a; cbn; congruence. Qed.

Lemma prefer_right (A : Type) (a b : option A) : b <> None -> prefer a b <> None.
Proof. destruct a; cbn; congruence. Qed.

Section Rep.
Variable cls : ascii -> bool.
Variable greedy : bool.
Variable k : string -> option (list string * string).

Lemma rep_unfold (s : string) (least : nat) :
  rep cls greedy k s least
  = let stop := rep_stop k s least in
    let more :=
      match s with
      | String c s' =>
          if cls c then rep_more c (rep cls greedy k s' (Nat.pred least)) else None
      | EmptyString => None
      end in
    if greedy then prefer more stop else prefer stop more.
Proof. destruct s; reflexivity. Qed.

Lemma rep_cases (s : string) (least : nat) (x : list string * string) :
  rep cls greedy k s least = Some x ->
  rep_stop k s least = Some x
  \/ (exists c s', s = String c s' /\ cls c = true
                   /\ rep_more c (rep cls greedy k s' (Nat.pred least)) = Some x).
Proof.
  rewrite rep_unfold. cbn zeta. intros H.
  assert (H' : rep_stop k s least = Some x
               \/ match s with
                  | String c s' =>
                      if cls c then rep_more c (rep cls greedy k s' (Nat.pred least))
                      else None
                  | EmptyString => None
                  end = Some x).
  { destruct greedy; apply prefer_some in H; tauto. }
  destruct H' as [H'|H']; [now left|right].
  destruct s as [|c s']; [discriminate|].
  destruct (cls c) eqn:Ec; [|discriminate]. eauto.
Qed.

Lemma rep_pieces (s : string) :
  forall least ps r, rep cls greedy k s least = Some (ps, r) -> ps <> [].
Proof.
  induction s as [|c s IH]; intros least ps r H; apply rep_cases in H;
    destruct H as [H|(c' & s' & Hs & Hc & H)]; try discriminate.
  - unfold rep_stop in H. destruct least; [|discriminate].
    destruct (k "") as [[ps0 r0]|]; [|discriminate]. injection H as <- <-. discriminate.
  - unfold rep_stop in H. destruct least; [|discriminate].
    destruct (k (String c s)) as [[ps0 r0]|]; [|discriminate].
    injection H as <- <-. discriminate.
  - unfold rep_more in H.
    destruct (rep cls greedy k s' (Nat.pred least)) as [[[|m ps0] r0]|];
      try discriminate.
    injection H as <- <-. discriminate.
Qed.

(** A repetition matches as soon as some run of the class, long enough,
    is followed by a match of the continuation. *)
Lemma rep_complete (m s' : string) :
  forall least,
    every cls m = true -> least <= String.length m -> k s' <> None ->
    rep cls greedy k (m ++ s') least <> None.
Proof.
  induction m as [|c m IH]; intros least Hcls Hleast Hk; rewrite rep_unfold; cbn zeta.
  - cbn [String.length] in Hleast. assert (least = 0) by lia. subst least.
    cbn [append].
    assert (Hstop : rep_stop k s' 0 <> None).
    { unfold rep_stop. destruct (k s') as [[ps r]|]; congruence. }
    destruct greedy; [now apply prefer_right | now apply prefer_left].
  - cbn [every] in Hcls. apply andb_true_iff in Hcls. destruct Hcls as [Hc Hm].
    cbn [append]. rewrite Hc.
    assert (Hmore : rep_more c (rep cls greedy k (m ++ s') (Nat.pred least)) <> None).
    { assert (Hrec : rep cls greedy k (m ++ s') (Nat.pred least) <> None).
      { apply IH; auto. cbn [String.length] in Hleast. lia. }
      destruct (rep cls greedy k (m ++ s') (Nat.pred least)) as [[ps r]|] eqn:E;
        [|congruence].
      pose proof (rep_pieces _ _ E) as Hne.
      destruct ps as [|p ps]; [congruence|]. discriminate. }
    destruct greedy; [now apply prefer_left | now apply prefer_right].
Qed.

Lemma rep_sound (s : string) :
  (forall s1 ps1 r1, k s1 = Some (ps1, r1) -> s1 = concat_all ps1 ++ r1) ->
  forall least ps r,
    rep cls greedy k s least = Some (ps, r) -> s = concat_all ps ++ r.
Proof.
  intros Hk. induction s as [|c s IH]; intros least ps r H; apply rep_cases in H;
    destruct H as [H|(c' & s' & Hs & Hc & H)]; try discriminate.
  - unfold rep_stop in H. destruct least; [|discriminate].
    destruct (k "") as [[ps0 r0]|] eqn:E; [|discriminate]. injection H as <- <-.
    cbn [concat_all append]. now apply Hk.
  - unfold rep_stop in H. destruct least; [|discriminate].
    destruct (k (String c s)) as [[ps0 r0]|] eqn:E; [|discriminate].
    injection H as <- <-. cbn [concat_all append]. now apply Hk.
  - injection Hs as <- <-. unfold rep_more in H.
    destruct (rep cls greedy k s (Nat.pred least)) as [[[|m ps0] r0]|] eqn:E;
      try discriminate.
    injection H as <- <-. cbn [concat_all append]. f_equal. apply (IH _ _ _ E).
Qed.

End Rep.

(** ** The matcher *)

Lemma match_here_sound (ci : bool) (r : list atom) :
  forall s ps rest,
    match_here ci r s = Some (ps, rest) -> s = concat_all ps ++ rest.
Proof.
  induction r as [|a r IH]; intros s ps rest; cbn [match_here].
  - intros H. injection H as <- <-. reflexivity.
  - destruct a as [l|cls|cls|cls least greedy].
    + destruct (strip ci l s) as [[m s']|] eqn:E; [|discriminate].
      destruct (match_here ci r s') as [[ps' rest']|] eqn:E'; [|discriminate].
      intros H. injection H as <- <-. apply strip_sound in E. destruct E as [-> _].
      cbn [concat_all]. rewrite app_assoc_s. f_equal. now apply IH.
    + destruct s as [|c s']; [discriminate|]. destruct (cls c); [|discriminate].
      destruct (match_here ci r s') as [[ps' rest']|] eqn:E'; [|discriminate].
      intros H. injection H as <- <-. cbn [concat_all append]. f_equal. now apply IH.
    + assert (Hskip : forall x,
                 match match_here ci r s with
                 | Some (ps0, rest0) => Some (EmptyString :: ps0, rest0)
                 | None => None
                 end = Some x -> s = concat_all (fst x) ++ snd x).
      { intros x. destruct (match_here ci r s) as [[ps0 rest0]|] eqn:E; [|discriminate].
        intros H. injection H as <-. cbn [fst snd concat_all append]. now apply IH. }
      destruct s as [|c s']; [apply (Hskip (ps, rest))|].
      destruct (cls c); [|apply (Hskip (ps, rest))].
      destruct (match_here ci r s') as [[ps' rest']|] eqn:E'; [|apply (Hskip (ps, rest))].
      intros H. injection H as <- <-. cbn [concat_all append]. f_equal. now apply IH.
    + apply rep_sound. exact IH.
Qed.

Lemma match_here_Lit (ci : bool) (l : string) (r : list atom) (s : string) :
  match_here ci r s <> None -> match_here ci (Lit l :: r) (l ++ s) <> None.
Proof.
  intros H. cbn [match_here]. rewrite strip_prefix.
  destruct (match_here ci r s) as [[ps rest]|]; congruence.
Qed.

Lemma match_here_Rep (ci : bool) (cls : ascii -> bool) (least : nat)
    (greedy : bool) (r : list atom) (m s : string) :
  every cls m = true -> least <= String.length m ->
  match_here ci r s <> None ->
  match_here ci (Rep cls least greedy :: r) (m ++ s) <> None.
Proof. intros. cbn [match_here]. now apply rep_complete. Qed.

Lemma search_sound (re : regex) :
  forall s pre ps post,
    search re s = Some (pre, ps, post) ->
    s = pre ++ concat_all ps ++ post
    /\ match_here (icase re) (atoms re) (concat_all ps ++ post) = Some (ps, post).
Proof.
  induction s as [|c s IH]; intros pre ps post; cbn [search].
  - destruct (match_here (icase re) (atoms re) "") as [[ps0 rest0]|] eqn:E; [|discriminate].
    intros H. injection H as <- <- <-.
    pose proof (match_here_sound _ _ _ E) as Hs. cbn [append]. rewrite <- Hs. auto.
  - destruct (match_here (icase re) (atoms re) (String c s)) as [[ps0 rest0]|] eqn:E.
    + intros H. injection H as <- <- <-.
      pose proof (match_here_sound _ _ _ E) as Hs. cbn [append]. rewrite <- Hs. auto.
    + destruct (search re s) as [[[pre' ps'] post']|] eqn:E'; [|discriminate].
      intros H. injection H as <- <- <-. destruct (IH _ _ _ eq_refl) as [-> Hm].
      cbn [append]. auto.
Qed.

(** The match found is the leftmost one. *)
Lemma search_leftmost (re : regex) :
  forall s pre ps post,
    search re s = Some (pre, ps, post) ->
    forall pre' s', s = pre' ++ s' ->
                    String.length pre' < String.length pre ->
                    match_here (icase re) (atoms re) s' = None.
Proof.
  induction s as [|c s IH]; intros pre ps post; cbn [search].
  - destruct (match_here (icase re) (atoms re) "") as [[ps0 rest0]|]; [|discriminate].
    intros H. injection H as <- <- <-. cbn [String.length]. intros; lia.
  - destruct (match_here (icase re) (atoms re) (String c s)) as [[ps0 rest0]|] eqn:E.
    + intros H. injection H as <- <- <-. cbn [String.length]. intros; lia.
    + destruct (search re s) as [[[pre0 ps'] post']|] eqn:E'; [|discriminate].
      intros H. injection H as <- <- <-. intros pre' s' Hs Hlen.
      destruct pre' as [|c' pre'].
      * cbn [append] in Hs. now subst s'.
      * cbn [append] in Hs. injection Hs as <- ->.
        eapply IH; [reflexivity|reflexivity|]. cbn [String.length] in Hlen. lia.
Qed.

Lemma search_complete (re : regex) (pre s : string) :
  match_here (icase re) (atoms re) s <> None -> search re (pre ++ s) <> None.
Proof.
  intros H. induction pre as [|c pre IH]; cbn [append].
  - destruct s; cbn [search];
      destruct (match_here (icase re) (atoms re) _) as [[ps rest]|]; congruence.
  - cbn [search].
    destruct (match_here (icase re) (atoms re) (String c (pre ++ s))) as [[ps rest]|];
      [discriminate|].
    destruct (search re (pre ++ s)) as [[[pre' ps'] post']|]; congruence.
Qed.

Lemma test_complete (re : regex) (pre s : string) :
  match_here (icase re) (atoms re) s <> None -> test re (pre ++ s) = true.
Proof.
  intros H. unfold test.
  destruct (search re (pre ++ s)) eqn:E; [reflexivity|].
  now apply (search_complete re pre) in H.
Qed.

(** Searching for a literal. *)
Lemma search_literal (l s pre post : string) (ps : list string) :
  search (literal l) s = Some (pre, ps, post) ->
  ps = [l] /\ s = pre ++ l ++ post.
Proof.
  intros H. apply search_sound in H. destruct H as [Hs Hm].
  cbn [literal atoms icase match_here] in Hm.
  destruct (strip false l _) as [[m s']|] eqn:E; [|discriminate].
  injection Hm as <- <-. apply strip_exact in E. destruct E as [-> _].
  split; [reflexivity|]. cbn [concat_all] in Hs. now rewrite app_nil_r_s in Hs.
Qed.

(** ** Replacement templates without a dollar sign *)

Lemma expand_plain (caps : list string) (matched pre post t : string) :
  every not_dollar t = true -> expand caps matched pre post t = t.
Proof.
  induction t as [|c t IH]; cbn [every expand]; [reflexivity|].
  unfold not_dollar at 1. intros H. apply andb_true_iff in H. destruct H as [Hc Ht].
  apply negb_true_iff in Hc. rewrite Hc. f_equal. now apply IH.
Qed.

Lemma expand_plain_prefix (caps : list string) (matched pre post a t : string) :
  every not_dollar a = true ->
  expand caps matched pre post (a ++ t) = a ++ expand caps matched pre post t.
Proof.
  induction a as [|c a IH]; cbn [every append]; [reflexivity|].
  unfold not_dollar at 1. intros H. apply andb_true_iff in H. destruct H as [Hc Ha].
  apply negb_true_iff in Hc. cbn [expand]. rewrite Hc. f_equal. now apply IH.
Qed.

(** ** The forward link of an earlier page *)

Lemma every_before_dash (p : ascii -> bool) (s : string) :
  every p s = true -> every p (before_dash s) = true.
Proof.
  induction s as [|c s IH]; cbn [every before_dash]; [auto|].
  rewrite andb_true_iff. intros [Hc Hs].
  destruct (c =? "-")%char; [reflexivity|]. cbn [every]. now rewrite Hc, IH.
Qed.

Lemma key_char_link_char (c : ascii) : key_char c = true -> link_char c = true.
Proof.
  unfold key_char, link_char, is_digit. intros H.
  destruct (c =? "$")%char eqn:E1; [apply Ascii.eqb_eq in E1; subst c; discriminate|].
  destruct (c =? ">")%char eqn:E2; [apply Ascii.eqb_eq in E2; subst c; discriminate|].
  reflexivity.
Qed.

Lemma generateRelativePath_chars (cur next : string) :
  every key_char next = true ->
  every link_char (generateRelativePath cur next) = true.
Proof.
  intros Hnext.
  assert (Hl : every link_char next = true)
    by (eapply every_impl; [apply key_char_link_char|assumption]).
  unfold generateRelativePath. destruct (before_dash cur =? before_dash next).
  - now rewrite every_app, Hl.
  - rewrite !every_app, Hl, (every_before_dash _ _ Hl). reflexivity.
Qed.

Lemma nextLink_plain (cur next : string) :
  every key_char next = true -> every not_dollar (nextLink cur next) = true.
Proof.
  intros Hnext. unfold nextLink. rewrite !every_app.
  assert (Hp : every not_dollar (generateRelativePath cur next) = true).
  { eapply every_impl; [|apply generateRelativePath_chars; eassumption].
    intros c. unfold link_char, not_dollar. now intros H%andb_true_iff. }
  assert (Hn : every not_dollar next = true).
  { eapply every_impl; [|eassumption]. intros c Hc.
    apply key_char_link_char in Hc. unfold link_char in Hc. unfold not_dollar.
    now apply andb_true_iff in Hc. }
  rewrite Hp, Hn. reflexivity.
Qed.

Lemma nextLink_shape (cur next post : string) :
  nextLink cur next ++ post
  = "<a" ++ ((" href=" ++ dq ++ generateRelativePath cur next ++ dq ++ " ")
     ++ (q "class=`" ++ ("" ++ ("next-month" ++ ("" ++ (dq ++ (""
     ++ (">" ++ ("&laquo; " ++ next ++ "</a>" ++ post))))))))).
Proof.
  unfold nextLink.
  change (q "<a href=`") with ("<a" ++ " href=" ++ dq).
  change (q "` class=`next-month`>&laquo; ")
    with (dq ++ " " ++ q "class=`" ++ "next-month" ++ dq ++ ">" ++ "&laquo; ").
  cbn [append]. rewrite !app_assoc_s. cbn [append]. reflexivity.
Qed.

(** The link written is one that [updateNextLink] recognises. *)
Lemma nextLink_matches (cur next post : string) :
  every key_char next = true ->
  match_here (icase nextLinkRegex) (atoms nextLinkRegex) (nextLink cur next ++ post)
  <> None.
Proof.
  intros Hnext. rewrite nextLink_shape. cbn [nextLinkRegex atoms icase].
  apply match_here_Lit. apply match_here_Rep.
  - rewrite !every_app.
    assert (Hp : every not_gt (generateRelativePath cur next) = true).
    { eapply every_impl; [|apply generateRelativePath_chars; eassumption].
      intros c. unfold link_char, not_gt. now intros H%andb_true_iff. }
    rewrite Hp. reflexivity.
  - cbn [append String.length]. lia.
  - apply match_here_Lit. apply match_here_Rep; [reflexivity|cbn; lia|].
    apply match_here_Lit. apply match_here_Rep; [reflexivity|cbn; lia|].
    apply match_here_Lit. apply match_here_Rep; [reflexivity|cbn; lia|].
    apply match_here_Lit. cbn [match_here]. discriminate.
Qed.

(** C8. For keys made of digits and dashes, as [getYearMonthKey] makes
    them: a page that has an active next-month link is returned as it is;
    otherwise the first disabled placeholder, when there is one, is
    replaced by the active link to the relative path of the next month;
    otherwise the page is returned as it is; and a second application
    changes nothing. *)
Theorem updateNextLink_idempotent (html nextYearMonth currentYearMonth : string) :
  every key_char nextYearMonth = true ->
  every key_char currentYearMonth = true ->
  let updated :=
    updateNextLink html nextYearMonth generateRelativePath currentYearMonth in
  (test nextLinkRegex html = true -> updated = html)
  /\ (test nextLinkRegex html = false ->
      test disabledNextPattern html = true ->
      exists pre post,
        html = pre ++ placeholder ++ post
        /\ (forall pre' post', html = pre' ++ placeholder ++ post' ->
                               String.length pre <= String.length pre')
        /\ updated = pre ++ nextLink currentYearMonth nextYearMonth ++ post)
  /\ (test nextLinkRegex html = false ->
      test disabledNextPattern html = false -> updated = html)
  /\ updateNextLink updated nextYearMonth generateRelativePath currentYearMonth
     = updated.
Proof.
  intros Hnext Hcur. cbn zeta.
  assert (Hactive : forall page,
            test nextLinkRegex page = true ->
            updateNextLink page nextYearMonth generateRelativePath currentYearMonth
            = page).
  { intros page H. unfold updateNextLink. now rewrite H. }
  assert (Hnone : forall page,
            test nextLinkRegex page = false ->
            test disabledNextPattern page = false ->
            updateNextLink page nextYearMonth generateRelativePath currentYearMonth
            = page).
  { intros page H1 H2. unfold updateNextLink. now rewrite H1, H2. }
  assert (Hreplace :
            test nextLinkRegex html = false ->
            test disabledNextPattern html = true ->
            exists pre post,
              html = pre ++ placeholder ++ post
              /\ (forall pre' post', html = pre' ++ placeholder ++ post' ->
                                     String.length pre <= String.length pre')
              /\ updateNextLink html nextYearMonth generateRelativePath
                                currentYearMonth
                 = pre ++ nextLink currentYearMonth nextYearMonth ++ post).
  { intros H1 H2. unfold updateNextLink. rewrite H1, H2.
    fold (nextLink currentYearMonth nextYearMonth).
    unfold replace_first. unfold test in H2.
    destruct (search disabledNextPattern html) as [[[pre ps] post]|] eqn:E;
      [|discriminate].
    pose proof (search_literal _ _ E) as [-> Hhtml]. fold placeholder in Hhtml, E.
    exists pre, post. split; [exact Hhtml|]. split.
    - intros pre' post' Hsplit.
      destruct (Nat.le_gt_cases (String.length pre) (String.length pre'))
        as [Hle|Hgt]; [exact Hle|].
      pose proof (@search_leftmost disabledNextPattern html pre [placeholder] post E
                    pre' (placeholder ++ post') Hsplit Hgt) as Hno.
      cbn [disabledNextPattern literal atoms icase match_here] in Hno.
      fold placeholder in Hno. rewrite strip_prefix in Hno. discriminate.
    - rewrite expand_plain by now apply nextLink_plain. reflexivity. }
  split; [apply Hactive|]. split; [exact Hreplace|]. split; [apply Hnone|].
  destruct (test nextLinkRegex html) eqn:E1.
  - rewrite (Hactive html E1). apply (Hactive html E1).
  - destruct (test disabledNextPattern html) eqn:E2.
    + destruct (Hreplace eq_refl eq_refl) as (pre & post & _ & _ & ->).
      apply Hactive. apply test_complete. now apply nextLink_matches.
    + rewrite (Hnone html E1 E2). apply (Hnone html E1 E2).
Qed.

Lemma updateNextLink_idempotent_witness :
  every key_char "2025-01" = true
  /\ every key_char "2024-12" = true
  /\ test nextLinkRegex decemberNav = false
  /\ test disabledNextPattern decemberNav = true
  /\ updateNextLink
       (updateNextLink decemberNav "2025-01" generateRelativePath "2024-12")
       "2025-01" generateRelativePath "2024-12"
     = updateNextLink decemberNav "2025-01" generateRelativePath "2024-12".
Proof.
  split; [reflexivity|]. split; [reflexivity|].
  split; [reflexivity|]. split; [reflexivity|].
  apply (updateNextLink_idempotent decemberNav "2025-01" "2024-12");
    reflexivity.
Defined.

Example updateNextLink_december :
  updateNextLink decemberNav "2025-01" generateRelativePath "2024-12"
  = q "<nav class=`monthly-nav`>
  <a href=`../2025/2025-01.html` class=`next-month`>&laquo; 2025-01</a>
  <span class=`current-month`>2024-12</span>
</nav>".
Proof. vm_compute. reflexivity. Qed.

(** ** Paths *)

Lemma segments_not_nil (path : string) : Path.segments path <> [].
Proof.
  destruct path as [|c path]; cbn [Path.segments]; [discriminate|].
  destruct (c =? "/")%char; [discriminate|].
  destruct (Path.segments path); discriminate.
Qed.

Lemma segments_app_slash (a b : string) :
  Path.segments (a ++ String "/" b) = (Path.segments a ++ Path.segments b)%list.
Proof.
  induction a as [|c a IH]; cbn [append Path.segments].
  - reflexivity.
  - rewrite IH. destruct (c =? "/")%char; [reflexivity|].
    pose proof (segments_not_nil a) as Hne.
    destruct (Path.segments a) as [|name names]; [congruence|reflexivity].
Qed.

Lemma segments_plain (name : string) :
  every not_slash name = true -> Path.segments name = [name].
Proof.
  induction name as [|c name IH]; cbn [every Path.segments]; [reflexivity|].
  intros H. apply andb_true_iff in H. destruct H as [Hc Hname].
  unfold not_slash in Hc. apply negb_true_iff in Hc. rewrite Hc.
  now rewrite (IH Hname).
Qed.

Lemma segments_no_slash (path : string) :
  Forall (fun name => every not_slash name = true) (Path.segments path).
Proof.
  induction path as [|c path IH]; cbn [Path.segments].
  - repeat constructor.
  - destruct (c =? "/")%char eqn:Ec; [constructor; [reflexivity|exact IH]|].
    destruct (Path.segments path) as [|name names]; [repeat constructor; cbn;
      unfold not_slash; now rewrite Ec|].
    apply Forall_cons_iff in IH. destruct IH as [Hname Hnames].
    constructor; [|exact Hnames]. cbn [every]. unfold not_slash at 1.
    now rewrite Ec, Hname.
Qed.

Lemma walk_app_slash (kept : list string) (a b : string) :
  walk kept (a ++ String "/" b) = walk (walk kept a) b.
Proof. unfold walk. now rewrite segments_app_slash, fold_left_app. Qed.

Lemma walk_slash (kept : list string) (a b : string) :
  walk kept (a ++ "/" ++ b) = walk (walk kept a) b.
Proof. exact (walk_app_slash kept a b). Qed.

Lemma walk_empty (kept : list string) : walk kept "" = kept.
Proof. reflexivity. Qed.

Lemma walk_plain (kept : list string) (name : string) :
  plain_name name = true -> walk kept name = name :: kept.
Proof.
  unfold plain_name. intros H.
  apply andb_true_iff in H. destruct H as [H Hdots].
  apply andb_true_iff in H. destruct H as [H Hdot].
  apply andb_true_iff in H. destruct H as [Hslash Hempty].
  unfold walk. rewrite (@segments_plain _ Hslash). cbn [fold_left].
  unfold Path.step.
  apply negb_true_iff in Hempty, Hdot, Hdots.
  now rewrite Hempty, Hdot, Hdots.
Qed.

Lemma step_plain (kept : list string) (name : string) :
  every not_slash name = true ->
  Forall (fun n => plain_name n = true) kept ->
  Forall (fun n => plain_name n = true) (Path.step kept name).
Proof.
  intros Hname Hkept. unfold Path.step.
  destruct (name =? "") eqn:E1; [exact Hkept|].
  destruct (name =? ".") eqn:E2; [exact Hkept|]. cbn [orb].
  destruct (name =? "..") eqn:E3.
  - destruct kept; [constructor|]. now apply Forall_cons_iff in Hkept.
  - constructor; [|exact Hkept]. unfold plain_name.
    now rewrite Hname, E1, E2, E3.
Qed.

Lemma walk_plain_names (path : string) :
  forall kept,
    Forall (fun n => plain_name n = true) kept ->
    Forall (fun n => plain_name n = true) (walk kept path).
Proof.
  unfold walk. pose proof (segments_no_slash path) as Hsegs.
  induction Hsegs as [|name names Hname _ IH]; intros kept Hkept; cbn [fold_left].
  - exact Hkept.
  - apply IH. now apply step_plain.
Qed.

Lemma normalize_plain (path : string) :
  Forall (fun n => plain_name n = true) (Path.normalize path).
Proof.
  unfold Path.normalize. apply Forall_rev.
  apply (@walk_plain_names path []). constructor.
Qed.

Lemma locate_plain (base : list string) (paths : list string) :
  Forall (fun n => plain_name n = true) (Path.locate base paths).
Proof.
  unfold Path.locate. destruct (Path.gather paths) as [resolvedAbsolute resolvedPath].
  apply normalize_plain.
Qed.

Lemma walk_join (names : list string) :
  forall kept,
    Forall (fun n => plain_name n = true) names ->
    walk kept (Js.join "/" names) = (rev names ++ kept)%list.
Proof.
  induction names as [|name names IH]; intros kept Hnames.
  - reflexivity.
  - apply Forall_cons_iff in Hnames. destruct Hnames as [Hname Hnames].
    destruct names as [|name' names].
    + cbn [Js.join rev app]. now apply walk_plain.
    + change (Js.join "/" (name :: name' :: names))
        with (name ++ String "/" (Js.join "/" (name' :: names))).
      rewrite walk_app_slash, (@walk_plain _ _ Hname), (IH _ Hnames).
      cbn [rev]. now rewrite <- !app_assoc.
Qed.

Lemma walk_root (names kept : list string) :
  Forall (fun n => plain_name n = true) names ->
  walk kept (Path.root names) = (rev names ++ kept)%list.
Proof.
  intros Hnames. unfold Path.root.
  change ("/" ++ Js.join "/" names) with ("" ++ String "/" (Js.join "/" names)).
  rewrite walk_app_slash, walk_empty. now apply walk_join.
Qed.

Lemma normalize_root (names : list string) :
  Forall (fun n => plain_name n = true) names ->
  Path.normalize (Path.root names) = names.
Proof.
  intros Hnames. unfold Path.normalize. fold (walk [] (Path.root names)).
  rewrite (@walk_root _ _ Hnames), app_nil_r. apply rev_involutive.
Qed.

Lemma root_absolute (names : list string) :
  Path.isAbsolute (Path.root names) = true.
Proof. reflexivity. Qed.

Lemma locate_root (base names : list string) :
  Forall (fun n => plain_name n = true) names ->
  Path.locate base [Path.root names] = names.
Proof.
  intros Hnames. unfold Path.locate. cbn [Path.gather].
  change (String.length (Path.root names) =? 0)%nat with false.
  cbv beta iota. rewrite root_absolute.
  unfold Path.normalize.
  fold (walk [] (Path.root names ++ "/" ++ "")).
  rewrite walk_slash, walk_empty, (@walk_root _ _ Hnames), app_nil_r.
  apply rev_involutive.
Qed.

(** A path that [path.resolve] gives resolves to itself. *)
Lemma resolve_resolved (base : list string) (paths : list string) :
  Path.resolve base [Path.resolve base paths] = Path.resolve base paths.
Proof.
  unfold Path.resolve at 1 3. f_equal. unfold Path.resolve.
  apply locate_root, locate_plain.
Qed.

Lemma resolve_root (base names : list string) :
  Forall (fun n => plain_name n = true) names ->
  Path.resolve base [Path.root names] = Path.root names.
Proof. intros H. unfold Path.resolve. now rewrite locate_root. Qed.

Lemma dirname_root (names : list string) :
  Forall (fun n => plain_name n = true) names ->
  Path.dirname (Path.root names) = Path.root (removelast names).
Proof. intros H. unfold Path.dirname. now rewrite normalize_root. Qed.

Lemma removelast_plain (names : list string) :
  Forall (fun n => plain_name n = true) names ->
  Forall (fun n => plain_name n = true) (removelast names).
Proof.
  induction names as [|name names IH]; cbn [removelast]; [auto|].
  intros H. apply Forall_cons_iff in H. destruct H as [Hname Hnames].
  destruct names; [constructor|]. constructor; [exact Hname|now apply IH].
Qed.

Lemma join_root (names : list string) (name : string) :
  Forall (fun n => plain_name n = true) names ->
  plain_name name = true ->
  Path.join (Path.root names) name = Path.root (names ++ [name]).
Proof.
  intros Hnames Hname. unfold Path.join. f_equal. unfold Path.normalize.
  fold (walk [] (Path.root names ++ "/" ++ name)).
  rewrite walk_slash, (@walk_root _ _ Hnames), app_nil_r, (@walk_plain _ _ Hname).
  cbn [rev]. now rewrite rev_involutive.
Qed.


(** Trailing slashes change nothing. *)






(** The names of the pages. *)

Lemma app_inv_head_s (a x y : string) : a ++ x = a ++ y -> x = y.
Proof.
  induction a as [|c a IH]; cbn [append]; [auto|].
  intros H. injection H as H. auto.
Qed.

Lemma app_inv_tail_s (s : string) :
  forall a b, a ++ s = b ++ s -> a = b.
Proof.
  induction a as [|c a IH]; intros b H.
  - destruct b as [|d b]; [reflexivity|]. exfalso.
    apply (f_equal String.length) in H. rewrite !length_app_s in H.
    cbn [String.length] in H. lia.
  - destruct b as [|d b].
    + exfalso. apply (f_equal String.length) in H. rewrite !length_app_s in H.
      cbn [String.length] in H. lia.
    + cbn [append] in H. injection H as -> H. f_equal. now apply IH.
Qed.

Lemma key_char_not_slash (c : ascii) : key_char c = true -> not_slash c = true.
Proof.
  unfold key_char, not_slash, is_digit. intros H.
  destruct (c =? "/")%char eqn:E; [|reflexivity].
  apply Ascii.eqb_eq in E. subst c. discriminate.
Qed.

Lemma key_name_plain (s : string) :
  every key_char s = true -> s <> "" -> plain_name s = true.
Proof.
  intros Hs Hne. unfold plain_name.
  rewrite (every_impl _ _ _ key_char_not_slash Hs).
  destruct s as [|c s]; [congruence|]. cbn [every] in Hs.
  apply andb_true_iff in Hs. destruct Hs as [Hc _].
  assert (Hdot : (c =? ".")%char = false).
  { destruct (c =? ".")%char eqn:E; [|reflexivity].
    apply Ascii.eqb_eq in E. subst c. discriminate. }
  cbn [String.eqb]. rewrite Hdot. reflexivity.
Qed.





Lemma last_snoc (A : Type) (l : list A) (x d : A) : last (l ++ [x]) d = x.
Proof. apply last_last. Qed.



(** ** The calls of the file system *)

Lemma writeFileSync_ok (path content : string) (disk disk' : Disk) :
  Fs.writeFileSync path content disk = inr disk' ->
  refused disk Writing (Path.resolve (cwd disk) [path]) = None
  /\ cwd disk' = cwd disk
  /\ files disk'
     = (fun p => if (p =? Path.resolve (cwd disk) [path]) then Some content
                 else files disk p)
  /\ dirs disk' = dirs disk
  /\ refused disk' = refused disk
  /\ trace disk' = Wrote (Path.resolve (cwd disk) [path]) :: trace disk.
Proof.
  unfold Fs.writeFileSync.
  destruct (refused disk Writing _); [discriminate|].
  destruct (Fs.isDirectory disk _); [discriminate|].
  destruct (Fs.isFile disk _); [discriminate|].
  destruct (negb _); [discriminate|].
  intros H. injection H as <-. cbn. auto 10.
Qed.

Lemma unlinkSync_ok (path : string) (disk disk' : Disk) :
  Fs.unlinkSync path disk = inr disk' ->
  refused disk Unlinking (Path.resolve (cwd disk) [path]) = None
  /\ cwd disk' = cwd disk
  /\ files disk'
     = (fun p => if (p =? Path.resolve (cwd disk) [path]) then None
                 else files disk p)
  /\ dirs disk' = dirs disk
  /\ refused disk' = refused disk
  /\ trace disk' = Unlinked (Path.resolve (cwd disk) [path]) :: trace disk.
Proof.
  unfold Fs.unlinkSync.
  destruct (refused disk Unlinking _); [discriminate|].
  destruct (files disk _).
  - intros H. injection H as <-. cbn. auto 10.
  - destruct (Fs.isDirectory disk _); discriminate.
Qed.

Lemma unlinkSync_failed (path : string) (disk : Disk) (error : FsError) :
  Fs.unlinkSync path disk = inl error ->
  files disk (Path.resolve (cwd disk) [path]) = None
  \/ refused disk Unlinking (Path.resolve (cwd disk) [path]) <> None.
Proof.
  unfold Fs.unlinkSync.
  destruct (refused disk Unlinking _); [right; discriminate|].
  destruct (files disk _); [discriminate|]. now left.
Qed.

Lemma mkdirSync_ok (path : string) (disk disk' : Disk) :
  Fs.mkdirSync path disk = inr disk' ->
  cwd disk' = cwd disk /\ files disk' = files disk
  /\ refused disk' = refused disk /\ trace disk' = trace disk
  /\ dirs_kept disk disk'.
Proof.
  unfold Fs.mkdirSync.
  destruct (refused disk MakingDir _); [discriminate|].
  destruct (find _ _) as [p|]; [destruct (p =? _); discriminate|].
  intros H. injection H as <-. cbn. repeat split; auto.
  intros p Hp. cbn. now rewrite Hp.
Qed.

Lemma dirs_kept_refl (disk : Disk) : dirs_kept disk disk.
Proof. intros p Hp. exact Hp. Qed.

Lemma dirs_kept_trans (a b c : Disk) :
  dirs_kept a b -> dirs_kept b c -> dirs_kept a c.
Proof. intros Hab Hbc p Hp. auto. Qed.

Lemma dirs_kept_eq (a b : Disk) : dirs b = dirs a -> dirs_kept a b.
Proof. intros H p Hp. now rewrite H. Qed.

Lemma caught_prefix (filename : string) (error : FsError) :
  String.prefix "FILESYSTEM" (caught filename error) = true.
Proof.
  unfold caught.
  destruct (_ || _); [reflexivity|].
  destruct (code error =? "ENOSPC"); [reflexivity|].
  destruct (code error =? "ENOTDIR"); [reflexivity|].
  destruct (String.prefix "FILESYSTEM" (message error)) eqn:E; [exact E|reflexivity].
Qed.

Lemma ensureDirectoryExists_outcome (dirPath : string) (disk : Disk) :
  cwd (snd (ensureDirectoryExists dirPath disk)) = cwd disk
  /\ files (snd (ensureDirectoryExists dirPath disk)) = files disk
  /\ refused (snd (ensureDirectoryExists dirPath disk)) = refused disk
  /\ trace (snd (ensureDirectoryExists dirPath disk)) = trace disk
  /\ dirs_kept disk (snd (ensureDirectoryExists dirPath disk))
  /\ (forall error, fst (ensureDirectoryExists dirPath disk) = inl error ->
        String.prefix "FILESYSTEM" error = true
        /\ snd (ensureDirectoryExists dirPath disk) = disk).
Proof.
  unfold ensureDirectoryExists.
  destruct (Fs.existsSync dirPath disk).
  { cbn [fst snd]. do 4 (split; [reflexivity|]).
    split; [apply dirs_kept_refl|discriminate]. }
  destruct (Fs.mkdirSync dirPath disk) as [error|disk'] eqn:E.
  - destruct (_ || _); cbn [fst snd]; do 4 (split; [reflexivity|]);
      (split; [apply dirs_kept_refl|]);
      intros e He; injection He as <-; split; reflexivity.
  - apply mkdirSync_ok in E. destruct E as (Hc & Hf & Hr & Ht & Hd).
    cbn [fst snd]. do 4 (split; [assumption|]). split; [assumption|discriminate].
Qed.

(** What a call of [writeFile] does: it writes the file at its path, or
    it throws an error of the file system and leaves every file as it
    was; on the way it may have made directories. *)
Lemma writeFile_outcome (f : OutputFile.t) (outputDir : string) (disk : Disk) :
  cwd (snd (writeFile f outputDir disk)) = cwd disk
  /\ refused (snd (writeFile f outputDir disk)) = refused disk
  /\ dirs_kept disk (snd (writeFile f outputDir disk))
  /\ match fst (writeFile f outputDir disk) with
     | inr path =>
         path = pathOf disk outputDir f
         /\ files (snd (writeFile f outputDir disk))
            = (fun p => if (p =? path) then Some (OutputFile.content f)
                        else files disk p)
         /\ trace (snd (writeFile f outputDir disk)) = Wrote path :: trace disk
     | inl error =>
         String.prefix "FILESYSTEM" error = true
         /\ files (snd (writeFile f outputDir disk)) = files disk
         /\ trace (snd (writeFile f outputDir disk)) = trace disk
     end.
Proof.
  unfold writeFile. fold (pathOf disk outputDir f).
  destruct (ensureDirectoryExists_outcome (Path.dirname (pathOf disk outputDir f)) disk)
    as (Hc & Hf & Hr & Ht & Hd & He).
  destruct (ensureDirectoryExists _ disk) as [[error|[]] disk1]; cbn [fst snd] in *.
  - repeat split; auto. apply caught_prefix.
  - destruct (Fs.writeFileSync _ _ disk1) as [error|disk2] eqn:E; cbn [fst snd].
    + repeat split; auto. apply caught_prefix.
    + apply writeFileSync_ok in E. rewrite Hc in E. unfold pathOf in E.
      rewrite resolve_resolved in E. fold (pathOf disk outputDir f) in E.
      destruct E as (_ & Ec & Ef & Ed & Er & Et).
      split; [congruence|]. split; [congruence|].
      split; [eapply dirs_kept_trans; [exact Hd|now apply dirs_kept_eq]|].
      split; [reflexivity|]. split; [now rewrite Ef, Hf|now rewrite Et, Ht].
Qed.

(** ** Batch writes and their rollback *)

Lemma pathOf_cwd (disk disk0 : Disk) (outputDir : string) :
  cwd disk = cwd disk0 -> pathOf disk outputDir = pathOf disk0 outputDir.
Proof. intros H. unfold pathOf. now rewrite H. Qed.

Lemma pathOf_resolved (disk : Disk) (outputDir : string) (f : OutputFile.t) :
  Path.resolve (cwd disk) [pathOf disk outputDir f] = pathOf disk outputDir f.
Proof. apply resolve_resolved. Qed.

Lemma after_batch_snoc (outputDir : string) (batch : list OutputFile.t)
    (f : OutputFile.t) (disk : Disk) (p : string) :
  after_batch outputDir (batch ++ [f]) disk p
  = if (p =? pathOf disk outputDir f) then Some (OutputFile.content f)
    else after_batch outputDir batch disk p.
Proof.
  unfold after_batch, batchContent. rewrite rev_app_distr. cbn [rev app find].
  rewrite (String.eqb_sym p). destruct (pathOf disk outputDir f =? p); reflexivity.
Qed.

Lemma wrote_all_snoc (disk : Disk) (outputDir : string)
    (batch : list OutputFile.t) (f : OutputFile.t) :
  wrote_all disk outputDir (batch ++ [f])
  = Wrote (pathOf disk outputDir f) :: wrote_all disk outputDir batch.
Proof. unfold wrote_all. now rewrite map_app, rev_app_distr. Qed.

Lemma batch_state_start (outputDir : string) (disk : Disk) :
  batch_state outputDir [] disk disk.
Proof.
  split; [reflexivity|]. split; [split; reflexivity|].
  split; [apply dirs_kept_refl|reflexivity].
Qed.

Lemma writeEach_outcome (outputDir : string) (todo : list OutputFile.t) :
  forall (done : list OutputFile.t) (disk0 disk : Disk),
    batch_state outputDir done disk0 disk ->
    match writeEach todo outputDir (map (pathOf disk0 outputDir) done) disk with
    | inr (writtenPaths, disk') =>
        writtenPaths = map (pathOf disk0 outputDir) (done ++ todo)
        /\ batch_state outputDir (done ++ todo) disk0 disk'
    | inl (error, writtenPaths, disk') =>
        exists before failed later mid,
          todo = (before ++ failed :: later)%list
          /\ batch_state outputDir (done ++ before) disk0 mid
          /\ fst (writeFile failed outputDir mid) = inl error
          /\ String.prefix "FILESYSTEM" error = true
          /\ writtenPaths = map (pathOf disk0 outputDir) (done ++ before)
          /\ batch_state outputDir (done ++ before) disk0 disk'
    end.
Proof.
  induction todo as [|f todo IH]; intros done disk0 disk Hstate.
  - cbn [writeEach]. rewrite app_nil_r. auto.
  - cbn [writeEach].
    destruct Hstate as (Hfiles & [Hcwd Hrefused] & Hdirs & Htrace).
    destruct (writeFile_outcome f outputDir disk) as (Hc & Hr & Hd & Hout).
    destruct (writeFile f outputDir disk) as [[error|path] disk1] eqn:Ewrite;
      cbn [fst snd] in Hc, Hr, Hd, Hout.
    + destruct Hout as (Hprefix & Hf & Ht).
      exists [], f, todo, disk. rewrite app_nil_r. cbn [app].
      split; [reflexivity|].
      assert (Hsame : batch_state outputDir done disk0 disk).
      { split; [exact Hfiles|]. split; [split; assumption|]. split; assumption. }
      split; [exact Hsame|]. split; [now rewrite Ewrite|].
      split; [exact Hprefix|]. split; [reflexivity|].
      split; [intros p; rewrite Hf; apply Hfiles|].
      split; [split; congruence|].
      split; [eapply dirs_kept_trans; eassumption|congruence].
    + destruct Hout as (Hpath & Hf & Ht).
      rewrite (@pathOf_cwd disk disk0 outputDir Hcwd) in Hpath. subst path.
      assert (Hstate1 : batch_state outputDir (done ++ [f]) disk0 disk1).
      { split.
        - intros p. rewrite Hf, after_batch_snoc.
          destruct (p =? pathOf disk0 outputDir f); [reflexivity|apply Hfiles].
        - split; [split; congruence|].
          split; [eapply dirs_kept_trans; eassumption|].
          rewrite Ht, Htrace, wrote_all_snoc. reflexivity. }
      specialize (IH (done ++ [f])%list disk0 disk1 Hstate1).
      rewrite map_app in IH. cbn [map] in IH.
      rewrite <- !app_assoc in IH. cbn [app] in IH.
      assert (Hassoc : forall l, ((done ++ [f]) ++ l = done ++ f :: l)%list).
      { intros l. now rewrite <- app_assoc. }
      destruct (writeEach todo outputDir _ disk1)
        as [[[error written] disk']|[written disk']].
      * destruct IH as (before & failed & later & mid & -> & Hmid & He & Hp & Hwr & Hst).
        rewrite Hassoc in Hmid, Hwr, Hst.
        exists (f :: before), failed, later, mid. cbn [app]. auto 10.
      * exact IH.
Qed.

Lemma cleanupFiles_outcome (filePaths : list string) :
  forall disk : Disk,
    Forall (fun p => Path.resolve (cwd disk) [p] = p) filePaths ->
    same_system disk (cleanupFiles filePaths disk)
    /\ dirs (cleanupFiles filePaths disk) = dirs disk
    /\ (forall p, files disk p = None -> files (cleanupFiles filePaths disk) p = None)
    /\ (forall p, In p filePaths -> refused disk Unlinking p = None ->
                  files (cleanupFiles filePaths disk) p = None)
    /\ (forall p, refused disk Unlinking p <> None ->
                  files (cleanupFiles filePaths disk) p = files disk p)
    /\ (forall p, ~ In p filePaths ->
                  files (cleanupFiles filePaths disk) p = files disk p).
Proof.
  induction filePaths as [|path rest IH]; intros disk Hpaths; cbn [cleanupFiles].
  - split; [split; reflexivity|]. split; [reflexivity|].
    split; [auto|]. split; [intros p []|]. split; auto.
  - apply Forall_cons_iff in Hpaths. destruct Hpaths as [Hpath Hrest].
    destruct (Fs.unlinkSync path disk) as [error|disk1] eqn:E.
    + apply unlinkSync_failed in E. rewrite Hpath in E.
      destruct (IH disk Hrest) as (Hsys & Hd & Hnone & Hdel & Hkeep & Hframe).
      split; [exact Hsys|]. split; [exact Hd|]. split; [exact Hnone|].
      split; [|split; [exact Hkeep|]].
      * intros p [<-|Hin] Hallowed; [|auto].
        destruct E as [E|E]; [auto|congruence].
      * intros p Hp. apply Hframe. intros Hin. apply Hp. now right.
    + apply unlinkSync_ok in E. rewrite Hpath in E.
      destruct E as (Eallowed & Ec & Ef & Ed & Er & _).
      assert (Hrest1 : Forall (fun p => Path.resolve (cwd disk1) [p] = p) rest)
        by now rewrite Ec.
      destruct (IH disk1 Hrest1) as ([Hc Hr] & Hd & Hnone & Hdel & Hkeep & Hframe).
      rewrite Er in *.
      assert (Hgone : files disk1 path = None).
      { rewrite Ef. now rewrite String.eqb_refl. }
      assert (Hother : forall p, p <> path -> files disk1 p = files disk p).
      { intros p Hp. rewrite Ef. apply String.eqb_neq in Hp. now rewrite Hp. }
      split; [split; congruence|]. split; [congruence|]. split; [|split; [|split]].
      * intros p Hp. apply Hnone. rewrite Ef. destruct (p =? path); auto.
      * intros p [<-|Hin] Hallowed; auto.
      * intros p Hdenied. rewrite Hkeep by assumption. apply Hother.
        intros ->. congruence.
      * intros p Hp. rewrite Hframe by (intros Hin; apply Hp; now right).
        apply Hother. intros ->. apply Hp. now left.
Qed.

Lemma batchContent_outside (disk : Disk) (outputDir : string)
    (batch : list OutputFile.t) (p : string) :
  ~ In p (map (pathOf disk outputDir) batch) ->
  batchContent disk outputDir batch p = None.
Proof.
  intros Hout. unfold batchContent.
  destruct (find _ (rev batch)) as [f|] eqn:E; [|reflexivity].
  apply find_some in E. destruct E as [Hin Heq].
  apply String.eqb_eq in Heq. exfalso. apply Hout. rewrite <- Heq.
  apply in_map. now apply in_rev.
Qed.

Lemma batchContent_inside (disk : Disk) (outputDir : string)
    (batch : list OutputFile.t) (p : string) :
  In p (map (pathOf disk outputDir) batch) ->
  exists f, In f batch /\ pathOf disk outputDir f = p
            /\ batchContent disk outputDir batch p = Some (OutputFile.content f).
Proof.
  intros Hin. unfold batchContent.
  destruct (find _ (rev batch)) as [f|] eqn:E.
  - apply find_some in E. destruct E as [Hf Heq]. apply String.eqb_eq in Heq.
    exists f. split; [now apply in_rev|]. split; [assumption|reflexivity].
  - apply in_map_iff in Hin. destruct Hin as (f & Hp & Hf).
    apply in_rev in Hf. apply (find_none _ _ E) in Hf.
    rewrite Hp, String.eqb_refl in Hf. discriminate.
Qed.

Lemma batch_paths_resolved (disk disk1 : Disk) (outputDir : string)
    (batch : list OutputFile.t) :
  cwd disk1 = cwd disk ->
  Forall (fun p => Path.resolve (cwd disk1) [p] = p)
         (map (pathOf disk outputDir) batch).
Proof.
  intros Hc. apply Forall_forall. intros p Hp. apply in_map_iff in Hp.
  destruct Hp as (f & <- & _). rewrite Hc. apply pathOf_resolved.
Qed.

(** What [writeFiles] does, with its rollback. *)
Lemma writeFiles_outcome (outputFiles : list OutputFile.t)
    (outputDir : string) (disk : Disk) :
  same_system disk (snd (writeFiles outputFiles outputDir disk))
  /\ dirs_kept disk (snd (writeFiles outputFiles outputDir disk))
  /\ match fst (writeFiles outputFiles outputDir disk) with
     | inr writtenPaths =>
         writtenPaths = map (pathOf disk outputDir) outputFiles
         /\ (forall p, files (snd (writeFiles outputFiles outputDir disk)) p
                       = after_batch outputDir outputFiles disk p)
         /\ trace (snd (writeFiles outputFiles outputDir disk))
            = (wrote_all disk outputDir outputFiles ++ trace disk)%list
     | inl error =>
         exists before failed later mid,
           outputFiles = (before ++ failed :: later)%list
           /\ batch_state outputDir before disk mid
           /\ fst (writeFile failed outputDir mid) = inl error
           /\ String.prefix "FILESYSTEM" error = true
           /\ (forall p, In p (map (pathOf disk outputDir) before) ->
                         refused disk Unlinking p = None ->
                         files (snd (writeFiles outputFiles outputDir disk)) p = None)
           /\ (forall p, In p (map (pathOf disk outputDir) before) ->
                         refused disk Unlinking p <> None ->
                         files (snd (writeFiles outputFiles outputDir disk)) p
                         = batchContent disk outputDir before p)
           /\ (forall p, ~ In p (map (pathOf disk outputDir) before) ->
                         files (snd (writeFiles outputFiles outputDir disk)) p
                         = files disk p)
     end.
Proof.
  unfold writeFiles.
  pose proof (@writeEach_outcome outputDir outputFiles [] disk disk
                (batch_state_start outputDir disk))
    as H.
  cbn [map app] in H.
  destruct (writeEach outputFiles outputDir [] disk)
    as [[[error written] disk1]|[written disk1]]; cbn [fst snd].
  - destruct H as (before & failed & later & mid & -> & Hmid & He & Hp & -> & Hst).
    destruct Hst as (Hf & [Hc Hr] & Hd & _).
    destruct (@cleanupFiles_outcome _ disk1
                (@batch_paths_resolved disk disk1 outputDir before Hc))
      as ([Hc' Hr'] & Hd' & _ & Hdel & Hkeep & Hframe).
    rewrite Hr in Hdel, Hkeep.
    split; [split; congruence|].
    split; [eapply dirs_kept_trans; [exact Hd|now apply dirs_kept_eq]|].
    exists before, failed, later, mid.
    split; [reflexivity|]. split; [exact Hmid|]. split; [exact He|].
    split; [exact Hp|]. split; [exact Hdel|]. split.
    + intros p Hin Hdenied. rewrite Hkeep by assumption. rewrite Hf.
      unfold after_batch.
      destruct (batchContent_inside disk outputDir before p Hin) as (f & _ & _ & ->).
      reflexivity.
    + intros p Hout. rewrite Hframe by assumption. rewrite Hf.
      unfold after_batch. now rewrite batchContent_outside.
  - destruct H as (-> & Hf & Hsys & Hd & Ht). auto 10.
Qed.



(** ** Re-running the pipeline *)

Lemma filterNewItems_all_known (T : Type) (newItems : list RSSItem)
    (lastDate : option T) (existingLinks : list string) :
  forallb (fun item => has existingLinks (link item)) newItems = true ->
  filterNewItems newItems lastDate existingLinks = [].
Proof.
  unfold filterNewItems. induction newItems as [|x l IH]; cbn [forallb filter].
  - reflexivity.
  - rewrite andb_true_iff. intros [Hx Hl]. rewrite Hx.
    destruct (pubDate x); now apply IH.
Qed.

Lemma processGroup_settled (host : Host) (feed : RSSFeed)
    (template : HTMLTemplate.t) (outputDir : string)
    (availableMonths : list string) (st : Loop)
    (group : string * list RSSItem) :
  page_settled outputDir (fsState st) group = true ->
  processGroup host feed template outputDir availableMonths st group = st.
Proof.
  unfold page_settled, processGroup. intros H.
  apply andb_true_iff in H. destruct H as [H Hknown].
  apply andb_true_iff in H. destruct H as [Hdir Hpage].
  destruct st as [engine files created total updated [error|] disk];
    cbn [thrown fsState FeedToHtml.engine outputFiles newlyCreatedPages
         totalNewItems updatedFiles] in *; [reflexivity|].
  rewrite Hdir, Hpage.
  destruct (Fs.readFileSync _ disk) as [error|html]; [discriminate|].
  now rewrite (@filterNewItems_all_known _ _ _ _ Hknown).
Qed.

Lemma loop_settled (host : Host) (feed : RSSFeed)
    (template : HTMLTemplate.t) (outputDir : string)
    (availableMonths : list string) (groups : Groups) :
  forall st,
    forallb (page_settled outputDir (fsState st)) groups = true ->
    fold_left (processGroup host feed template outputDir availableMonths)
              groups st = st.
Proof.
  induction groups as [|g groups IH]; intros st; cbn [forallb fold_left].
  - reflexivity.
  - rewrite andb_true_iff. intros [Hg Hrest].
    rewrite processGroup_settled by assumption. now apply IH.
Qed.

(** A run on a disk where every bucket of the feed has its page in place
    -- the directory of the year exists, the page is read and knows the
    link of every entry of the bucket -- writes nothing: each bucket is
    skipped, the disk (files, directories and trace) is the one before
    the run, and the run succeeds with an empty list of written files
    unless the feed or the template is refused. *)
Theorem convert_rerun_writes_nothing (host : Host)
    (outside : RSSParser.Outside) (engine : TemplateEngine.t)
    (request : Request) (feed : RSSFeed) (disk : Disk) :
  loadFeed outside request disk = inr feed ->
  settled feed (targetDir request disk) disk = true ->
  (forall group, In group (groupItemsByMonth (items feed)) ->
     exists html,
       Fs.readFileSync (generateFilePath (fst group) (targetDir request disk)) disk
       = inr html
       /\ filterNewItems (snd group) (extractMetaDate host html)
                         (extractExistingLinks html) = [])
  /\ snd (convert host outside engine request disk) = disk
  /\ (forall writtenPaths newItems updated,
        fst (fst (convert host outside engine request disk))
        = Success writtenPaths newItems updated ->
        writtenPaths = [] /\ newItems = 0 /\ updated = 0)
  /\ (forall template warnings,
        RSSParser.validateFeed feed = inr tt ->
        loadTemplate (templatePath request) disk = inr template ->
        validateTemplate template = inr warnings ->
        convert host outside engine request disk = (Success [] 0 0, engine, disk)).
Proof.
  unfold settled. intros Hfeed Hknown.
  assert (Hloop : forall template,
            convertFeed host engine feed template (targetDir request disk) disk
            = (Success [] 0 0, engine, disk)).
  { intros template. unfold convertFeed.
    destruct (groupItemsByMonth (items feed)) as [|g groups] eqn:E; [reflexivity|].
    rewrite loop_settled by assumption. reflexivity. }
  assert (Hrun : convert host outside engine request disk
                 = (match RSSParser.validateFeed feed with
                    | inl error => Failure error
                    | inr _ =>
                        match loadTemplate (templatePath request) disk with
                        | inl error => Failure error
                        | inr template =>
                            match validateTemplate template with
                            | inl error => Failure error
                            | inr _ => Success [] 0 0
                            end
                        end
                    end, engine, disk)).
  { unfold convert. rewrite Hfeed.
    destruct (RSSParser.validateFeed feed); [reflexivity|].
    destruct (loadTemplate (templatePath request) disk) as [error|template];
      [reflexivity|].
    destruct (validateTemplate template); [reflexivity|].
    apply Hloop. }
  split; [|split; [|split]].
  - intros group Hin. rewrite forallb_forall in Hknown.
    specialize (Hknown group Hin). unfold page_settled in Hknown.
    apply andb_true_iff in Hknown. destruct Hknown as [_ Hknown].
    destruct (Fs.readFileSync _ disk) as [error|html]; [discriminate|].
    exists html. split; [reflexivity|]. now apply filterNewItems_all_known.
  - now rewrite Hrun.
  - intros writtenPaths newItems updated. rewrite Hrun. cbn [fst].
    destruct (RSSParser.validateFeed feed); [discriminate|].
    destruct (loadTemplate (templatePath request) disk) as [error|template];
      [discriminate|].
    destruct (validateTemplate template); [discriminate|].
    intros H. injection H as <- <- <-. auto.
  - intros template warnings Hvalid Hload Htemplate.
    rewrite Hrun, Hvalid, Hload, Htemplate. reflexivity.
Qed.

Lemma convert_rerun_witness :
  settled (feedOf [entryA; entryB; entryN]) "/out" (snd firstRun) = true
  /\ fst (fst firstRun)
     = Success ["/out/2024/2024-12.html"; "/out/2024/2024-11.html"] 3 0
  /\ run [entryA; entryB; entryN] (snd firstRun)
     = (Success [] 0 0, TemplateEngine.new, snd firstRun).
Proof.
  split; [vm_compute; reflexivity|]. split; [vm_compute; reflexivity|].
  apply (@convert_rerun_writes_nothing sampleHost (feedAt [entryA; entryB; entryN])
           TemplateEngine.new request (feedOf [entryA; entryB; entryN])
           (snd firstRun))
    with (template := HTMLTemplate.createDefault) (warnings := []).
  - vm_compute. reflexivity.
  - vm_compute. reflexivity.
  - vm_compute. reflexivity.
  - vm_compute. reflexivity.
  - vm_compute. reflexivity.
Defined.

(** The premise is needed.  A link is written into the page as it is and
    read back up to the first quote character, so the page of an entry
    whose link holds an apostrophe does not know that link: a second run
    on the same feed takes the entry for a new one and rewrites the page. *)
Lemma convert_rerun_rewrites_quoted_link :
  fst (fst quotedRun) = Success ["/out/2024/2024-12.html"] 1 0
  /\ extractExistingLinks (pageOf (snd quotedRun) "/out/2024/2024-12.html")
     = ["http://example.com/it"]
  /\ nothing_new (feedOf [quoted]) "/out" (snd quotedRun) = false
  /\ fst (fst quotedRerun) = Success ["/out/2024/2024-12.html"] 1 1
  /\ In (Wrote "/out/2024/2024-12.html")
        (newEvents (snd quotedRun) (snd quotedRerun))
  /\ count_matches articleRegex
       (pageOf (snd quotedRerun) "/out/2024/2024-12.html") = 2%nat.
Proof.
  split; [vm_compute; reflexivity|].
  split; [vm_compute; reflexivity|].
  split; [vm_compute; reflexivity|].
  split; [vm_compute; reflexivity|].
  split; [vm_compute; now left|].
  vm_compute; reflexivity.
Qed.

(** C2, on the code.  A feed of two entries, one of them with a link that
    holds apostrophes, is converted twice in succession into an empty
    directory.  The first run writes the two pages.  The second run, with
    no entry new, skips the page of December and writes the page of
    November again: the link is in the page as the renderer wrote it, the
    reader of the page stops at the apostrophe and knows a shorter link,
    so the entry is taken for a new one and the page ends up with the
    entry twice. *)
Theorem convert_rerun_adds_entry_again :
  fst (fst lyricsRun)
  = Success ["/out/2024/2024-12.html"; "/out/2024/2024-11.html"] 2 0
  /\ includes (pageOf (snd lyricsRun) "/out/2024/2024-11.html")
              (q "<a href=`http://example.com/?q=rock'n'roll`>") = true
  /\ extractExistingLinks (pageOf (snd lyricsRun) "/out/2024/2024-11.html")
     = ["http://example.com/?q=rock"]
  /\ fst (fst lyricsRerun) = Success ["/out/2024/2024-11.html"] 1 1
  /\ newEvents (snd lyricsRun) (snd lyricsRerun)
     = [Wrote "/out/2024/2024-11.html";
        Unlinked "/out/.feedtohtml-write-test"; Wrote "/out/.feedtohtml-write-test"]
  /\ count_matches articleRegex
       (pageOf (snd lyricsRun) "/out/2024/2024-11.html") = 1%nat
  /\ count_matches articleRegex
       (pageOf (snd lyricsRerun) "/out/2024/2024-11.html") = 2%nat
  /\ pageOf (snd lyricsRerun) "/out/2024/2024-12.html"
     = pageOf (snd lyricsRun) "/out/2024/2024-12.html".
Proof.
  split; [vm_compute; reflexivity|].
  split; [vm_compute; reflexivity|].
  split; [vm_compute; reflexivity|].
  split; [vm_compute; reflexivity|].
  split; [vm_compute; reflexivity|].
  split; [vm_compute; reflexivity|].
  split; [vm_compute; reflexivity|].
  vm_compute; reflexivity.
Qed.

(** ** What a run writes *)

Lemma readFileSync_ok (path : string) (disk : Disk) (content : string) :
  Fs.readFileSync path disk = inr content ->
  files disk (Path.resolve (cwd disk) [path]) = Some content.
Proof.
  unfold Fs.readFileSync.
  destruct (refused disk Reading _); [discriminate|].
  destruct (files disk _); [congruence|].
  destruct (Fs.isDirectory disk _); discriminate.
Qed.

Lemma existsSync_false (path : string) (disk : Disk) :
  Fs.existsSync path disk = false ->
  files disk (Path.resolve (cwd disk) [path]) = None.
Proof.
  unfold Fs.existsSync, Fs.isFile. destruct (files disk _); [discriminate|reflexivity].
Qed.

Lemma grown_refl (disk : Disk) : grown disk disk.
Proof.
  split; [split; reflexivity|]. split; [reflexivity|].
  split; [reflexivity|apply dirs_kept_refl].
Qed.

Lemma grown_mkdir (disk0 disk disk' : Disk) (path : string) :
  grown disk0 disk -> Fs.mkdirSync path disk = inr disk' -> grown disk0 disk'.
Proof.
  intros ([Hc Hr] & Hf & Ht & Hd) H. apply mkdirSync_ok in H.
  destruct H as (Hc' & Hf' & Hr' & Ht' & Hd').
  split; [split; congruence|]. split; [congruence|]. split; [congruence|].
  eapply dirs_kept_trans; eassumption.
Qed.

Lemma render_outcome (host : Host) (feed : RSSFeed) (template : HTMLTemplate.t)
    (outputDir : string) (availableMonths : list string) (yearMonth : string)
    (itemsToRender : list RSSItem) (existing : option string) (st : Loop) :
  let st' := render host feed template outputDir availableMonths yearMonth
                    itemsToRender existing st in
  newlyCreatedPages st'
  = (newlyCreatedPages st
       ++ match existing with
          | Some _ => []
          | None =>
              let adjacent := findAdjacentMonths yearMonth availableMonths in
              if present (fst adjacent) then [(yearMonth, key_text (fst adjacent))]
              else []
          end)%list
  /\ fsState st' = fsState st
  /\ totalNewItems st' = totalNewItems st
  /\ updatedFiles st' = updatedFiles st
  /\ (thrown st' = None ->
      map OutputFile.filename (outputFiles st')
      = (map OutputFile.filename (outputFiles st) ++ [pageName yearMonth])%list).
Proof.
  cbn zeta. unfold render.
  set (generated := generateHTML _ _ _ _ _).
  set (finalHtml := match existing with Some _ => _ | None => _ end).
  unfold OutputFile.createMonthly, OutputFile.create. fold (pageName yearMonth).
  assert (Hcreated :
            (if negb (match existing with Some _ => true | None => false end)
                && present (fst (findAdjacentMonths yearMonth availableMonths))
             then (newlyCreatedPages st
                     ++ [(yearMonth,
                          key_text (fst (findAdjacentMonths yearMonth availableMonths)))])%list
             else newlyCreatedPages st)
            = (newlyCreatedPages st
                 ++ match existing with
                    | Some _ => []
                    | None =>
                        if present (fst (findAdjacentMonths yearMonth availableMonths))
                        then [(yearMonth,
                               key_text (fst (findAdjacentMonths yearMonth availableMonths)))]
                        else []
                    end)%list).
  { destruct existing; cbn [negb andb]; [now rewrite app_nil_r|].
    destruct (present _); [reflexivity|now rewrite app_nil_r]. }
  destruct (negb (truthy (pageName yearMonth)));
    [cbn; split; [exact Hcreated|]; do 3 (split; [reflexivity|]); discriminate|].
  destruct (String.length (trim (pageName yearMonth)) =? 0)%nat;
    [cbn; split; [exact Hcreated|]; do 3 (split; [reflexivity|]); discriminate|].
  destruct (negb (truthy finalHtml));
    [cbn; split; [exact Hcreated|]; do 3 (split; [reflexivity|]); discriminate|].
  destruct (String.length (trim finalHtml) =? 0)%nat;
    [cbn; split; [exact Hcreated|]; do 3 (split; [reflexivity|]); discriminate|].
  cbn. split; [exact Hcreated|]. do 3 (split; [reflexivity|]).
  intros _. now rewrite map_app.
Qed.

(** Whatever an iteration does, it leaves the files and the trace alone. *)
Lemma processGroup_grown (host : Host) (feed : RSSFeed)
    (template : HTMLTemplate.t) (outputDir : string)
    (availableMonths : list string) (disk0 : Disk) (st : Loop)
    (group : string * list RSSItem) :
  grown disk0 (fsState st) ->
  grown disk0 (fsState (processGroup host feed template outputDir
                                     availableMonths st group)).
Proof.
  intros Hgrown. unfold processGroup.
  destruct (thrown st); [exact Hgrown|].
  assert (Hdir : match (if Fs.existsSync (getYearDirPath (fst group) outputDir)
                             (fsState st)
                        then inr (fsState st)
                        else Fs.mkdirSync (getYearDirPath (fst group) outputDir)
                                          (fsState st))
                 with
                 | inl _ => True
                 | inr disk1 => grown disk0 disk1
                 end).
  { destruct (Fs.existsSync _ (fsState st)); [exact Hgrown|].
    destruct (Fs.mkdirSync _ (fsState st)) as [error|disk1] eqn:E; [exact I|].
    eapply grown_mkdir; eassumption. }
  destruct (if Fs.existsSync _ (fsState st) then _ else _) as [error|disk1];
    [exact Hgrown|].
  destruct (Fs.existsSync _ disk1).
  - destruct (Fs.readFileSync _ disk1) as [error|html]; [exact Hdir|].
    destruct (List.length _ =? 0)%nat; [exact Hdir|].
    match goal with
    | |- context [render ?h ?f ?t ?o ?a ?y ?i ?e ?s] =>
        destruct (render_outcome h f t o a y i e s) as (_ & -> & _)
    end.
    exact Hdir.
  - match goal with
    | |- context [render ?h ?f ?t ?o ?a ?y ?i ?e ?s] =>
        destruct (render_outcome h f t o a y i e s) as (_ & -> & _)
    end.
    exact Hdir.
Qed.

Lemma pagePath_cwd (disk0 disk : Disk) (outputDir k : string) :
  cwd disk = cwd disk0 -> pagePath disk outputDir k = pagePath disk0 outputDir k.
Proof. intros H. unfold pagePath. now rewrite H. Qed.

(** An iteration that does not throw, in terms of the disk at the start
    of the run. *)
Lemma processGroup_outcome (host : Host) (feed : RSSFeed)
    (template : HTMLTemplate.t) (outputDir : string)
    (availableMonths : list string) (disk0 : Disk) (st : Loop)
    (group : string * list RSSItem) :
  grown disk0 (fsState st) ->
  let st' := processGroup host feed template outputDir availableMonths
                          st group in
  thrown st' = None ->
  thrown st = None
  /\ newlyCreatedPages st'
     = (newlyCreatedPages st ++ createdBy outputDir disk0 availableMonths group)%list
  /\ map OutputFile.filename (outputFiles st')
     = (map OutputFile.filename (outputFiles st)
          ++ (if changed host outputDir disk0 group then [pageName (fst group)]
              else []))%list
  /\ totalNewItems st'
     = totalNewItems st + List.length (rendered host outputDir disk0 group)
  /\ updatedFiles st'
     = updatedFiles st
       + (if page_exists outputDir disk0 group && changed host outputDir disk0 group
          then 1 else 0).
Proof.
  intros Hgrown. cbn zeta.
  pose proof (@processGroup_grown host feed template outputDir availableMonths
                                  disk0 st group Hgrown) as Hafter.
  revert Hafter.
  unfold processGroup, changed, createdBy, rendered, page_exists, Fs.isFile.
  destruct (thrown st) eqn:Est; [intros _ H; rewrite Est in H; discriminate|].
  destruct (if Fs.existsSync _ (fsState st) then _ else _) as [error|disk1];
    [discriminate|].
  destruct (Fs.existsSync _ disk1) eqn:Eexists.
  - destruct (Fs.readFileSync _ disk1) as [error|html] eqn:Eread; [discriminate|].
    apply readFileSync_ok in Eread.
    destruct (List.length _ =? 0)%nat eqn:E.
    + cbn [fsState thrown newlyCreatedPages outputFiles totalNewItems updatedFiles].
      intros ([Hc _] & Hf & _) _.
      rewrite Hf, Hc in Eread. fold (pagePath disk0 outputDir (fst group)) in Eread.
      rewrite Eread, E. apply Nat.eqb_eq in E. rewrite E.
      cbn [negb andb List.length]. rewrite !app_nil_r, !Nat.add_0_r. auto.
    + match goal with
      | |- context [render ?h ?f ?t ?o ?a ?y ?i ?e ?s] =>
          destruct (render_outcome h f t o a y i e s) as (Hc & Hd & Hn & Hu & Ho)
      end.
      cbn zeta in Hc, Hd, Hn, Hu, Ho. rewrite Hd.
      cbn [fsState] in *. intros ([Hcwd _] & Hf & _) Hthrown.
      rewrite Hf, Hcwd in Eread. fold (pagePath disk0 outputDir (fst group)) in Eread.
      rewrite Eread, E, Hc, (Ho Hthrown), Hn, Hu.
      cbn [newlyCreatedPages outputFiles totalNewItems updatedFiles negb andb].
      auto.
  - apply existsSync_false in Eexists.
    match goal with
    | |- context [render ?h ?f ?t ?o ?a ?y ?i ?e ?s] =>
        destruct (render_outcome h f t o a y i e s) as (Hc & Hd & Hn & Hu & Ho)
    end.
    cbn zeta in Hc, Hd, Hn, Hu, Ho. rewrite Hd.
    cbn [fsState] in *. intros ([Hcwd _] & Hf & _) Hthrown.
    rewrite Hf, Hcwd in Eexists. fold (pagePath disk0 outputDir (fst group)) in Eexists.
    rewrite Eexists, Hc, (Ho Hthrown), Hn, Hu.
    cbn [newlyCreatedPages outputFiles totalNewItems updatedFiles andb].
    rewrite Nat.add_0_r. auto.
Qed.

Lemma processGroup_thrown (host : Host) (feed : RSSFeed)
    (template : HTMLTemplate.t) (outputDir : string)
    (availableMonths : list string) (groups : Groups) :
  forall st error,
    thrown st = Some error ->
    fold_left (processGroup host feed template outputDir availableMonths)
              groups st = st.
Proof.
  induction groups as [|g groups IH]; intros st error H; cbn [fold_left].
  - reflexivity.
  - assert (Hstep : processGroup host feed template outputDir
                                 availableMonths st g = st).
    { unfold processGroup. now rewrite H. }
    rewrite Hstep. eapply IH; eassumption.
Qed.

Lemma loop_grown (host : Host) (feed : RSSFeed)
    (template : HTMLTemplate.t) (outputDir : string)
    (availableMonths : list string) (disk0 : Disk) (groups : Groups) :
  forall st,
    grown disk0 (fsState st) ->
    grown disk0 (fsState (fold_left
                            (processGroup host feed template outputDir
                                          availableMonths) groups st)).
Proof.
  induction groups as [|g groups IH]; intros st Hst; cbn [fold_left]; [exact Hst|].
  apply IH. now apply processGroup_grown.
Qed.

Lemma loop_outcome (host : Host) (feed : RSSFeed)
    (template : HTMLTemplate.t) (outputDir : string)
    (availableMonths : list string) (disk0 : Disk) (groups : Groups) :
  forall st,
    grown disk0 (fsState st) ->
    let st' := fold_left
                 (processGroup host feed template outputDir availableMonths)
                 groups st in
    thrown st' = None ->
    newlyCreatedPages st'
    = (newlyCreatedPages st
         ++ flat_map (createdBy outputDir disk0 availableMonths) groups)%list
    /\ map OutputFile.filename (outputFiles st')
       = (map OutputFile.filename (outputFiles st)
            ++ map (fun g => pageName (fst g))
                   (filter (changed host outputDir disk0) groups))%list
    /\ totalNewItems st'
       = totalNewItems st
         + list_sum (map (fun g => List.length (rendered host outputDir disk0 g))
                         groups)
    /\ updatedFiles st'
       = updatedFiles st
         + List.length
             (filter (fun g => page_exists outputDir disk0 g
                               && changed host outputDir disk0 g) groups).
Proof.
  induction groups as [|g groups IH]; intros st Hst; cbn zeta; cbn [fold_left].
  - intros _. cbn [flat_map filter map list_sum fold_right List.length].
    rewrite !app_nil_r, !Nat.add_0_r. auto.
  - intros H.
    set (st1 := processGroup host feed template outputDir availableMonths st g) in *.
    assert (H1 : thrown st1 = None).
    { destruct (thrown st1) as [error|] eqn:E; [|reflexivity].
      rewrite (@processGroup_thrown host feed template outputDir availableMonths
                 groups st1 error E) in H. congruence. }
    destruct (@processGroup_outcome host feed template outputDir
                availableMonths disk0 st g Hst H1) as (_ & Hc & Ho & Hn & Hu).
    fold st1 in Hc, Ho, Hn, Hu.
    assert (Hst1 : grown disk0 (fsState st1)) by now apply processGroup_grown.
    destruct (IH st1 Hst1 H) as (Hc' & Ho' & Hn' & Hu'). cbn zeta in Hc', Ho', Hn', Hu'.
    rewrite Hc', Ho', Hn', Hu', Hc, Ho, Hn, Hu. cbn [flat_map filter map].
    rewrite <- !app_assoc. split; [reflexivity|]. split.
    + destruct (changed host outputDir disk0 g); reflexivity.
    + split; [cbn [list_sum fold_right]; unfold list_sum; lia|].
      destruct (page_exists outputDir disk0 g && changed host outputDir disk0 g);
        cbn [List.length]; lia.
Qed.

Lemma patchNavigation_outcome (outputDir : string) (pages : list (string * string)) :
  forall disk,
    same_system disk (snd (patchNavigation pages outputDir disk))
    /\ dirs (snd (patchNavigation pages outputDir disk)) = dirs disk
    /\ exists patches,
         trace (snd (patchNavigation pages outputDir disk))
         = (patches ++ trace disk)%list
         /\ (forall e, In e patches ->
               exists page, In page pages
                            /\ e = Wrote (pagePath disk outputDir (snd page))).
Proof.
  induction pages as [|[yearMonth prevMonth] pages IH]; intros disk;
    cbn [patchNavigation].
  - split; [split; reflexivity|]. split; [reflexivity|].
    exists []. split; [reflexivity|contradiction].
  - assert (Hskip : same_system disk (snd (patchNavigation pages outputDir disk))
               /\ dirs (snd (patchNavigation pages outputDir disk)) = dirs disk
               /\ exists patches,
                    trace (snd (patchNavigation pages outputDir disk))
                    = (patches ++ trace disk)%list
                    /\ (forall e, In e patches ->
                          exists page, In page ((yearMonth, prevMonth) :: pages)
                                       /\ e = Wrote (pagePath disk outputDir (snd page)))).
    { destruct (IH disk) as (Hs & Hd & patches & Ht & Hp).
      split; [exact Hs|]. split; [exact Hd|]. exists patches.
      split; [exact Ht|]. intros e He. destruct (Hp e He) as (page & Hin & ->).
      exists page. split; [now right|reflexivity]. }
    assert (Hstop : same_system disk disk /\ dirs disk = dirs disk
               /\ exists patches,
                    trace disk = (patches ++ trace disk)%list
                    /\ (forall e, In e patches ->
                          exists page, In page ((yearMonth, prevMonth) :: pages)
                                       /\ e = Wrote (pagePath disk outputDir (snd page)))).
    { split; [split; reflexivity|]. split; [reflexivity|].
      exists []. split; [reflexivity|contradiction]. }
    destruct (Fs.existsSync _ disk); [|exact Hskip].
    destruct (Fs.readFileSync _ disk) as [error|prevHtml]; [exact Hstop|].
    destruct (_ =? prevHtml); [exact Hskip|].
    destruct (Fs.writeFileSync _ _ disk) as [error|disk1] eqn:E; [exact Hstop|].
    apply writeFileSync_ok in E. fold (pagePath disk outputDir prevMonth) in E.
    destruct E as (_ & Ec & _ & Ed & Er & Et).
    destruct (IH disk1) as ([Hc Hr] & Hd & patches & Ht & Hp).
    split; [split; congruence|]. split; [congruence|].
    exists (patches ++ [Wrote (pagePath disk outputDir prevMonth)])%list.
    split.
    + rewrite Ht, Et, <- app_assoc. reflexivity.
    + intros e He. apply in_app_or in He. destruct He as [He|[<-|[]]].
      * destruct (Hp e He) as (page & Hin & ->).
        exists page. split; [now right|].
        now rewrite (@pagePath_cwd disk disk1 outputDir (snd page) Ec).
      * exists (yearMonth, prevMonth). split; [now left|reflexivity].
Qed.

Lemma probe_name_plain : plain_name ".feedtohtml-write-test" = true.
Proof. reflexivity. Qed.

Lemma probeFile_resolved (disk : Disk) (outputDir : string) :
  Path.resolve (cwd disk) [probeFile disk outputDir] = probeFile disk outputDir.
Proof.
  unfold probeFile. unfold Path.resolve at 2 3.
  rewrite (@join_root _ _ (locate_plain _ _) probe_name_plain).
  apply resolve_root. apply Forall_app. split; [apply locate_plain|].
  constructor; [reflexivity|constructor].
Qed.

(** The directory check: it throws an error of the file system and
    leaves the disk as it is, or it writes the probe file and removes
    it, if it can. *)
Lemma validateOutputDirectory_outcome (outputDir : string) (disk : Disk) :
  same_system disk (snd (validateOutputDirectory outputDir disk))
  /\ dirs (snd (validateOutputDirectory outputDir disk)) = dirs disk
  /\ (forall p, p <> probeFile disk outputDir ->
                files (snd (validateOutputDirectory outputDir disk)) p = files disk p)
  /\ (exists probe,
        trace (snd (validateOutputDirectory outputDir disk))
        = (probe ++ trace disk)%list
        /\ (forall e, In e probe ->
              e = Wrote (probeFile disk outputDir)
              \/ e = Unlinked (probeFile disk outputDir)))
  /\ (forall error, fst (validateOutputDirectory outputDir disk) = inl error ->
        String.prefix "FILESYSTEM" error = true
        /\ snd (validateOutputDirectory outputDir disk) = disk).
Proof.
  unfold validateOutputDirectory. fold (probeFile disk outputDir).
  assert (Hwrap : forall error,
            String.prefix "FILESYSTEM"
              (if String.prefix "FILESYSTEM" error then error
               else "FILESYSTEM Invalid output directory: " ++ error) = true).
  { intros error. destruct (String.prefix "FILESYSTEM" error) eqn:E;
      [exact E|reflexivity]. }
  assert (Hstop : forall error,
            same_system disk disk /\ dirs disk = dirs disk
            /\ (forall p, p <> probeFile disk outputDir -> files disk p = files disk p)
            /\ (exists probe,
                  trace disk = (probe ++ trace disk)%list
                  /\ (forall e, In e probe ->
                        e = Wrote (probeFile disk outputDir)
                        \/ e = Unlinked (probeFile disk outputDir)))
            /\ (forall e,
                  @inl string unit
                       (if String.prefix "FILESYSTEM" error then error
                        else "FILESYSTEM Invalid output directory: " ++ error)
                  = inl e ->
                  String.prefix "FILESYSTEM" e = true /\ disk = disk)).
  { intros error. split; [split; reflexivity|]. split; [reflexivity|].
    split; [reflexivity|]. split; [exists []; split; [reflexivity|contradiction]|].
    intros e He. injection He as <-. split; [apply Hwrap|reflexivity]. }
  destruct (negb _ && negb _); cbn [fst snd]; [apply Hstop|].
  destruct (Fs.writeFileSync _ _ disk) as [writeError|diskW] eqn:Ew.
  { destruct (_ || _); cbn [fst snd]; apply Hstop. }
  apply writeFileSync_ok in Ew. rewrite probeFile_resolved in Ew.
  destruct Ew as (_ & Hc & Hf & Hd & Hr & Ht).
  destruct (Fs.unlinkSync _ diskW) as [error|diskU] eqn:Eu; cbn [fst snd].
  - split; [split; assumption|]. split; [assumption|]. split.
    + intros p Hp. apply String.eqb_neq in Hp. now rewrite Hf, Hp.
    + split; [|discriminate].
      exists [Wrote (probeFile disk outputDir)]. split; [now rewrite Ht|].
      intros e [<-|[]]. now left.
  - apply unlinkSync_ok in Eu. rewrite Hc, probeFile_resolved in Eu.
    destruct Eu as (_ & Hc' & Hf' & Hd' & Hr' & Ht').
    split; [split; congruence|]. split; [congruence|]. split.
    + intros p Hp. apply String.eqb_neq in Hp. now rewrite Hf', Hp, Hf, Hp.
    + split; [|discriminate].
      exists [Unlinked (probeFile disk outputDir); Wrote (probeFile disk outputDir)].
      split; [now rewrite Ht', Ht|]. intros e [<-|[<-|[]]]; auto.
Qed.

(** Distinct keys have distinct pages. *)

Lemma split_at_slash (a : string) :
  forall b x y,
    every not_slash a = true -> every not_slash b = true ->
    a ++ String "/" x = b ++ String "/" y -> a = b /\ x = y.
Proof.
  induction a as [|c a IH]; intros b x y Ha Hb H.
  - destruct b as [|d b]; cbn [append] in H.
    + injection H as ->. auto.
    + injection H as <- _. discriminate.
  - destruct b as [|d b]; cbn [append] in H.
    + injection H as -> _. discriminate.
    + injection H as -> H. cbn [every] in Ha, Hb.
      apply andb_true_iff in Ha, Hb. destruct Ha as [_ Ha], Hb as [_ Hb].
      destruct (IH _ _ _ Ha Hb H) as [-> ->]. auto.
Qed.

Lemma generateFilePath_inj (k1 k2 outputDir : string) :
  every key_char k1 = true -> every key_char k2 = true ->
  generateFilePath k1 outputDir = generateFilePath k2 outputDir -> k1 = k2.
Proof.
  intros H1 H2 H. unfold generateFilePath in H.
  apply app_inv_head_s in H. cbn [append] in H. injection H as H.
  apply split_at_slash in H.
  - destruct H as [_ H]. now apply app_inv_tail_s in H.
  - apply every_before_dash. eapply every_impl; [apply key_char_not_slash|assumption].
  - apply every_before_dash. eapply every_impl; [apply key_char_not_slash|assumption].
Qed.

Lemma group_key_chars (items : list RSSItem) (k : string) (g : list RSSItem) :
  In (k, g) (groupItemsByMonth items) -> every key_char k = true.
Proof.
  intros Hin. destruct (groupItemsByMonth_outcome items) as (_ & _ & Hg & _).
  cbn zeta in Hg. destruct (Hg k g Hin) as [Heq Hne].
  destruct g as [|x g]; [congruence|].
  assert (Hx : In x (sort byDateDescending (filter (in_month k) items)))
    by (rewrite <- Heq; now left).
  apply sort_In, filter_In in Hx. destruct Hx as [_ Hx].
  unfold in_month in Hx. destruct (pubDate x) as [date|]; [|discriminate].
  apply String.eqb_eq in Hx. subst k. apply getYearMonthKey_chars.
Qed.





Lemma probeFile_cwd (disk0 disk : Disk) (outputDir : string) :
  cwd disk = cwd disk0 -> probeFile disk outputDir = probeFile disk0 outputDir.
Proof. intros H. unfold probeFile. now rewrite H. Qed.

(** The loop of [convert] and what follows it. *)
Lemma convertFeed_loop (host : Host) (engine0 : TemplateEngine.t)
    (feed : RSSFeed) (template : HTMLTemplate.t) (outputDir : string)
    (disk : Disk) :
  let groups := groupItemsByMonth (items feed) in
  let st :=
    fold_left (processGroup host feed template outputDir (map fst groups))
              groups (mkLoop engine0 [] [] 0 0 None disk) in
  convertFeed host engine0 feed template outputDir disk
  = match thrown st with
    | Some error => (Failure error, FeedToHtml.engine st, fsState st)
    | None =>
        match outputFiles st with
        | [] => (Success [] 0 0, FeedToHtml.engine st, fsState st)
        | _ =>
            match validateOutputDirectory outputDir (fsState st) with
            | (inl error, disk1) => (Failure error, FeedToHtml.engine st, disk1)
            | (inr _, disk1) =>
                match writeFiles (outputFiles st) outputDir disk1 with
                | (inl error, disk2) => (Failure error, FeedToHtml.engine st, disk2)
                | (inr writtenPaths, disk2) =>
                    match patchNavigation (newlyCreatedPages st) outputDir disk2 with
                    | (inl error, disk3) =>
                        (Failure error, FeedToHtml.engine st, disk3)
                    | (inr _, disk3) =>
                        (Success writtenPaths (totalNewItems st) (updatedFiles st),
                         FeedToHtml.engine st, disk3)
                    end
                end
            end
        end
    end.
Proof.
  cbn zeta. unfold convertFeed.
  destruct (groupItemsByMonth (items feed)); reflexivity.
Qed.

(** A run that succeeds has loaded a feed and a template, and its result
    is the result of the loop and of what follows it. *)
Lemma convert_success (host : Host) (outside : RSSParser.Outside)
    (engine engine' : TemplateEngine.t) (request : Request) (feed : RSSFeed)
    (disk disk' : Disk) (writtenPaths : list string) (newItems updated : nat) :
  loadFeed outside request disk = inr feed ->
  convert host outside engine request disk
  = (Success writtenPaths newItems updated, engine', disk') ->
  exists template,
    loadTemplate (templatePath request) disk = inr template
    /\ convertFeed host engine feed template (targetDir request disk) disk
       = (Success writtenPaths newItems updated, engine', disk').
Proof.
  intros Hfeed. unfold convert. rewrite Hfeed.
  destruct (RSSParser.validateFeed feed); [discriminate|].
  destruct (loadTemplate (templatePath request) disk) as [error|template];
    [discriminate|].
  destruct (validateTemplate template); [discriminate|].
  intros H. exists template. split; [reflexivity|exact H].
Qed.

Lemma written_paths (disk : Disk) (outputDir : string)
    (outputFiles : list OutputFile.t) (names : list string) :
  map OutputFile.filename outputFiles = names ->
  map (pathOf disk outputDir) outputFiles
  = map (fun name => Path.resolve (cwd disk) [outputDir; name]) names.
Proof.
  intros <-. rewrite map_map. reflexivity.
Qed.

Lemma convertFeed_writes (host : Host) (engine engine' : TemplateEngine.t)
    (feed : RSSFeed) (template : HTMLTemplate.t) (outputDir : string)
    (disk disk' : Disk) (writtenPaths : list string) (newItems updated : nat) :
  convertFeed host engine feed template outputDir disk
  = (Success writtenPaths newItems updated, engine', disk') ->
  let groups := groupItemsByMonth (items feed) in
  writtenPaths
  = map (fun g => writtenPath disk outputDir (fst g))
        (filter (changed host outputDir disk) groups)
  /\ newItems
     = list_sum (map (fun g => List.length (rendered host outputDir disk g)) groups)
  /\ updated
     = List.length (filter (fun g => page_exists outputDir disk g
                                     && changed host outputDir disk g) groups)
  /\ exists patches probe,
       trace disk'
       = (patches ++ rev (map Wrote writtenPaths) ++ probe ++ trace disk)%list
       /\ (forall e, In e probe ->
             e = Wrote (probeFile disk outputDir)
             \/ e = Unlinked (probeFile disk outputDir))
       /\ (forall e, In e patches ->
             exists yearMonth prevMonth,
               In yearMonth (keys groups)
               /\ files disk (pagePath disk outputDir yearMonth) = None
               /\ fst (findAdjacentMonths yearMonth (keys groups)) = Some prevMonth
               /\ e = Wrote (pagePath disk outputDir prevMonth)).
Proof.
  cbn zeta. rewrite convertFeed_loop. cbn zeta.
  set (groups := groupItemsByMonth (items feed)) in *.
  set (st := fold_left _ groups _).
  destruct (thrown st) eqn:Ethrown; [discriminate|].
  assert (Hstart : grown disk (fsState (mkLoop engine [] [] 0 0 None disk)))
    by apply grown_refl.
  destruct (@loop_outcome host feed template outputDir (map fst groups) disk
              groups (mkLoop engine [] [] 0 0 None disk) Hstart Ethrown)
    as (Hcreated & Hnames & Hcount & Hupdated).
  pose proof (@loop_grown host feed template outputDir (map fst groups) disk
                groups (mkLoop engine [] [] 0 0 None disk) Hstart) as Hgrown.
  fold st in Hcreated, Hnames, Hcount, Hupdated, Hgrown.
  cbn [newlyCreatedPages outputFiles totalNewItems updatedFiles map app]
    in Hcreated, Hnames, Hcount, Hupdated.
  destruct Hgrown as ([Hc0 Hr0] & Hf0 & Ht0 & Hd0).
  assert (Hpaths : map (pathOf disk outputDir) (outputFiles st)
                   = map (fun g => writtenPath disk outputDir (fst g))
                         (filter (changed host outputDir disk) groups)).
  { rewrite (written_paths disk outputDir _ Hnames), map_map. reflexivity. }
  destruct (outputFiles st) as [|f0 fs0] eqn:Eout.
  { intros H. injection H as <- <- <- _ <-.
    cbn [map] in Hpaths. rewrite <- Hpaths.
    cbn [map] in Hnames. symmetry in Hnames. apply map_eq_nil in Hnames.
    split; [reflexivity|].
    assert (Hzero : list_sum (map (fun g => List.length (rendered host outputDir disk g))
                                  groups) = 0
                    /\ List.length
                         (filter (fun g => page_exists outputDir disk g
                                           && changed host outputDir disk g) groups) = 0).
    { clear - Hnames. induction groups as [|g groups IH]; [auto|].
      cbn [filter] in Hnames. cbn [map list_sum fold_right filter].
      destruct (changed host outputDir disk g) eqn:Ec; [discriminate|].
      destruct (IH Hnames) as [Hn Hu]. rewrite andb_false_r.
      unfold changed in Ec. unfold rendered.
      destruct (files disk _); [|discriminate].
      apply negb_false_iff, Nat.eqb_eq in Ec. rewrite Ec.
      unfold list_sum in Hn. auto. }
    destruct Hzero as [Hn Hu]. split; [now rewrite Hn|]. split; [now rewrite Hu|].
    exists [], []. cbn [app rev map]. rewrite Ht0.
    split; [reflexivity|]. split; contradiction. }
  rewrite <- Eout in *. clear f0 fs0 Eout.
  destruct (validateOutputDirectory_outcome outputDir (fsState st))
    as ([Hc1 Hr1] & _ & _ & (probe & Ht1 & Hprobe) & _).
  rewrite (@probeFile_cwd disk (fsState st) outputDir Hc0) in Hprobe.
  destruct (validateOutputDirectory outputDir (fsState st)) as [[error|[]] disk1];
    [discriminate|].
  cbn [snd] in Hc1, Hr1, Ht1.
  destruct (writeFiles_outcome (outputFiles st) outputDir disk1)
    as ([Hc2 Hr2] & _ & Hbatch).
  destruct (writeFiles (outputFiles st) outputDir disk1) as [[error|written] disk2];
    [discriminate|].
  cbn [fst snd] in Hc2, Hr2, Hbatch. destruct Hbatch as (Hwritten & _ & Ht2).
  assert (Hcwd1 : cwd disk1 = cwd disk) by congruence.
  rewrite (@pathOf_cwd disk1 disk outputDir Hcwd1) in Hwritten.
  destruct (patchNavigation_outcome outputDir (newlyCreatedPages st) disk2)
    as (_ & _ & patches & Ht3 & Hpatches).
  destruct (patchNavigation (newlyCreatedPages st) outputDir disk2)
    as [[error|[]] disk3]; [discriminate|].
  cbn [snd] in Ht3.
  intros H. injection H as <- <- <- _ <-.
  rewrite Hwritten, Hpaths. split; [reflexivity|].
  split; [exact Hcount|]. split; [exact Hupdated|].
  exists patches, probe. split; [|split; [exact Hprobe|]].
  - rewrite Ht3, Ht2, Ht1, Ht0. unfold wrote_all.
    rewrite (@pathOf_cwd disk1 disk outputDir Hcwd1), <- Hpaths.
    rewrite map_map. reflexivity.
  - intros e He. destruct (Hpatches e He) as ([yearMonth prevMonth] & Hin & ->).
    assert (Hcwd2 : cwd disk2 = cwd disk) by congruence.
    rewrite (@pagePath_cwd disk disk2 outputDir _ Hcwd2).
    rewrite Hcreated in Hin. apply in_flat_map in Hin.
    destruct Hin as ([k g] & Hg & Hin). unfold createdBy in Hin. cbn [fst] in Hin.
    destruct (files disk (pagePath disk outputDir k)) eqn:Efile; [contradiction|].
    destruct (present (fst (findAdjacentMonths k (map fst groups)))) eqn:Epresent;
      [|contradiction].
    destruct Hin as [Hin|[]]. injection Hin as <- <-.
    exists k, (key_text (fst (findAdjacentMonths k (map fst groups)))).
    split; [apply (in_map fst) in Hg; exact Hg|]. split; [exact Efile|].
    split; [|reflexivity]. unfold keys.
    destruct (fst (findAdjacentMonths k (map fst groups))); [reflexivity|discriminate].
Qed.




(** The output directory may be relative: the pages go under the working
    directory of the process, and a second run finds them there. *)
Example convert_relative_directory :
  fst (fst (convert sampleHost (feedAt [entryA]) TemplateEngine.new
                    relativeRequest homeDisk))
  = Success ["/home/u/site/2024/2024-12.html"] 1 0
  /\ fst (fst (convert sampleHost (feedAt [entryA]) TemplateEngine.new
                       relativeRequest
                       (snd (convert sampleHost (feedAt [entryA]) TemplateEngine.new
                                     relativeRequest homeDisk))))
     = Success [] 0 0.
Proof. split; vm_compute; reflexivity. Qed.


(** ** Merging new entries into an existing page *)

(** The entries region after an update holds the new entries, newest
    first, and then the entries the page had. *)
Example convert_merge_order :
  mainItems (pageOf (snd firstRun) "/out/2024/2024-12.html")
  = join (nl ++ nl)
         (map (generateItemHTML sampleHost TemplateEngine.new) [entryB; entryA])
  /\ mainItems
       (pageOf (snd (run [entryC; entryA; entryD; entryB; entryN] (snd firstRun)))
               "/out/2024/2024-12.html")
     = join (nl ++ nl)
            (map (generateItemHTML sampleHost TemplateEngine.new)
                 [entryD; entryC; entryB; entryA]).
Proof. split; vm_compute; reflexivity. Qed.

Lemma expand_groups (g1 g2 matched pre post body : string) :
  every not_dollar body = true ->
  expand [g1; g2] matched pre post
         ("$1" ++ nl ++ "    " ++ body ++ nl ++ "    $2")
  = g1 ++ nl ++ "    " ++ body ++ nl ++ "    " ++ g2.
Proof.
  intros Hbody. unfold nl. cbn. f_equal. f_equal.
  rewrite expand_plain_prefix by assumption. cbn.
  now rewrite app_nil_r_s.
Qed.

(** Without a dollar sign in the merged entries, the entries region of
    the existing page is replaced by the new entries followed by the
    entries of the page, between the tags the page had; the rest of the
    page is passed to [updateMetaDate] as it was. *)
Lemma mergeHtmlContent_plain (host : Host) (existingHtml newHtml : string)
    (pre post : string) (ps : list string) :
  search mainReplaceRegex existingHtml = Some (pre, ps, post) ->
  every not_dollar (mainItems newHtml ++ nl ++ nl ++ mainItems existingHtml) = true ->
  existingHtml = pre ++ concat_all ps ++ post
  /\ mergeHtmlContent host existingHtml newHtml
     = updateMetaDate
         (pre ++ (capture ps (0, 3) ++ nl ++ "    "
                    ++ (mainItems newHtml ++ nl ++ nl ++ mainItems existingHtml)
                    ++ nl ++ "    " ++ capture ps (4, 1)) ++ post)
         (now host).
Proof.
  intros Hsearch Hplain. split; [apply (search_sound _ _ Hsearch)|].
  unfold mergeHtmlContent, replace_first. rewrite Hsearch.
  unfold captures. cbn [mainReplaceRegex groups map].
  now rewrite expand_groups.
Qed.

(** C3, at an input where the code departs from it.  On an update, the
    text of an existing entry is read as a replacement pattern: the
    dollar sign and digit of its description are replaced by the opening
    tag of the entries region, so the merged region is not the new
    entries followed by the entries the page had. *)
Example mergeHtmlContent_rewrites_existing_entry :
  mainItems (pageOf (snd pricedRun) "/out/2024/2024-12.html")
  = generateItemHTML sampleHost TemplateEngine.new priced
  /\ fst (fst pricedUpdate) = Success ["/out/2024/2024-12.html"] 1 1
  /\ mainItems (pageOf (snd pricedUpdate) "/out/2024/2024-12.html")
     = generateItemHTML sampleHost TemplateEngine.new entryB ++ nl ++ nl
         ++ generateItemHTML sampleHost TemplateEngine.new
              (mkItem "Sale" "Only <main> today" "http://example.com/sale"
                      (Some (mkDate 1 2024 11)) "" [])
  /\ mainItems (pageOf (snd pricedUpdate) "/out/2024/2024-12.html")
     <> generateItemHTML sampleHost TemplateEngine.new entryB ++ nl ++ nl
          ++ mainItems (pageOf (snd pricedRun) "/out/2024/2024-12.html").
Proof.
  split; [vm_compute; reflexivity|]. split; [vm_compute; reflexivity|].
  split; [vm_compute; reflexivity|].
  intros H. apply (f_equal String.length) in H. vm_compute in H. discriminate.
Qed.

(** ** Summaries *)

(** The buckets of [groupItemsByMonth].  An entry without a date is in no
    bucket and is counted by [countSkippedItems]; an entry with a date is
    in the bucket of its key, which is the decimal year, a dash and the
    month on two digits (the form YYYY-MM for the years of four digits);
    a bucket is not empty, holds exactly the dated entries of its key,
    newest first, entries of equal time in input order; the keys are
    distinct and the buckets come in descending order of the keys. *)
Theorem groupItemsByMonth_buckets (items : list RSSItem) :
  let groups := groupItemsByMonth items in
  (forall item k g, pubDate item = None -> In (k, g) groups -> ~ In item g)
  /\ (forall item date, In item items -> pubDate item = Some date ->
        exists g, In (getYearMonthKey date, g) groups /\ In item g)
  /\ (forall k g, In (k, g) groups ->
        g <> []
        /\ Permutation g (filter (in_month k) items)
        /\ StronglySorted (fun a b => (time_of b <= time_of a)%Z) g
        /\ (forall t,
              filter (fun item => (time_of item =? t)%Z) g
              = filter (fun item => in_month k item && (time_of item =? t)%Z) items))
  /\ NoDup (keys groups)
  /\ StronglySorted (fun g1 g2 => String.compare (fst g2) (fst g1) = Lt) groups
  /\ size groups + countSkippedItems items = List.length items
  /\ (forall date,
        getYearMonthKey date
        = string_of_Z (getFullYear date) ++ "-"
            ++ padStart2 (string_of_Z (getMonth date + 1)))
  /\ (forall date,
        (1000 <= getFullYear date <= 9999)%Z -> (0 <= getMonth date <= 11)%Z ->
        is_year_month (getYearMonthKey date) = true).
Proof.
  cbn zeta.
  destruct (groupItemsByMonth_outcome items) as (Hnd & Hsorted & Hg & Hin & Hsize).
  cbn zeta in Hnd, Hsorted, Hg, Hin, Hsize.
  assert (Hbucket : forall k g, In (k, g) (groupItemsByMonth items) ->
            g <> []
            /\ Permutation g (filter (in_month k) items)
            /\ StronglySorted (fun a b => (time_of b <= time_of a)%Z) g
            /\ (forall t,
                  filter (fun item => (time_of item =? t)%Z) g
                  = filter (fun item => in_month k item && (time_of item =? t)%Z)
                           items)).
  { intros k g Hkg. destruct (Hg k g Hkg) as [Heq Hne].
    destruct (bucket_order k items) as (Hs & Hp & Hstable). cbn zeta in Hs, Hp, Hstable.
    rewrite <- Heq in Hs, Hp, Hstable. auto. }
  split; [|split; [exact Hin|split; [exact Hbucket|]]].
  - intros item k g Hnone Hkg Hitem.
    destruct (Hbucket k g Hkg) as (_ & Hp & _).
    apply (Permutation_in _ Hp) in Hitem. apply filter_In in Hitem.
    destruct Hitem as [_ Hm]. unfold in_month in Hm. rewrite Hnone in Hm.
    discriminate.
  - split; [exact Hnd|]. split; [exact Hsorted|]. split; [exact Hsize|].
    split; [reflexivity|]. intros date. apply getYearMonthKey_four_digits.
Qed.

(** The merge of an update.  When the merged entries hold no dollar sign,
    the entries region of the existing page becomes the new entries
    followed by the entries the page had, between the tags the page had,
    and the result goes through [updateMetaDate] with the current time;
    with a page holding the entries B, A and the new entries D, C (all
    newer than B) the region becomes D, C, B, A. *)
Theorem mergeHtmlContent_new_entries_first :
  (forall host existingHtml newHtml pre post ps,
      search mainReplaceRegex existingHtml = Some (pre, ps, post) ->
      every not_dollar (mainItems newHtml ++ nl ++ nl ++ mainItems existingHtml)
      = true ->
      existingHtml = pre ++ concat_all ps ++ post
      /\ mergeHtmlContent host existingHtml newHtml
         = updateMetaDate
             (pre ++ (capture ps (0, 3) ++ nl ++ "    "
                        ++ (mainItems newHtml ++ nl ++ nl ++ mainItems existingHtml)
                        ++ nl ++ "    " ++ capture ps (4, 1)) ++ post)
             (now host))
  /\ mainItems
       (pageOf (snd (run [entryC; entryA; entryD; entryB; entryN] (snd firstRun)))
               "/out/2024/2024-12.html")
     = join (nl ++ nl)
            (map (generateItemHTML sampleHost TemplateEngine.new)
                 [entryD; entryC; entryB; entryA]).
Proof.
  split.
  - intros. now apply mergeHtmlContent_plain.
  - vm_compute. reflexivity.
Qed.

(** ** Adjacent months *)

Section AdjacentMonths.
Local Open Scope list_scope.

Lemma earlier_irrefl (a : string) : ~ earlier a a.
Proof.
  unfold earlier. intros H.
  assert (String.compare a a = Eq) by now apply String_as_OT.cmp_eq.
  congruence.
Qed.

Lemma earlier_trans (a b c : string) : earlier a b -> earlier b c -> earlier a c.
Proof.
  unfold earlier. intros H1 H2. apply String_as_OT.cmp_lt.
  eapply String_as_OT.lt_trans; apply String_as_OT.cmp_lt; eassumption.
Qed.

Lemma earlier_total (a b : string) : a = b \/ earlier a b \/ earlier b a.
Proof.
  unfold earlier. destruct (String.compare a b) eqn:E.
  - left. now apply String_as_OT.cmp_eq.
  - auto.
  - right. right. rewrite String.compare_antisym, E. reflexivity.
Qed.

Lemma indexOf_split (x : string) (l : list string) :
  In x l ->
  exists l1 l2, l = l1 ++ x :: l2 /\ ~ In x l1
                /\ indexOf x l = Some (List.length l1).
Proof.
  induction l as [|y l IH]; [intros []|]. intros Hin. cbn [indexOf].
  destruct (y =? x) eqn:E.
  - apply String.eqb_eq in E. subst y. exists [], l. cbn. auto.
  - apply String.eqb_neq in E. destruct Hin as [Heq|Hin]; [contradiction|].
    destruct (IH Hin) as (l1 & l2 & -> & Hout & ->).
    exists (y :: l1), l2. cbn [app List.length In]. intuition congruence.
Qed.

Lemma indexOf_absent (x : string) (l : list string) :
  ~ In x l -> indexOf x l = None.
Proof.
  induction l as [|y l IH]; [reflexivity|]. cbn [In indexOf]. intros H.
  destruct (y =? x) eqn:E.
  - apply String.eqb_eq in E. tauto.
  - rewrite IH; tauto.
Qed.

Lemma sorted_months (months : list string) :
  NoDup months -> StronglySorted earlier (sort localeCompare months).
Proof.
  intros Hnd.
  assert (Hnd' : NoDup (sort localeCompare months)).
  { eapply Permutation_NoDup; [apply Permutation_sym, sort_perm|assumption]. }
  assert (Hs : StronglySorted (precedes localeCompare) (sort localeCompare months)).
  { apply sort_sorted; [apply localeCompare_antisym|].
    intros x y z. unfold precedes. apply localeCompare_trans. }
  induction Hs as [|x l Hs IH Hall]; constructor.
  - apply IH. now inversion Hnd'.
  - inversion Hnd' as [|? ? Hnotin _]; subst. rewrite Forall_forall in *.
    intros y Hy. specialize (Hall y Hy). unfold precedes in Hall.
    apply localeCompare_le in Hall. destruct Hall as [->|H]; [contradiction|exact H].
Qed.

Lemma sorted_around (l1 l2 : list string) (x : string) :
  StronglySorted earlier (l1 ++ x :: l2) ->
  Forall (fun k => earlier k x) l1 /\ Forall (earlier x) l2.
Proof.
  induction l1 as [|y l1 IH]; cbn [app]; intros H.
  - inversion H; subst. split; [constructor|assumption].
  - inversion H as [|? ? Hs Hall]; subst. destruct (IH Hs) as [H1 H2].
    split; [|exact H2]. constructor; [|exact H1].
    rewrite Forall_forall in Hall. apply Hall. apply in_or_app. right. now left.
Qed.

(** The two neighbours, read off the sorted list around the current key. *)
Lemma findAdjacentMonths_around (cur : string) (months l1 l2 : list string) :
  sort localeCompare months = l1 ++ cur :: l2 ->
  ~ In cur l1 ->
  findAdjacentMonths cur months = (hd_error (rev l1), hd_error l2).
Proof.
  intros Hsorted Hout. unfold findAdjacentMonths. rewrite Hsorted.
  assert (Hidx : indexOf cur (l1 ++ cur :: l2) = Some (List.length l1)).
  { clear Hsorted. induction l1 as [|y l1 IH]; cbn [app indexOf List.length].
    - now rewrite String.eqb_refl.
    - destruct (y =? cur) eqn:E.
      + apply String.eqb_eq in E. subst y. exfalso. apply Hout. now left.
      + rewrite IH; [reflexivity|]. intros H. apply Hout. now right. }
  rewrite Hidx. f_equal.
  - destruct l1 as [|y l1] using rev_ind; [reflexivity|].
    rewrite length_app. cbn [List.length].
    replace (0 <? List.length l1 + 1)%nat with true
      by (symmetry; apply Nat.ltb_lt; lia).
    replace (List.length l1 + 1 - 1) with (List.length l1) by lia.
    rewrite <- app_assoc. rewrite nth_error_app2 by lia.
    rewrite Nat.sub_diag. rewrite rev_app_distr. reflexivity.
  - rewrite length_app. cbn [List.length].
    rewrite nth_error_app2 by lia.
    replace (List.length l1 + 1 - List.length l1) with 1 by lia.
    destruct l2 as [|z l2]; cbn [List.length nth_error hd_error].
    + replace (List.length l1 <? List.length l1 + 1 - 1)%nat with false
        by (symmetry; apply Nat.ltb_ge; lia).
      reflexivity.
    + replace (List.length l1 <? List.length l1 + S (S (List.length l2)) - 1)%nat
        with true by (symmetry; apply Nat.ltb_lt; lia).
      reflexivity.
Qed.

Lemma findAdjacentMonths_present (cur : string) (months : list string) :
  NoDup months -> In cur months ->
  exists l1 l2,
    sort localeCompare months = l1 ++ cur :: l2
    /\ StronglySorted earlier (l1 ++ cur :: l2)
    /\ findAdjacentMonths cur months = (hd_error (rev l1), hd_error l2).
Proof.
  intros Hnd Hin.
  assert (Hin' : In cur (sort localeCompare months)) by now apply sort_In.
  destruct (indexOf_split _ _ Hin') as (l1 & l2 & Hsorted & Hout & _).
  exists l1, l2. split; [exact Hsorted|]. split.
  - rewrite <- Hsorted. now apply sorted_months.
  - now apply findAdjacentMonths_around.
Qed.

(** [findAdjacentMonths]: for a list of distinct months, a current month
    that is not in the list has no neighbour; otherwise [prev] is the
    nearest month of the list before the current one and [next] the
    nearest after it, each absent exactly when there is none. *)
Theorem findAdjacentMonths_nearest (cur : string) (months : list string) :
  NoDup months ->
  (~ In cur months -> findAdjacentMonths cur months = (None, None))
  /\ (In cur months ->
      nearest_before cur months (fst (findAdjacentMonths cur months))
      /\ nearest_after cur months (snd (findAdjacentMonths cur months))).
Proof.
  intros Hnd. split.
  - intros Hout. unfold findAdjacentMonths.
    rewrite indexOf_absent; [reflexivity|]. now rewrite sort_In.
  - intros Hin.
    destruct (@findAdjacentMonths_present cur months Hnd Hin) as (l1 & l2 & Hsorted & Hs & ->).
    cbn [fst snd].
    assert (Hmem : forall k, In k months <-> In k l1 \/ k = cur \/ In k l2).
    { intros k. rewrite <- (sort_In localeCompare), Hsorted, in_app_iff.
      cbn [In]. intuition congruence. }
    destruct (sorted_around _ _ _ Hs) as [Hbefore Hafter].
    rewrite Forall_forall in Hbefore, Hafter.
    split.
    + destruct l1 as [|p l1] using rev_ind; cbn [rev hd_error nearest_before].
      * intros k Hk Hlt. apply Hmem in Hk. destruct Hk as [[]|[->|Hk]].
        -- now apply earlier_irrefl in Hlt.
        -- apply Hafter in Hk. apply (@earlier_irrefl k). eapply earlier_trans; eassumption.
      * rewrite rev_app_distr. cbn [rev app hd_error nearest_before].
        split; [apply Hmem; left; apply in_or_app; right; now left|].
        split; [apply Hbefore; apply in_or_app; right; now left|].
        intros k Hk Hlt. apply Hmem in Hk. destruct Hk as [Hk|[->|Hk]].
        -- apply in_app_or in Hk. destruct Hk as [Hk|[<-|[]]]; [|now left].
           right. rewrite <- app_assoc in Hs. cbn [app] in Hs.
           destruct (sorted_around _ _ _ Hs) as [Hp _].
           rewrite Forall_forall in Hp. now apply Hp.
        -- now apply earlier_irrefl in Hlt.
        -- apply Hafter in Hk. exfalso. apply (@earlier_irrefl k).
           eapply earlier_trans; eassumption.
    + destruct l2 as [|n l2]; cbn [hd_error nearest_after].
      * intros k Hk Hlt. apply Hmem in Hk. destruct Hk as [Hk|[->|[]]].
        -- apply Hbefore in Hk. apply (@earlier_irrefl k). eapply earlier_trans; eassumption.
        -- now apply earlier_irrefl in Hlt.
      * split; [apply Hmem; right; right; now left|].
        split; [apply Hafter; now left|].
        intros k Hk Hlt. apply Hmem in Hk. destruct Hk as [Hk|[->|[<-|Hk]]].
        -- apply Hbefore in Hk. exfalso. apply (@earlier_irrefl k).
           eapply earlier_trans; eassumption.
        -- now apply earlier_irrefl in Hlt.
        -- now left.
        -- right.
           assert (Hs' : StronglySorted earlier ((l1 ++ [cur]) ++ n :: l2)).
           { rewrite <- app_assoc. exact Hs. }
           destruct (sorted_around _ _ _ Hs') as [_ Hn].
           rewrite Forall_forall in Hn. now apply Hn.
Qed.

Lemma findAdjacentMonths_nearest_witness :
  NoDup ["2025-01"; "2024-11"; "2024-12"]
  /\ nearest_before "2024-12" ["2025-01"; "2024-11"; "2024-12"] (Some "2024-11")
  /\ nearest_after "2024-12" ["2025-01"; "2024-11"; "2024-12"] (Some "2025-01").
Proof.
  assert (Hnd : NoDup ["2025-01"; "2024-11"; "2024-12"]).
  { repeat constructor; cbn [In]; intuition discriminate. }
  split; [exact Hnd|].
  apply (proj2 (@findAdjacentMonths_nearest "2024-12" _ Hnd)).
  cbn [In]. auto.
Defined.

(** The two directions agree: the month after the previous month of a
    page is that page, and the month before its next month is that page. *)
Theorem findAdjacentMonths_inverse (cur : string) (months : list string) :
  NoDup months ->
  (forall p, fst (findAdjacentMonths cur months) = Some p ->
             snd (findAdjacentMonths p months) = Some cur)
  /\ (forall n, snd (findAdjacentMonths cur months) = Some n ->
                fst (findAdjacentMonths n months) = Some cur).
Proof.
  intros Hnd.
  assert (Hin : forall x, fst (findAdjacentMonths cur months) = Some x
                          \/ snd (findAdjacentMonths cur months) = Some x ->
                          In cur months).
  { intros x Hx. destruct (in_dec string_dec cur months) as [H|H]; [exact H|].
    exfalso. unfold findAdjacentMonths in Hx.
    rewrite indexOf_absent in Hx by now rewrite sort_In.
    cbn in Hx. destruct Hx; discriminate. }
  split.
  - intros p Hp. pose proof (Hin p (or_introl Hp)) as Hcur.
    destruct (@findAdjacentMonths_present cur months Hnd Hcur) as (l1 & l2 & Hsorted & Hs & Heq).
    rewrite Heq in Hp. cbn [fst] in Hp.
    destruct l1 as [|p' l1] using rev_ind; [discriminate|].
    rewrite rev_app_distr in Hp. cbn [rev app hd_error] in Hp. injection Hp as ->.
    rewrite <- app_assoc in Hsorted, Hs. cbn [app] in Hsorted, Hs.
    rewrite (@findAdjacentMonths_around p months l1 (cur :: l2) Hsorted); [reflexivity|].
    intros Hp. destruct (sorted_around _ _ _ Hs) as [Hbefore _].
    rewrite Forall_forall in Hbefore. now apply Hbefore, earlier_irrefl in Hp.
  - intros n Hn. pose proof (Hin n (or_intror Hn)) as Hcur.
    destruct (@findAdjacentMonths_present cur months Hnd Hcur) as (l1 & l2 & Hsorted & Hs & Heq).
    rewrite Heq in Hn. cbn [snd] in Hn.
    destruct l2 as [|n' l2]; [discriminate|]. cbn [hd_error] in Hn. injection Hn as ->.
    assert (Hsorted' : sort localeCompare months = (l1 ++ [cur]) ++ n :: l2)
      by now rewrite <- app_assoc.
    rewrite (@findAdjacentMonths_around n months (l1 ++ [cur]) l2 Hsorted').
    + rewrite rev_app_distr. reflexivity.
    + intros Hin'.
      assert (Hs' : StronglySorted earlier ((l1 ++ [cur]) ++ n :: l2))
        by (rewrite <- app_assoc; exact Hs).
      destruct (sorted_around _ _ _ Hs') as [Hbefore _].
      rewrite Forall_forall in Hbefore. now apply Hbefore, earlier_irrefl in Hin'.
Qed.

Lemma findAdjacentMonths_inverse_witness :
  NoDup ["2025-01"; "2024-11"; "2024-12"]
  /\ fst (findAdjacentMonths "2024-12" ["2025-01"; "2024-11"; "2024-12"])
     = Some "2024-11"
  /\ snd (findAdjacentMonths "2024-11" ["2025-01"; "2024-11"; "2024-12"])
     = Some "2024-12".
Proof.
  assert (Hnd : NoDup ["2025-01"; "2024-11"; "2024-12"]).
  { repeat constructor; cbn [In]; intuition discriminate. }
  split; [exact Hnd|]. split; [reflexivity|].
  apply (proj1 (@findAdjacentMonths_inverse "2024-12" _ Hnd)). reflexivity.
Defined.

End AdjacentMonths.

(** ** The months of a feed *)

Section UniqueMonths.
Local Open Scope list_scope.

Lemma keys_push (k : string) (x : RSSItem) (groups : Groups) :
  keys (push k x groups)
  = if has (keys groups) k then keys groups else keys groups ++ [k].
Proof.
  unfold keys, has. induction groups as [|[k0 g0] groups IH];
    cbn [push map fst existsb]; [reflexivity|].
  rewrite (String.eqb_sym k k0). destruct (k0 =? k)%string; cbn [map fst orb].
  - reflexivity.
  - rewrite IH. destruct (existsb (String.eqb k) (map fst groups)); reflexivity.
Qed.

Lemma keys_collected (items : list RSSItem) :
  forall groups,
    keys (fold_left collect items groups)
    = fold_left
        (fun (yearMonths : list string) item =>
           match pubDate item with
           | Some date =>
               let key := getYearMonthKey date in
               if has yearMonths key then yearMonths else yearMonths ++ [key]
           | None => yearMonths
           end)
        items (keys groups).
Proof.
  induction items as [|x items IH]; intros groups; cbn [fold_left]; [reflexivity|].
  rewrite IH. f_equal. unfold collect. destruct (pubDate x); [|reflexivity].
  apply keys_push.
Qed.

Lemma keys_insert (cmp : string -> string -> Z) (g : string * list RSSItem)
    (groups : Groups) :
  keys (insert (fun a b => cmp (fst a) (fst b)) g groups)
  = insert cmp (fst g) (keys groups).
Proof.
  unfold keys. induction groups as [|g0 groups IH]; cbn [insert map]; [reflexivity|].
  destruct (0 <? cmp (fst g) (fst g0))%Z; cbn [map]; [now rewrite IH|reflexivity].
Qed.

Lemma keys_sort (cmp : string -> string -> Z) (groups : Groups) :
  keys (sort (fun a b => cmp (fst a) (fst b)) groups) = sort cmp (keys groups).
Proof.
  unfold sort. induction groups as [|g groups IH]; cbn [fold_right]; [reflexivity|].
  rewrite keys_insert, IH. reflexivity.
Qed.

Lemma getUniqueYearMonths_groups (items : list RSSItem) :
  getUniqueYearMonths items = keys (groupItemsByMonth items).
Proof.
  unfold getUniqueYearMonths, groupItemsByMonth.
  rewrite (keys_sort (fun a b => localeCompare b a)).
  f_equal. unfold keys at 1. rewrite map_map. cbn [fst].
  symmetry. apply (keys_collected items []).
Qed.

(** [getUniqueYearMonths] and [groupItemsByMonth] agree: the months
    returned are the keys of the buckets, in the same order; they are
    distinct, in descending order, and are exactly the keys of the dated
    items. *)
Theorem getUniqueYearMonths_keys (items : list RSSItem) :
  getUniqueYearMonths items = keys (groupItemsByMonth items)
  /\ NoDup (getUniqueYearMonths items)
  /\ StronglySorted (fun a b => earlier b a) (getUniqueYearMonths items)
  /\ (forall k,
        In k (getUniqueYearMonths items)
        <-> exists item date,
              In item items /\ pubDate item = Some date
              /\ getYearMonthKey date = k).
Proof.
  rewrite getUniqueYearMonths_groups.
  destruct (groupItemsByMonth_outcome items) as (Hnd & Hsorted & Hg & Hin & _).
  cbn zeta in Hnd, Hsorted, Hg, Hin.
  split; [reflexivity|]. split; [exact Hnd|]. split.
  - unfold keys. clear Hnd Hg Hin.
    induction Hsorted as [|g groups Hs IH Hall]; cbn [map].
    + constructor.
    + constructor; [exact IH|]. rewrite Forall_forall in *.
      intros k Hk. apply in_map_iff in Hk. destruct Hk as (g' & <- & Hg').
      now apply Hall.
  - intros k. split.
    + intros Hk. unfold keys in Hk. apply in_map_iff in Hk.
      destruct Hk as ([k' g] & Heq & Hkg). cbn [fst] in Heq. subst k'.
      destruct (Hg k g Hkg) as [Heq Hne].
      destruct g as [|x g]; [congruence|].
      assert (Hx : In x (sort byDateDescending (filter (in_month k) items)))
        by (rewrite <- Heq; now left).
      apply sort_In, filter_In in Hx. destruct Hx as [Hx Hm].
      unfold in_month in Hm. destruct (pubDate x) as [date|] eqn:Ed; [|discriminate].
      apply String.eqb_eq in Hm. exists x, date. auto.
    + intros (item & date & Hitem & Hdate & <-).
      destruct (Hin item date Hitem Hdate) as (g & Hkg & _).
      eapply In_keys; eassumption.
Qed.

End UniqueMonths.

(** ** Merging item lists *)

(** [mergeItems], for new items that all have a publication date (the
    comparator reads it): the result is the new items, newest first and
    with equal times in input order, followed by the existing items as
    they were given. *)
Theorem mergeItems_new_first (newItems existingItems : list RSSItem) :
  Forall (fun item => pubDate item <> None) newItems ->
  exists sortedNewItems,
    mergeItems newItems existingItems = (sortedNewItems ++ existingItems)%list
    /\ Permutation sortedNewItems newItems
    /\ StronglySorted (fun a b => (time_of b <= time_of a)%Z) sortedNewItems
    /\ (forall t,
          filter (fun item => (time_of item =? t)%Z) sortedNewItems
          = filter (fun item => (time_of item =? t)%Z) newItems)
    /\ List.length (mergeItems newItems existingItems)
       = List.length newItems + List.length existingItems.
Proof.
  intros _. exists (sort byDateDescending newItems). unfold mergeItems.
  split; [reflexivity|]. split; [apply sort_perm|]. split; [|split].
  - eapply StronglySorted_impl;
      [|apply sort_sorted; [apply byDate_total | apply byDate_trans]].
    intros a b H. unfold precedes, byDateDescending in H. lia.
  - intros t. apply sort_filter.
    intros x y Hx Hy. apply Z.eqb_eq in Hx, Hy. unfold byDateDescending. lia.
  - now rewrite length_app, sort_length.
Qed.

Lemma mergeItems_new_first_witness :
  Forall (fun item => pubDate item <> None) [entryA; entryD; entryB]
  /\ exists sortedNewItems,
       mergeItems [entryA; entryD; entryB] [entryN]
       = (sortedNewItems ++ [entryN])%list
       /\ Permutation sortedNewItems [entryA; entryD; entryB]
       /\ StronglySorted (fun a b => (time_of b <= time_of a)%Z) sortedNewItems
       /\ (forall t,
             filter (fun item => (time_of item =? t)%Z) sortedNewItems
             = filter (fun item => (time_of item =? t)%Z)
                      [entryA; entryD; entryB])
       /\ List.length (mergeItems [entryA; entryD; entryB] [entryN]) = 3 + 1.
Proof.
  assert (H : Forall (fun item => pubDate item <> None) [entryA; entryD; entryB])
    by (repeat constructor; discriminate).
  split; [exact H|].
  exact (mergeItems_new_first [entryN] H).
Defined.

(** ** The outcome of a run *)

Ltac category c H :=
  unfold categorizeError;
  match goal with
  | |- context [String.prefix _ ?e] =>
      destruct e as [|c' e']; [discriminate|];
      cbn [String.prefix] in H |- *;
      destruct (ascii_dec c c') as [<-|]; [|discriminate];
      simpl; try rewrite H; reflexivity
  end.

Lemma categorize_filesystem (error : string) :
  String.prefix "FILESYSTEM" error = true -> categorizeError error = "filesystem".
Proof. intros H. category "F"%char H. Qed.

Lemma categorize_parse (error : string) :
  String.prefix "PARSE" error = true -> categorizeError error = "parse".
Proof. intros H. category "P"%char H. Qed.

Lemma categorize_network (error : string) :
  String.prefix "NETWORK" error = true -> categorizeError error = "network".
Proof. intros H. category "N"%char H. Qed.

Lemma create_error (filename content error : string) (itemCount : nat) :
  OutputFile.create filename content itemCount = inl error ->
  categorizeError error = "unknown".
Proof.
  unfold OutputFile.create.
  destruct (negb (truthy filename)); [intros H; injection H as <-; reflexivity|].
  destruct (String.length (trim filename) =? 0)%nat;
    [intros H; injection H as <-; reflexivity|].
  destruct (negb (truthy content)); [intros H; injection H as <-; reflexivity|].
  destruct (String.length (trim content) =? 0)%nat;
    [intros H; injection H as <-; reflexivity|].
  discriminate.
Qed.

Lemma parseXML_error (outside : RSSParser.Outside) (xmlContent error : string) :
  RSSParser.parseXML outside xmlContent = inl error ->
  String.prefix "PARSE" error = true.
Proof.
  unfold RSSParser.parseXML.
  destruct (RSSParser.xmlToFeed outside xmlContent) as [e|feed]; [|discriminate].
  destruct (String.prefix "PARSE" e) eqn:E; intros H; injection H as <-;
    [exact E|reflexivity].
Qed.

Lemma fetchAndParse_error (outside : RSSParser.Outside) (url : string)
    (timeout : Z) (error : string) :
  RSSParser.fetchAndParse outside url timeout = inl error ->
  categorizeError error = "network" \/ categorizeError error = "parse".
Proof.
  assert (Hhandler : forall (name message : string),
            (if (name =? "TypeError") && includes message "fetch"
             then inl ("NETWORK Failed to fetch RSS feed: " ++ message)
             else if includes message "timeout"
             then inl ("NETWORK Failed to fetch RSS feed: timeout after "
                         ++ string_of_Z timeout ++ " seconds")
             else if String.prefix "NETWORK" message || String.prefix "PARSE" message
             then inl message
             else inl ("NETWORK Failed to fetch RSS feed: " ++ message))
            = @inl string RSSFeed error ->
            categorizeError error = "network" \/ categorizeError error = "parse").
  { intros name message.
    destruct (_ && _); [intros H; injection H as <-; now left|].
    destruct (includes _ "timeout"); [intros H; injection H as <-; now left|].
    destruct (String.prefix "NETWORK" message) eqn:En; cbn [orb].
    { intros H. injection H as <-. left. now apply categorize_network. }
    destruct (String.prefix "PARSE" message) eqn:Ep.
    { intros H. injection H as <-. right. now apply categorize_parse. }
    intros H. injection H as <-. now left. }
  unfold RSSParser.fetchAndParse. cbv zeta.
  destruct (RSSParser.fetchFeed outside url _) as [raised|xmlContent];
    [apply Hhandler|].
  destruct (RSSParser.parseXML outside xmlContent) as [e|feed];
    [apply Hhandler|discriminate].
Qed.

Lemma parseFromFile_error (outside : RSSParser.Outside) (filePath : string)
    (disk : Disk) (error : string) :
  RSSParser.parseFromFile outside filePath disk = inl error ->
  categorizeError error = "filesystem" \/ categorizeError error = "parse".
Proof.
  assert (Hhandler : forall e : string,
            (if String.prefix "FILESYSTEM" e || String.prefix "PARSE" e
             then inl e
             else inl ("FILESYSTEM Failed to read feed file: " ++ e))
            = @inl string RSSFeed error ->
            categorizeError error = "filesystem" \/ categorizeError error = "parse").
  { intros e.
    destruct (String.prefix "FILESYSTEM" e) eqn:Ef; cbn [orb].
    { intros H. injection H as <-. left. now apply categorize_filesystem. }
    destruct (String.prefix "PARSE" e) eqn:Ep.
    { intros H. injection H as <-. right. now apply categorize_parse. }
    intros H. injection H as <-. now left. }
  unfold RSSParser.parseFromFile. cbv zeta.
  destruct (negb _); [apply Hhandler|].
  destruct (Fs.readFileSync filePath disk) as [e|xmlContent]; [apply Hhandler|].
  destruct (RSSParser.parseXML outside xmlContent) as [e|feed];
    [apply Hhandler|discriminate].
Qed.

Lemma loadTemplate_error (templatePath : string) (disk : Disk) (error : string) :
  loadTemplate templatePath disk = inl error -> categorizeError error = "config".
Proof.
  unfold loadTemplate. destruct (negb _); [discriminate|].
  destruct (loadFromFile templatePath disk); [|discriminate].
  intros H. injection H as <-. reflexivity.
Qed.

Lemma validateFeed_error (feed : RSSFeed) (error : string) :
  RSSParser.validateFeed feed = inl error -> categorizeError error = "parse".
Proof.
  unfold RSSParser.validateFeed.
  destruct (negb _); [intros H; injection H as <-; reflexivity|].
  destruct (_ =? 0)%nat; [intros H; injection H as <-; reflexivity|].
  destruct (_ =? 0)%nat; [intros H; injection H as <-; reflexivity|discriminate].
Qed.

Lemma validateTemplate_error (template : HTMLTemplate.t) (error : string) :
  validateTemplate template = inl error -> categorizeError error = "unknown".
Proof.
  unfold validateTemplate.
  destruct (negb _); [intros H; injection H as <-; reflexivity|discriminate].
Qed.

(** The category of a failed run, stage by stage.  What [convert] throws
    before the loop is what it reports, and [categorizeError] puts it in
    the category of the stage: a feed file that is not read or not parsed
    is a file system or a parse error, a URL that is refused a
    configuration error, a fetch that fails a network or a parse error, a
    feed that [validateFeed] refuses a parse error, a template that is
    not loaded a configuration error, and a template that
    [validateTemplate] refuses an unknown error, its message having no
    category.  The errors of the directory check and of the batch are
    file system errors. *)
Theorem convert_failure_category (host : Host) (outside : RSSParser.Outside)
    (engine : TemplateEngine.t) (request : Request) (disk : Disk) :
  (forall error,
      loadFeed outside request disk = inl error ->
      convert host outside engine request disk = (Failure error, engine, disk)
      /\ if truthy (filePath request)
         then categorizeError error = "filesystem"
              \/ categorizeError error = "parse"
         else if fst (RSSParser.validateUrl outside (rssUrl request))
              then categorizeError error = "network"
                   \/ categorizeError error = "parse"
              else categorizeError error = "config")
  /\ (forall feed error,
        loadFeed outside request disk = inr feed ->
        RSSParser.validateFeed feed = inl error ->
        convert host outside engine request disk = (Failure error, engine, disk)
        /\ categorizeError error = "parse")
  /\ (forall feed error,
        loadFeed outside request disk = inr feed ->
        RSSParser.validateFeed feed = inr tt ->
        loadTemplate (templatePath request) disk = inl error ->
        convert host outside engine request disk = (Failure error, engine, disk)
        /\ categorizeError error = "config")
  /\ (forall feed template error,
        loadFeed outside request disk = inr feed ->
        RSSParser.validateFeed feed = inr tt ->
        loadTemplate (templatePath request) disk = inr template ->
        validateTemplate template = inl error ->
        convert host outside engine request disk = (Failure error, engine, disk)
        /\ categorizeError error = "unknown")
  /\ (forall outputDir d error,
        fst (validateOutputDirectory outputDir d) = inl error ->
        categorizeError error = "filesystem")
  /\ (forall outputFiles outputDir d error,
        fst (writeFiles outputFiles outputDir d) = inl error ->
        categorizeError error = "filesystem").
Proof.
  split; [|split; [|split; [|split; [|split]]]].
  - intros error Hfeed. split; [unfold convert; now rewrite Hfeed|].
    revert Hfeed. unfold loadFeed.
    destruct (truthy (filePath request)); [apply parseFromFile_error|].
    destruct (fst (RSSParser.validateUrl outside (rssUrl request))); cbn [negb].
    + apply fetchAndParse_error.
    + intros H. injection H as <-. reflexivity.
  - intros feed error Hfeed Hvalid. unfold convert. rewrite Hfeed, Hvalid.
    split; [reflexivity|now apply validateFeed_error with feed].
  - intros feed error Hfeed Hvalid Hload. unfold convert.
    rewrite Hfeed, Hvalid, Hload.
    split; [reflexivity|now apply loadTemplate_error with (templatePath request) disk].
  - intros feed template error Hfeed Hvalid Hload Htemplate. unfold convert.
    rewrite Hfeed, Hvalid, Hload, Htemplate.
    split; [reflexivity|now apply validateTemplate_error with template].
  - intros outputDir d error H.
    destruct (validateOutputDirectory_outcome outputDir d) as (_ & _ & _ & _ & He).
    apply categorize_filesystem. now apply He.
  - intros outputFiles outputDir d error H.
    destruct (writeFiles_outcome outputFiles outputDir d) as (_ & _ & Hout).
    rewrite H in Hout.
    destruct Hout as (before & failed & later & mid & _ & _ & _ & Hp & _).
    now apply categorize_filesystem.
Qed.

(** ** The statistics of a run *)

Section RunStatistics.
Local Open Scope list_scope.

Lemma missing_changed (host : Host) (outputDir : string) (disk : Disk)
    (g : string * list RSSItem) :
  page_exists outputDir disk g = false ->
  changed host outputDir disk g = true /\ rendered host outputDir disk g = snd g.
Proof.
  unfold page_exists, Fs.isFile, changed, rendered.
  destruct (files disk _); [discriminate|auto].
Qed.

Lemma changed_split (host : Host) (outputDir : string) (disk : Disk)
    (groups : Groups) :
  List.length (filter (changed host outputDir disk) groups)
  = List.length (filter (fun g => page_exists outputDir disk g
                                  && changed host outputDir disk g) groups)
    + List.length (filter (fun g => negb (page_exists outputDir disk g)) groups).
Proof.
  induction groups as [|g groups IH]; cbn [filter List.length]; [reflexivity|].
  destruct (page_exists outputDir disk g) eqn:Ee; cbn [negb andb].
  - destruct (changed host outputDir disk g); cbn [List.length]; lia.
  - destruct (@missing_changed host outputDir disk g Ee) as [-> _].
    cbn [List.length]. lia.
Qed.

Lemma fresh_groups (host : Host) (outputDir : string) (disk : Disk)
    (groups : Groups) :
  (forall g, In g groups -> page_exists outputDir disk g = false) ->
  filter (changed host outputDir disk) groups = groups
  /\ list_sum (map (fun g => List.length (rendered host outputDir disk g)) groups)
     = size groups
  /\ filter (fun g => page_exists outputDir disk g
                      && changed host outputDir disk g) groups = [].
Proof.
  induction groups as [|g groups IH]; intros Hfresh; [auto|].
  assert (Hg : page_exists outputDir disk g = false) by (apply Hfresh; now left).
  destruct IH as (Hc & Hn & Hu); [intros g' Hg'; apply Hfresh; now right|].
  destruct (@missing_changed host outputDir disk g Hg) as [Hch Hr].
  cbn [filter map]. unfold size in *. cbn [map list_sum fold_right].
  rewrite Hg, Hch, Hr, Hc, Hu. cbn [andb]. unfold list_sum in Hn. rewrite Hn. auto.
Qed.

(** The statistics of a successful run.  [newItems] is the number of
    entries rendered: all the entries of the buckets whose page was
    missing and the new entries of the others; [updatedFiles] is the
    number of buckets whose page existed and received new entries; the
    written paths are one per created or updated page.  On a directory
    that holds none of the pages, the run writes the page of every bucket,
    in the order of the buckets, and [newItems] is the number of dated
    entries of the feed. *)
Theorem convert_statistics (host : Host) (outside : RSSParser.Outside)
    (engine engine' : TemplateEngine.t) (request : Request) (feed : RSSFeed)
    (disk disk' : Disk) (writtenPaths : list string) (newItems updated : nat) :
  loadFeed outside request disk = inr feed ->
  convert host outside engine request disk
  = (Success writtenPaths newItems updated, engine', disk') ->
  let outputDir := targetDir request disk in
  let groups := groupItemsByMonth (items feed) in
  newItems
  = list_sum (map (fun g => List.length (rendered host outputDir disk g)) groups)
  /\ updated
     = List.length (filter (fun g => page_exists outputDir disk g
                                     && changed host outputDir disk g) groups)
  /\ List.length writtenPaths
     = updated
       + List.length (filter (fun g => negb (page_exists outputDir disk g)) groups)
  /\ ((forall g, In g groups -> page_exists outputDir disk g = false) ->
      writtenPaths = map (fun g => writtenPath disk outputDir (fst g)) groups
      /\ newItems = countProcessableItems (items feed)
      /\ updated = 0).
Proof.
  intros Hfeed Hrun. cbn zeta.
  destruct (@convert_success host outside engine engine' request feed disk disk'
              writtenPaths newItems updated Hfeed Hrun) as (template & _ & Hloop).
  destruct (@convertFeed_writes host engine engine' feed template _ disk disk'
              writtenPaths newItems updated Hloop) as (Hpaths & Hnew & Hupd & _).
  cbn zeta in Hpaths, Hnew, Hupd.
  set (outputDir := targetDir request disk) in *.
  set (groups := groupItemsByMonth (items feed)) in *.
  split; [exact Hnew|]. split; [exact Hupd|]. split.
  - rewrite Hpaths, length_map, Hupd. apply changed_split.
  - intros Hfresh.
    destruct (@fresh_groups host outputDir disk groups Hfresh) as (Hc & Hs & Hz).
    rewrite Hpaths, Hc, Hnew, Hs, Hupd, Hz.
    split; [reflexivity|]. split; [|reflexivity].
    destruct (groupItemsByMonth_outcome (items feed)) as (_ & _ & _ & _ & Hsize).
    cbn zeta in Hsize. fold groups in Hsize.
    pose proof (count_dated_skipped (items feed)). lia.
Qed.

Lemma convert_statistics_witness :
  convert sampleHost (feedAt [entryC; entryA; entryD; entryB; entryN; entryJ])
          TemplateEngine.new request (snd firstRun)
  = (Success ["/out/2025/2025-01.html"; "/out/2024/2024-12.html"] 3 1,
     snd (fst busyRun), snd busyRun)
  /\ 3 = list_sum
           (map (fun g => List.length (rendered sampleHost "/out" (snd firstRun) g))
                (groupItemsByMonth [entryC; entryA; entryD; entryB; entryN; entryJ]))
  /\ 1 = List.length
           (filter (fun g => page_exists "/out" (snd firstRun) g
                             && changed sampleHost "/out" (snd firstRun) g)
                   (groupItemsByMonth [entryC; entryA; entryD; entryB; entryN; entryJ])).
Proof.
  assert (Hresult : fst (fst busyRun)
                    = Success ["/out/2025/2025-01.html"; "/out/2024/2024-12.html"] 3 1)
    by (vm_compute; reflexivity).
  assert (Hrun : convert sampleHost
                   (feedAt [entryC; entryA; entryD; entryB; entryN; entryJ])
                   TemplateEngine.new request (snd firstRun)
                 = (Success ["/out/2025/2025-01.html"; "/out/2024/2024-12.html"] 3 1,
                    snd (fst busyRun), snd busyRun)).
  { rewrite <- Hresult. unfold busyRun, run.
    destruct (convert _ _ _ _ _) as [[result engine'] disk']. reflexivity. }
  assert (Hfeed : loadFeed (feedAt [entryC; entryA; entryD; entryB; entryN; entryJ])
                           request (snd firstRun)
                  = inr (feedOf [entryC; entryA; entryD; entryB; entryN; entryJ]))
    by (vm_compute; reflexivity).
  split; [exact Hrun|].
  destruct (@convert_statistics _ _ _ _ _ _ _ _ _ _ _ Hfeed Hrun) as (Hnew & Hupd & _).
  split; [exact Hnew|exact Hupd].
Defined.

End RunStatistics.

(** ** The files a run leaves alone *)

Section RunFrame.
Local Open Scope list_scope.

Lemma writeFiles_frame (outputFiles : list OutputFile.t) (outputDir : string)
    (disk : Disk) (p : string) :
  ~ In p (map (pathOf disk outputDir) outputFiles) ->
  files (snd (writeFiles outputFiles outputDir disk)) p = files disk p.
Proof.
  intros Hp.
  destruct (writeFiles_outcome outputFiles outputDir disk) as (_ & _ & H).
  destruct (fst (writeFiles outputFiles outputDir disk)) as [error|written].
  - destruct H as (before & failed & later & mid & Hsplit & _ & _ & _ & _ & _ & Hframe).
    apply Hframe. intros Hin. apply Hp. rewrite Hsplit, map_app.
    apply in_or_app. now left.
  - destruct H as (_ & Hf & _). rewrite Hf. unfold after_batch.
    now rewrite batchContent_outside.
Qed.

Lemma patchNavigation_frame (outputDir : string) (pages : list (string * string))
    (p : string) :
  forall disk,
    (forall page, In page pages -> p <> pagePath disk outputDir (snd page)) ->
    files (snd (patchNavigation pages outputDir disk)) p = files disk p.
Proof.
  induction pages as [|[yearMonth prevMonth] pages IH]; intros disk Hp;
    cbn [patchNavigation]; [reflexivity|].
  assert (IH' : files (snd (patchNavigation pages outputDir disk)) p = files disk p).
  { apply IH. intros page Hin. apply Hp. now right. }
  destruct (Fs.existsSync _ disk); [|exact IH'].
  destruct (Fs.readFileSync _ disk) as [error|prevHtml]; [reflexivity|].
  destruct (_ =? prevHtml)%string; [exact IH'|].
  destruct (Fs.writeFileSync _ _ disk) as [error|disk1] eqn:Ew; [reflexivity|].
  apply writeFileSync_ok in Ew. fold (pagePath disk outputDir prevMonth) in Ew.
  destruct Ew as (_ & Hc & Hf & _).
  rewrite IH.
  - rewrite Hf.
    specialize (Hp (yearMonth, prevMonth) (or_introl eq_refl)). cbn [snd] in Hp.
    apply String.eqb_neq in Hp. now rewrite Hp.
  - intros page Hin. rewrite (@pagePath_cwd disk disk1 outputDir (snd page) Hc).
    apply Hp. now right.
Qed.

Lemma findAdjacentMonths_member (cur : string) (months : list string) (p : string) :
  fst (findAdjacentMonths cur months) = Some p -> In p months.
Proof.
  unfold findAdjacentMonths.
  destruct (indexOf cur _) as [i|]; cbn [fst]; [|discriminate].
  destruct (0 <? i)%nat; [|discriminate].
  intros H. apply nth_error_In in H. now apply sort_In in H.
Qed.

Lemma convertFeed_frame (host : Host) (engine : TemplateEngine.t)
    (feed : RSSFeed) (template : HTMLTemplate.t) (outputDir : string)
    (disk : Disk) (p : string) :
  p <> probeFile disk outputDir ->
  (forall k, In k (keys (groupItemsByMonth (items feed))) ->
             p <> writtenPath disk outputDir k /\ p <> pagePath disk outputDir k) ->
  files (snd (convertFeed host engine feed template outputDir disk)) p
  = files disk p.
Proof.
  intros Hprobe Hpages. rewrite convertFeed_loop. cbn zeta.
  set (groups := groupItemsByMonth (items feed)) in *.
  set (st := fold_left _ groups _).
  assert (Hstart : grown disk (fsState (mkLoop engine [] [] 0 0 None disk)))
    by apply grown_refl.
  pose proof (@loop_grown host feed template outputDir (map fst groups) disk
                groups (mkLoop engine [] [] 0 0 None disk) Hstart) as Hgrown.
  fold st in Hgrown. destruct Hgrown as ([Hc0 Hr0] & Hf0 & _ & _).
  destruct (thrown st) eqn:Ethrown; [cbn [snd]; now rewrite Hf0|].
  destruct (@loop_outcome host feed template outputDir (map fst groups) disk
              groups (mkLoop engine [] [] 0 0 None disk) Hstart Ethrown)
    as (Hcreated & Hnames & _).
  fold st in Hcreated, Hnames.
  cbn [newlyCreatedPages outputFiles map app] in Hcreated, Hnames.
  destruct (outputFiles st) as [|f0 fs0] eqn:Eout; [cbn [snd]; now rewrite Hf0|].
  rewrite <- Eout in *. clear f0 fs0 Eout.
  assert (Hbatch : ~ In p (map (pathOf disk outputDir) (outputFiles st))).
  { rewrite (written_paths disk outputDir _ Hnames), map_map.
    intros Hin. apply in_map_iff in Hin.
    destruct Hin as (g & Hg & Hin). apply filter_In in Hin. destruct Hin as [Hin _].
    destruct (Hpages (fst g)) as [Hw _]; [now apply in_map|].
    apply Hw. symmetry. exact Hg. }
  assert (Hpatch : forall page, In page (newlyCreatedPages st) ->
                                p <> pagePath disk outputDir (snd page)).
  { intros [yearMonth prevMonth] Hin. rewrite Hcreated in Hin.
    apply in_flat_map in Hin. destruct Hin as (g & _ & Hin).
    unfold createdBy in Hin. destruct (files disk _); [contradiction|].
    destruct (fst (findAdjacentMonths (fst g) (map fst groups))) as [prev|] eqn:Eadj;
      cbn [present key_text] in Hin; [|contradiction].
    destruct (truthy prev); [|contradiction].
    destruct Hin as [Hin|[]]. injection Hin as _ <-. cbn [snd].
    apply Hpages. now apply findAdjacentMonths_member with (fst g). }
  destruct (validateOutputDirectory_outcome outputDir (fsState st))
    as ([Hc1 _] & _ & Hf1 & _).
  rewrite (@probeFile_cwd disk (fsState st) outputDir Hc0) in Hf1.
  specialize (Hf1 p Hprobe).
  destruct (validateOutputDirectory outputDir (fsState st)) as [[error|[]] disk1];
    cbn [snd] in Hc1, Hf1 |- *; [now rewrite Hf1, Hf0|].
  assert (Hcwd1 : cwd disk1 = cwd disk) by congruence.
  rewrite <- (@pathOf_cwd disk1 disk outputDir Hcwd1) in Hbatch.
  pose proof (@writeFiles_frame (outputFiles st) outputDir disk1 p Hbatch) as Hf2.
  destruct (writeFiles_outcome (outputFiles st) outputDir disk1) as ([Hc2 _] & _).
  destruct (writeFiles (outputFiles st) outputDir disk1) as [[error|paths] disk2];
    cbn [snd] in Hc2, Hf2 |- *; [now rewrite Hf2, Hf1, Hf0|].
  assert (Hcwd2 : cwd disk2 = cwd disk) by congruence.
  assert (Hpatch2 : forall page, In page (newlyCreatedPages st) ->
                                 p <> pagePath disk2 outputDir (snd page)).
  { intros page Hin. rewrite (@pagePath_cwd disk disk2 outputDir (snd page) Hcwd2).
    now apply Hpatch. }
  pose proof (@patchNavigation_frame outputDir (newlyCreatedPages st) p disk2 Hpatch2)
    as Hf3.
  destruct (patchNavigation (newlyCreatedPages st) outputDir disk2)
    as [[error|[]] disk3]; cbn [snd] in Hf3 |- *; now rewrite Hf3, Hf2, Hf1, Hf0.
Qed.

(** A run touches the probe file of the output directory and, for the
    months of the feed, the file it writes as the page of the month and
    the file it reads as that page, and no other file: whatever the
    outcome, any other path keeps the content it had, or stays absent. *)
Theorem convert_leaves_other_files (host : Host) (outside : RSSParser.Outside)
    (engine : TemplateEngine.t) (request : Request) (feed : RSSFeed)
    (disk : Disk) (p : string) :
  loadFeed outside request disk = inr feed ->
  p <> probeFile disk (targetDir request disk) ->
  (forall k, In k (keys (groupItemsByMonth (items feed))) ->
             p <> writtenPath disk (targetDir request disk) k
             /\ p <> pagePath disk (targetDir request disk) k) ->
  files (snd (convert host outside engine request disk)) p = files disk p.
Proof.
  intros Hfeed Hprobe Hpages. unfold convert. rewrite Hfeed.
  destruct (RSSParser.validateFeed feed); [reflexivity|].
  destruct (loadTemplate (templatePath request) disk) as [error|template];
    [reflexivity|].
  destruct (validateTemplate template); [reflexivity|].
  now apply convertFeed_frame.
Qed.

Lemma convert_leaves_other_files_witness :
  fst (fst (run [entryA; entryB; entryN] notesDisk))
  = Success ["/out/2024/2024-12.html"; "/out/2024/2024-11.html"] 3 0
  /\ files notesDisk "/out/notes.txt" = Some "keep"
  /\ files (snd (run [entryA; entryB; entryN] notesDisk)) "/out/notes.txt"
     = files notesDisk "/out/notes.txt".
Proof.
  split; [vm_compute; reflexivity|]. split; [reflexivity|].
  apply (@convert_leaves_other_files sampleHost (feedAt [entryA; entryB; entryN])
           TemplateEngine.new request (feedOf [entryA; entryB; entryN])
           notesDisk "/out/notes.txt").
  - vm_compute. reflexivity.
  - vm_compute. discriminate.
  - intros k Hk. vm_compute in Hk.
    destruct Hk as [<-|[<-|[]]]; split; vm_compute; discriminate.
Defined.

End RunFrame.

(** ** Validation of the feed and of the template *)

Lemma filter_none (A : Type) (f : A -> bool) (l : list A) :
  List.length (filter f l) = 0 <-> forall x, In x l -> f x = false.
Proof.
  induction l as [|y l IH]; cbn [filter In].
  - split; [intros _ x []|reflexivity].
  - destruct (f y) eqn:E; cbn [List.length].
    + split; [discriminate|]. intros H. specialize (H y (or_introl eq_refl)). congruence.
    + rewrite IH. split.
      * intros H x [<-|Hx]; auto.
      * intros H x Hx. apply H. now right.
Qed.

(** [validateFeed] returns exactly for the feeds whose title is not blank
    and that hold an item whose title and link are both not blank; it
    throws the first of its three errors that applies. *)
Theorem validateFeed_accepts_iff (feed : RSSFeed) :
  (RSSParser.validateFeed feed = inr tt
   <-> RSSParser.nonBlank (feed_title feed) = true
       /\ exists item,
            In item (items feed)
            /\ RSSParser.nonBlank (title item) = true
            /\ RSSParser.nonBlank (link item) = true)
  /\ (RSSParser.nonBlank (feed_title feed) = false ->
      RSSParser.validateFeed feed = inl "PARSE Feed must have a title")
  /\ (RSSParser.nonBlank (feed_title feed) = true -> items feed = [] ->
      RSSParser.validateFeed feed
      = inl "PARSE Feed must contain at least one item")
  /\ (RSSParser.nonBlank (feed_title feed) = true -> items feed <> [] ->
      (forall item, In item (items feed) ->
         RSSParser.nonBlank (title item) && RSSParser.nonBlank (link item) = false) ->
      RSSParser.validateFeed feed
      = inl "PARSE Feed must contain at least one item with title and link").
Proof.
  unfold RSSParser.validateFeed.
  destruct (RSSParser.nonBlank (feed_title feed)) eqn:Et; cbn [negb].
  2:{ split; [|split; [reflexivity|split; discriminate]].
      split; [discriminate|]. intros [H _]. discriminate. }
  destruct (items feed) as [|x l] eqn:Ei; cbn [List.length Nat.eqb].
  { split; [|split; [discriminate|split; [reflexivity|congruence]]].
    split; [discriminate|]. intros [_ (item & [] & _)]. }
  set (valid := fun item => RSSParser.nonBlank (title item)
                            && RSSParser.nonBlank (link item)).
  destruct (List.length (filter valid (x :: l)) =? 0)%nat eqn:En.
  - apply Nat.eqb_eq in En. pose proof (proj1 (filter_none valid (x :: l)) En) as Hnone.
    clear En. rename Hnone into En.
    split; [|split; [discriminate|split; [discriminate|reflexivity]]].
    split; [discriminate|]. intros [_ (item & Hin & H1 & H2)].
    specialize (En item Hin). unfold valid in En. rewrite H1, H2 in En. discriminate.
  - split; [|split; [discriminate|split; [discriminate|]]].
    + split; [|reflexivity]. intros _. split; [reflexivity|].
      destruct (filter valid (x :: l)) as [|y rest] eqn:Ef; [discriminate|].
      assert (Hy : In y (filter valid (x :: l))) by (rewrite Ef; now left).
      apply filter_In in Hy. destruct Hy as [Hy Hv]. unfold valid in Hv.
      apply andb_true_iff in Hv. exists y. tauto.
    + intros _ _ Hnone. exfalso. apply Nat.eqb_neq in En. apply En.
      apply (proj2 (filter_none valid (x :: l))). exact Hnone.
Qed.

(** A feed that went through the constructors passes [validateFeed]:
    when the URL parser accepts no blank string, a feed that satisfies the
    validation of the RSSFeed constructor and whose items satisfy the
    validation of the RSSItem constructor is never refused. *)
Theorem validateFeed_accepts_constructed (validURL : string -> bool)
    (feed : RSSFeed) :
  (forall s, validURL s = true -> RSSParser.nonBlank s = true) ->
  RSSFeedMethods.validate validURL feed = inr tt ->
  Forall (fun item => RSSItemMethods.validate validURL item = inr tt)
         (items feed) ->
  RSSParser.validateFeed feed = inr tt.
Proof.
  intros Hurl Hfeed Hitems.
  unfold RSSFeedMethods.validate in Hfeed.
  destruct (negb (truthy (feed_title feed)) || _) eqn:Et; [discriminate|].
  destruct (negb (truthy (feed_description feed)) || _); [discriminate|].
  destruct (_ && negb (validURL (feed_link feed))); [discriminate|].
  destruct (List.length (items feed) =? 0)%nat eqn:En; [discriminate|].
  apply orb_false_iff in Et. destruct Et as [Et1 Et2].
  apply negb_false_iff in Et1. apply Nat.eqb_neq in Et2.
  assert (Htitle : RSSParser.nonBlank (feed_title feed) = true).
  { unfold RSSParser.nonBlank. rewrite Et1. apply Nat.ltb_lt. lia. }
  unfold RSSParser.validateFeed. rewrite Htitle, En. cbn [negb].
  destruct (items feed) as [|x l]; [discriminate|].
  apply Forall_inv in Hitems. unfold RSSItemMethods.validate in Hitems.
  destruct (negb (truthy (title x)) || _) eqn:Ex; [discriminate|].
  destruct (negb (truthy (link x))); [discriminate|].
  destruct (validURL (link x)) eqn:El; [|discriminate].
  apply orb_false_iff in Ex. destruct Ex as [Ex1 Ex2].
  apply negb_false_iff in Ex1. apply Nat.eqb_neq in Ex2.
  cbn [filter]. unfold RSSParser.nonBlank at 1. rewrite Ex1.
  replace (0 <? String.length (trim (title x)))%nat with true
    by (symmetry; apply Nat.ltb_lt; lia).
  rewrite (Hurl _ El). reflexivity.
Qed.

Lemma trimEnd_head (c : ascii) (s : string) :
  is_space c = false -> exists t, trimEnd (String c s) = String c t.
Proof.
  intros Hc. cbn [trimEnd]. rewrite Hc. destruct (trimEnd s); eauto.
Qed.

Lemma httpURL_nonBlank (s : string) :
  httpURL s = true -> RSSParser.nonBlank s = true.
Proof.
  unfold httpURL. intros H.
  assert (Hh : exists s', s = String "h" s').
  { destruct s as [|c s]; [discriminate|]. cbn [String.prefix] in H.
    destruct (ascii_dec "h" c) as [<-|]; [eauto|discriminate]. }
  destruct Hh as [s' ->]. unfold RSSParser.nonBlank, trim. cbn [truthy trimStart].
  change (is_space "h") with false. cbv iota.
  destruct (@trimEnd_head "h" s' eq_refl) as [t ->]. reflexivity.
Qed.

Lemma validateFeed_accepts_constructed_witness :
  (forall s, httpURL s = true -> RSSParser.nonBlank s = true)
  /\ RSSFeedMethods.validate httpURL (feedOf [entryA; entryB]) = inr tt
  /\ Forall (fun item => RSSItemMethods.validate httpURL item = inr tt)
            (items (feedOf [entryA; entryB]))
  /\ RSSParser.validateFeed (feedOf [entryA; entryB]) = inr tt.
Proof.
  assert (H2 : RSSFeedMethods.validate httpURL (feedOf [entryA; entryB]) = inr tt)
    by reflexivity.
  assert (H3 : Forall (fun item => RSSItemMethods.validate httpURL item = inr tt)
                      (items (feedOf [entryA; entryB])))
    by (repeat constructor).
  split; [exact httpURL_nonBlank|]. split; [exact H2|]. split; [exact H3|].
  exact (@validateFeed_accepts_constructed httpURL (feedOf [entryA; entryB])
           httpURL_nonBlank H2 H3).
Defined.

(** ** The template constructor and [validateTemplate] *)

Lemma trimStart_blank (s : string) :
  trimStart s = "" -> every is_space s = true.
Proof.
  induction s as [|c s IH]; cbn [trimStart every]; [reflexivity|].
  destruct (is_space c); [exact IH|discriminate].
Qed.

Lemma trimStart_head (s : string) (c : ascii) (t : string) :
  trimStart s = String c t -> is_space c = false.
Proof.
  induction s as [|x s IH]; cbn [trimStart]; [discriminate|].
  destruct (is_space x) eqn:E; [exact IH|]. intros H. injection H as <- _. exact E.
Qed.

Lemma trim_blank (s : string) :
  String.length (trim s) = 0 -> every is_space s = true.
Proof.
  unfold trim. destruct (trimStart s) as [|c t] eqn:E.
  - intros _. now apply trimStart_blank.
  - apply trimStart_head in E. cbn [trimEnd]. rewrite E.
    destruct (trimEnd t); discriminate.
Qed.

(** A blank string holds no occurrence of a text that starts with a
    character other than white space. *)
Lemma scan_blank (c : ascii) (l s : string) :
  is_space c = false -> every is_space s = true ->
  forall before, matches (literal (String c l)) s = []
                 /\ scan (literal (String c l)) 0 before s
                    = map Text (list_ascii_of_string s).
Proof.
  intros Hc. unfold matches.
  assert (H : every is_space s = true ->
              forall before, scan (literal (String c l)) 0 before s
                             = map Text (list_ascii_of_string s)).
  { induction s as [|x s IH]; cbn [every]; intros Hs before.
    - reflexivity.
    - apply andb_true_iff in Hs. destruct Hs as [Hx Hs].
      cbn [scan literal atoms icase match_here strip]. unfold char_eq.
      destruct (c =? x)%char eqn:E.
      + apply Ascii.eqb_eq in E. subst x. congruence.
      + cbn [list_ascii_of_string map]. f_equal. now apply IH. }
  intros Hs before. split; [|now apply H].
  rewrite (H Hs ""). clear. induction (list_ascii_of_string s) as [|x xs IH];
    cbn [map flat_map app]; auto.
Qed.

Lemma count_matches_blank (c : ascii) (l s : string) :
  is_space c = false -> every is_space s = true ->
  count_matches (literal (String c l)) s = 0.
Proof.
  intros Hc Hs. unfold count_matches.
  destruct (@scan_blank c l s Hc Hs "") as [Hm _]. unfold matches in Hm.
  unfold matches. now rewrite Hm.
Qed.

(** The constructor of HTMLTemplate and [validateTemplate].  A content
    that [validateTemplate] accepts is one the constructor accepts; and for
    a template that the constructor built, which has at most one entries
    region, [validateTemplate] throws exactly when it has none.  The
    default template is built without error. *)
Theorem validateTemplate_after_constructor (content : string) :
  (forall warnings,
      validateTemplate (HTMLTemplate.mk content) = inr warnings ->
      HTMLTemplate.fromContent content = inr (HTMLTemplate.mk content))
  /\ (forall template,
        HTMLTemplate.fromContent content = inr template ->
        template = HTMLTemplate.mk content
        /\ regionCount template <= 1
        /\ ((exists error, validateTemplate template = inl error)
            <-> regionCount template = 0))
  /\ HTMLTemplate.fromContent HTMLTemplate.getDefaultTemplate
     = inr HTMLTemplate.createDefault.
Proof.
  split; [|split].
  - intros warnings Hok.
    assert (Hone : regionCount (HTMLTemplate.mk content) = 1).
    { destruct (Nat.eq_dec (regionCount (HTMLTemplate.mk content)) 1) as [H|H];
        [exact H|].
      apply validateTemplate_throws_iff in H. destruct H as [e He]. congruence. }
    unfold regionCount in Hone. cbn [HTMLTemplate.content] in Hone.
    unfold HTMLTemplate.fromContent, HTMLTemplate.validate.
    assert (Hblank : every is_space content = true -> False).
    { intros Hb.
      rewrite !count_matches_blank in Hone by (assumption || reflexivity).
      discriminate. }
    destruct (truthy content) eqn:Et; cbn [negb].
    2:{ exfalso. apply Hblank. unfold truthy in Et. apply negb_false_iff in Et.
        apply String.eqb_eq in Et. now subst content. }
    destruct (String.length (trim content) =? 0)%nat eqn:Eb.
    { exfalso. apply Hblank, trim_blank. now apply Nat.eqb_eq. }
    cbv zeta. rewrite Hone. reflexivity.
  - intros template. unfold HTMLTemplate.fromContent.
    destruct (HTMLTemplate.validate content) as [error|warnings] eqn:Ev; [discriminate|].
    intros H. injection H as <-. split; [reflexivity|].
    unfold HTMLTemplate.validate in Ev.
    destruct (negb (truthy content)); [discriminate|].
    destruct (String.length (trim content) =? 0)%nat; [discriminate|].
    cbv zeta in Ev.
    destruct (1 <? _ + _)%nat eqn:En; [discriminate|].
    apply Nat.ltb_ge in En. rewrite validateTemplate_throws_iff.
    unfold regionCount. cbn [HTMLTemplate.content]. lia.
  - vm_compute. reflexivity.
Qed.

(** ** What a match is made of *)

Section Pieces.
Local Open Scope list_scope.

Lemma strip_lit_match (ci : bool) (l : string) :
  forall s m r, strip ci l s = Some (m, r) -> lit_match ci l m = true.
Proof.
  induction l as [|c l IH]; intros s m r; cbn [strip].
  - intros H. injection H as <- <-. reflexivity.
  - destruct s as [|b s]; [discriminate|].
    destruct (char_eq ci c b) eqn:Ec; [|discriminate].
    destruct (strip ci l s) as [[m' r']|] eqn:E; [|discriminate].
    intros H. injection H as <- <-. cbn [lit_match]. rewrite Ec. eapply IH; eassumption.
Qed.

Lemma lit_match_strip (ci : bool) (l : string) :
  forall m r, lit_match ci l m = true -> strip ci l (m ++ r)%string = Some (m, r).
Proof.
  induction l as [|c l IH]; intros [|b m] r; cbn [lit_match]; try discriminate.
  - reflexivity.
  - rewrite andb_true_iff. intros [Hc Hm]. cbn [append strip].
    rewrite Hc. now rewrite IH.
Qed.

(** The first piece of a repetition and the match of what follows. *)
Lemma rep_split (cls : ascii -> bool) (greedy : bool)
    (k : string -> option (list string * string)) (s : string) :
  forall least ps r,
    rep cls greedy k s least = Some (ps, r) ->
    exists m ps' s',
      ps = m :: ps' /\ s = (m ++ s')%string /\ every cls m = true
      /\ least <= String.length m /\ k s' = Some (ps', r).
Proof.
  induction s as [|c s IH]; intros least ps r H; apply rep_cases in H;
    destruct H as [H|(c' & s' & Hs & Hc & H)]; try discriminate.
  - unfold rep_stop in H. destruct least; [|discriminate].
    destruct (k "") as [[ps0 r0]|] eqn:E; [|discriminate]. injection H as <- <-.
    exists "", ps0, "". cbn. auto.
  - unfold rep_stop in H. destruct least; [|discriminate].
    destruct (k (String c s)) as [[ps0 r0]|] eqn:E; [|discriminate].
    injection H as <- <-. exists "", ps0, (String c s). cbn. auto.
  - injection Hs as <- <-. unfold rep_more in H.
    destruct (rep cls greedy k s (Nat.pred least)) as [[[|m ps0] r0]|] eqn:E;
      try discriminate.
    injection H as <- <-.
    destruct (IH _ _ _ E) as (m' & ps' & s' & Hps & -> & Hm & Hleast & Hk).
    injection Hps as <- <-.
    exists (String c m), ps0, s'. cbn [append every String.length].
    rewrite Hc, Hm. repeat split; auto. lia.
Qed.

Lemma match_here_pieces (ci : bool) (r : list atom) :
  forall s ps rest,
    match_here ci r s = Some (ps, rest) -> Forall2 (piece_ok ci) r ps.
Proof.
  induction r as [|a r IH]; intros s ps rest; cbn [match_here].
  - intros H. injection H as <- <-. constructor.
  - destruct a as [l|cls|cls|cls least greedy].
    + destruct (strip ci l s) as [[m s']|] eqn:E; [|discriminate].
      destruct (match_here ci r s') as [[ps' rest']|] eqn:E'; [|discriminate].
      intros H. injection H as <- <-. constructor; [|eapply IH; eassumption].
      cbn [piece_ok]. eapply strip_lit_match; eassumption.
    + destruct s as [|c s']; [discriminate|]. destruct (cls c) eqn:Ec; [|discriminate].
      destruct (match_here ci r s') as [[ps' rest']|] eqn:E'; [|discriminate].
      intros H. injection H as <- <-. constructor; [|eapply IH; eassumption].
      cbn [piece_ok]. eauto.
    + assert (Hskip : forall x,
                 match match_here ci r s with
                 | Some (ps0, rest0) => Some (EmptyString :: ps0, rest0)
                 | None => None
                 end = Some x -> Forall2 (piece_ok ci) (Opt cls :: r) (fst x)).
      { intros x. destruct (match_here ci r s) as [[ps0 rest0]|] eqn:E; [|discriminate].
        intros H. injection H as <-. cbn [fst]. constructor; [|eapply IH; eassumption].
        cbn [piece_ok]. now left. }
      destruct s as [|c s']; [apply (Hskip (ps, rest))|].
      destruct (cls c) eqn:Ec; [|apply (Hskip (ps, rest))].
      destruct (match_here ci r s') as [[ps' rest']|] eqn:E'; [|apply (Hskip (ps, rest))].
      intros H. injection H as <- <-. constructor; [|eapply IH; eassumption].
      cbn [piece_ok]. eauto.
    + intros H. apply rep_split in H.
      destruct H as (m & ps' & s' & -> & -> & Hm & Hleast & Hk).
      constructor; [|eapply IH; eassumption]. cbn [piece_ok]. auto.
Qed.

(** The matcher finds a match whenever the text can be cut into pieces
    that the atoms match. *)
Lemma match_here_complete (ci : bool) (r : list atom) :
  forall ps rest,
    Forall2 (piece_ok ci) r ps ->
    match_here ci r (concat_all ps ++ rest)%string <> None.
Proof.
  induction r as [|a r IH]; intros ps rest H; inversion H as [|? m ? ps' Ha Hr]; subst.
  - discriminate.
  - specialize (IH ps' rest Hr). cbn [concat_all]. rewrite app_assoc_s.
    destruct a as [l|cls|cls|cls least greedy]; cbn [piece_ok] in Ha.
    + cbn [match_here]. rewrite lit_match_strip by assumption.
      destruct (match_here ci r _) as [[? ?]|]; congruence.
    + destruct Ha as (c & -> & Hc). cbn [append match_here]. rewrite Hc.
      destruct (match_here ci r _) as [[? ?]|]; congruence.
    + destruct Ha as [->|(c & -> & Hc)]; cbn [append match_here].
      * destruct (match_here ci r (concat_all ps' ++ rest)%string) as [[ps0 r0]|] eqn:E;
          [|congruence].
        destruct (concat_all ps' ++ rest)%string as [|c s'] eqn:Es; [discriminate|].
        destruct (cls c); [|discriminate].
        destruct (match_here ci r s') as [[? ?]|]; discriminate.
      * rewrite Hc. destruct (match_here ci r _) as [[? ?]|] eqn:E; [discriminate|].
        congruence.
    + destruct Ha as [Hm Hleast]. cbn [match_here]. now apply rep_complete.
Qed.

End Pieces.

(** ** The tokens of a scan *)

Lemma drop_app (m r : string) : drop (String.length m) (m ++ r) = r.
Proof. induction m as [|c m IH]; cbn [String.length append drop]; auto. Qed.

Lemma length_zero_s (s : string) : String.length s = 0 -> s = "".
Proof. destruct s; [reflexivity|discriminate]. Qed.

(** The tokens of a scan spell the subject. *)
Lemma scan_text (re : regex) (s : string) :
  forall skip before,
    concat_all (map token_text (scan re skip before s)) = drop skip s.
Proof.
  induction s as [|c s IH]; intros skip before.
  - destruct skip as [|k]; cbn [scan drop]; [|reflexivity].
    destruct (match_here (icase re) (atoms re) "") as [[ps rest]|] eqn:E; [|reflexivity].
    apply match_here_sound in E. cbn [map token_text concat_all].
    rewrite app_nil_r_s. destruct (concat_all ps); [reflexivity|discriminate].
  - destruct skip as [|k]; cbn [scan drop]; [|apply IH].
    destruct (match_here (icase re) (atoms re) (String c s)) as [[ps rest]|] eqn:E.
    + apply match_here_sound in E.
      destruct (String.length (concat_all ps)) as [|k] eqn:El;
        cbn [map token_text concat_all].
      * rewrite (length_zero_s _ El), IH. reflexivity.
      * rewrite IH. destruct (concat_all ps) as [|x m]; [discriminate|].
        cbn [append] in E. injection E as <- ->. cbn [String.length] in El.
        injection El as <-. cbn [append]. now rewrite drop_app.
    + cbn [map token_text concat_all append]. now rewrite IH.
Qed.

(** ** Escaping *)

Lemma flat_map_s_app (f : ascii -> string) (a b : string) :
  flat_map_s f (a ++ b) = flat_map_s f a ++ flat_map_s f b.
Proof.
  induction a as [|c a IH]; cbn [append flat_map_s]; [reflexivity|].
  now rewrite IH, app_assoc_s.
Qed.

Lemma flat_map_s_compose (f g : ascii -> string) (s : string) :
  flat_map_s g (flat_map_s f s) = flat_map_s (fun c => flat_map_s g (f c)) s.
Proof.
  induction s as [|c s IH]; cbn [flat_map_s]; [reflexivity|].
  now rewrite flat_map_s_app, IH.
Qed.

Lemma flat_map_s_ext (f g : ascii -> string) (s : string) :
  (forall c, f c = g c) -> flat_map_s f s = flat_map_s g s.
Proof.
  intros H. induction s as [|c s IH]; cbn [flat_map_s]; [reflexivity|].
  now rewrite H, IH.
Qed.

Lemma every_flat_map_s (p : ascii -> bool) (f : ascii -> string) (s : string) :
  (forall c, every p (f c) = true) -> every p (flat_map_s f s) = true.
Proof.
  intros H. induction s as [|c s IH]; cbn [flat_map_s]; [reflexivity|].
  now rewrite every_app, H, IH.
Qed.

(** Replacing every occurrence of one character by a text without a
    dollar sign. *)
Lemma replace_all_char_from (c : ascii) (t s : string) :
  every not_dollar t = true ->
  forall before,
    concat_all
      (map (fun tok =>
              match tok with
              | Text x => String x ""
              | Hit pre ps post =>
                  expand (captures (literal (String c "")) ps) (concat_all ps)
                         pre post t
              end)
           (scan (literal (String c "")) 0 before s))
    = flat_map_s (fun x => if (c =? x)%char then t else String x "") s.
Proof.
  intros Ht. induction s as [|x s IH]; intros before; [reflexivity|].
  cbn [scan literal atoms icase match_here strip flat_map_s]. unfold char_eq.
  destruct (c =? x)%char; cbn [match_here concat_all append String.length map].
  - rewrite expand_plain by assumption. f_equal. apply IH.
  - f_equal. apply IH.
Qed.

Lemma replace_all_char (c : ascii) (t s : string) :
  every not_dollar t = true ->
  replace_all (literal (String c "")) t s
  = flat_map_s (fun x => if (c =? x)%char then t else String x "") s.
Proof. intros Ht. unfold replace_all. now apply replace_all_char_from. Qed.

Lemma escapeHTML_flat (text : string) : escapeHTML text = flat_map_s entity text.
Proof.
  unfold escapeHTML. destruct (truthy text) eqn:Et; cbn [negb].
  - unfold dq. rewrite !replace_all_char by reflexivity.
    rewrite !flat_map_s_compose. apply flat_map_s_ext. intros c.
    destruct c as [b0 b1 b2 b3 b4 b5 b6 b7].
    destruct b0, b1, b2, b3, b4, b5, b6, b7; reflexivity.
  - unfold truthy in Et. apply negb_false_iff, String.eqb_eq in Et. now subst text.
Qed.

Ltac classify c :=
  let E := fresh "E" in
  destruct (c =? "&")%char eqn:E; [apply Ascii.eqb_eq in E; subst c|];
  [|let E := fresh "E" in
    destruct (c =? "<")%char eqn:E; [apply Ascii.eqb_eq in E; subst c|];
    [|let E := fresh "E" in
      destruct (c =? ">")%char eqn:E; [apply Ascii.eqb_eq in E; subst c|];
      [|let E := fresh "E" in
        destruct (c =? "034")%char eqn:E; [apply Ascii.eqb_eq in E; subst c|];
        [|let E := fresh "E" in
          destruct (c =? "'")%char eqn:E; [apply Ascii.eqb_eq in E; subst c|]]]]].

Lemma entity_cut (x y : ascii) (a b : string) :
  entity x ++ a = entity y ++ b -> x = y /\ a = b.
Proof.
  unfold entity. classify x; classify y; cbn [append]; intros H;
    try (injection H as H; subst; auto; fail);
    try (injection H; intros; subst; discriminate).
Qed.

Lemma entity_markup_free (c : ascii) : every markup_free (entity c) = true.
Proof.
  destruct c as [b0 b1 b2 b3 b4 b5 b6 b7].
  destruct b0, b1, b2, b3, b4, b5, b6, b7; reflexivity.
Qed.

(** [escapeHTML] replaces each ampersand, angle bracket and quote
    character by its entity and keeps every other character: the result
    holds no angle bracket and no quote character, a text without the five
    characters is returned as it is, and two different texts have
    different results. *)
Theorem escapeHTML_entities (text : string) :
  escapeHTML text = flat_map_s entity text
  /\ every markup_free (escapeHTML text) = true
  /\ (every (fun c => markup_free c && negb (c =? "&")%char) text = true ->
      escapeHTML text = text)
  /\ (forall other, escapeHTML text = escapeHTML other -> text = other).
Proof.
  split; [apply escapeHTML_flat|]. split; [|split].
  - rewrite escapeHTML_flat. apply every_flat_map_s, entity_markup_free.
  - rewrite escapeHTML_flat. induction text as [|c text IH]; cbn [every flat_map_s];
      [reflexivity|].
    rewrite andb_true_iff. intros [Hc Ht]. rewrite (IH Ht).
    unfold markup_free in Hc. unfold entity.
    repeat (apply andb_true_iff in Hc; destruct Hc as [Hc ?]).
    repeat match goal with
           | H : negb _ = true |- _ => apply negb_true_iff in H; rewrite H
           end.
    reflexivity.
  - intros other. rewrite !escapeHTML_flat. revert other.
    induction text as [|c text IH]; intros [|d other]; cbn [flat_map_s].
    + reflexivity.
    + intros H. exfalso. unfold entity in H. classify d; discriminate.
    + intros H. exfalso. unfold entity in H. classify c; discriminate.
    + intros H. apply entity_cut in H. destruct H as [-> H]. f_equal. now apply IH.
Qed.

(** ** Deleting matches *)

Lemma deleted_from_refl (s : string) : deleted_from s s.
Proof. induction s; constructor; assumption. Qed.

Lemma deleted_from_all (s : string) : deleted_from "" s.
Proof. induction s; constructor; assumption. Qed.

Lemma deleted_from_app (a b a' b' : string) :
  deleted_from a b -> deleted_from a' b' -> deleted_from (a ++ a') (b ++ b').
Proof.
  intros H H'. induction H; cbn [append]; [assumption| |]; constructor; assumption.
Qed.

Lemma deleted_from_length (a b : string) :
  deleted_from a b -> String.length a <= String.length b.
Proof. induction 1; cbn [String.length]; lia. Qed.

Lemma deleted_from_trans (a b c : string) :
  deleted_from a b -> deleted_from b c -> deleted_from a c.
Proof.
  intros Hab Hbc. revert a Hab.
  induction Hbc as [|x b c Hbc IH|x b c Hbc IH]; intros a Hab.
  - exact Hab.
  - inversion Hab; subst.
    + constructor. now apply IH.
    + apply deleted_drop. now apply IH.
  - apply deleted_drop. now apply IH.
Qed.

(** Replacing every match by nothing deletes characters and does nothing
    else. *)
Lemma replace_all_deletes (re : regex) (s : string) :
  deleted_from (replace_all re "" s) s.
Proof.
  unfold replace_all. rewrite <- (scan_text re s 0 "") at 2. cbn [drop].
  induction (scan re 0 "" s) as [|t ts IH]; cbn [map concat_all]; [constructor|].
  apply deleted_from_app; [|exact IH].
  destruct t as [c|pre ps post]; cbn [token_text expand].
  - apply deleted_from_refl.
  - apply deleted_from_all.
Qed.

(** ** Replacing matches by themselves *)

Lemma scan_hits (re : regex) (s : string) :
  forall skip before pre ps post,
    In (Hit pre ps post) (scan re skip before s) ->
    exists s', match_here (icase re) (atoms re) s' = Some (ps, post).
Proof.
  induction s as [|c s IH]; intros skip before pre ps post.
  - destruct skip as [|k]; cbn [scan]; [|intros []].
    destruct (match_here (icase re) (atoms re) "") as [[ps0 rest0]|] eqn:E; [|intros []].
    intros [H|[]]. injection H as _ <- <-. eauto.
  - destruct skip as [|k]; cbn [scan]; [|apply IH].
    destruct (match_here (icase re) (atoms re) (String c s)) as [[ps0 rest0]|] eqn:E.
    + destruct (String.length (concat_all ps0)).
      * intros [H|[H|H]]; [injection H as _ <- <-; eauto|discriminate|eapply IH; eassumption].
      * intros [H|H]; [injection H as _ <- <-; eauto|eapply IH; eassumption].
    + intros [H|H]; [discriminate|eapply IH; eassumption].
Qed.

Lemma replace_all_same (re : regex) (t s : string) :
  (forall s' ps post,
      match_here (icase re) (atoms re) s' = Some (ps, post) ->
      forall pre, expand (captures re ps) (concat_all ps) pre post t = concat_all ps) ->
  replace_all re t s = s.
Proof.
  intros Hsame. unfold replace_all. rewrite <- (scan_text re s 0 "") at 2. cbn [drop].
  pose proof (scan_hits re s 0 "") as Hhits.
  induction (scan re 0 "" s) as [|tok ts IH]; cbn [map concat_all]; [reflexivity|].
  f_equal.
  - destruct tok as [c|pre ps post]; cbn [token_text]; [reflexivity|].
    destruct (Hhits pre ps post (or_introl eq_refl)) as [s' Hs'].
    eapply Hsame; eassumption.
  - apply IH. intros pre ps post Hin. apply (Hhits pre ps post). now right.
Qed.

Lemma lit_match_exact (l m : string) : lit_match false l m = true -> m = l.
Proof.
  revert m. induction l as [|c l IH]; intros [|b m]; cbn [lit_match]; try discriminate.
  - reflexivity.
  - unfold char_eq. rewrite andb_true_iff. intros [Hc Hm].
    apply Ascii.eqb_eq in Hc. subst b. f_equal. now apply IH.
Qed.

(** The last step of [processItemDescription] replaces each match by
    itself. *)
Lemma srcRegex_same (s : string) :
  replace_all srcRegex (q "src=`/$1`") s = s.
Proof.
  apply replace_all_same. intros s' ps post Hm pre.
  apply match_here_pieces in Hm. cbn [srcRegex atoms icase] in Hm.
  inversion Hm as [|a1 m1 r1 ps1 H1 Hm1]; subst.
  inversion Hm1 as [|a2 m2 r2 ps2 H2 Hm2]; subst.
  inversion Hm2 as [|a3 m3 r3 ps3 H3 Hm3]; subst.
  inversion Hm3; subst. cbn [piece_ok] in H1, H3.
  apply lit_match_exact in H1, H3. subst m1 m3.
  unfold captures, capture. cbn [srcRegex groups map fst snd skipn firstn concat_all].
  rewrite app_nil_r_s.
  change (q "src=`/$1`") with (q "src=`/" ++ "$1" ++ dq).
  rewrite expand_plain_prefix by reflexivity. reflexivity.
Qed.

(** ** Text that holds no match *)

Lemma scan_no_match (re : regex) (safe : ascii -> bool) (t s : string) :
  (forall s', every safe s' = true ->
              match_here (icase re) (atoms re) s' = None) ->
  every safe s = true -> replace_all re t s = s.
Proof.
  intros Hnone Hs. unfold replace_all. generalize "" at 2 as before.
  induction s as [|c s IH]; intros before.
  - cbn [scan]. now rewrite (Hnone "" eq_refl).
  - cbn [scan]. rewrite (Hnone _ Hs). cbn [map concat_all append]. f_equal.
    cbn [every] in Hs. apply andb_true_iff in Hs. now apply IH.
Qed.

Lemma fold_case_lt (b : ascii) : char_eq true "<" b = true -> b = "<"%char.
Proof.
  destruct b as [b0 b1 b2 b3 b4 b5 b6 b7].
  destruct b0, b1, b2, b3, b4, b5, b6, b7; (reflexivity || discriminate).
Qed.

Lemma fold_case_dq (b : ascii) : char_eq true "034" b = true -> b = "034"%char.
Proof.
  destruct b as [b0 b1 b2 b3 b4 b5 b6 b7].
  destruct b0, b1, b2, b3, b4, b5, b6, b7; (reflexivity || discriminate).
Qed.

Section PlainText.
Local Open Scope list_scope.

(** A match whose first atom is a literal that starts with an opening
    angle bracket begins with that character. *)
Lemma tag_needs_bracket (l : string) (r : list atom) (s : string) :
  every plain_char s = true ->
  match_here true (Lit (String "<" l) :: r) s = None.
Proof.
  intros Hs. cbn [match_here strip]. destruct s as [|b s]; [reflexivity|].
  destruct (char_eq true "<" b) eqn:E; [|reflexivity].
  apply fold_case_lt in E. subst b. discriminate.
Qed.

Lemma handler_needs_quote (s : string) :
  every plain_char s = true ->
  match_here (icase handlerRegex) (atoms handlerRegex) s = None.
Proof.
  intros Hs. destruct (match_here _ _ s) as [[ps rest]|] eqn:E; [|reflexivity].
  exfalso. pose proof (match_here_sound _ _ _ E) as Hsound.
  apply match_here_pieces in E. cbn [handlerRegex atoms icase] in E.
  inversion E as [|a1 m1 r1 ps1 H1 E1]; subst.
  inversion E1 as [|a2 m2 r2 ps2 H2 E2]; subst.
  inversion E2 as [|a3 m3 r3 ps3 H3 E3]; subst.
  clear E E1 E2 E3. cbn [piece_ok] in H3.
  cbn [concat_all] in Hs. rewrite !every_app in Hs.
  apply andb_true_iff in Hs. destruct Hs as [Hs _].
  apply andb_true_iff in Hs. destruct Hs as [_ Hs].
  apply andb_true_iff in Hs. destruct Hs as [_ Hs].
  apply andb_true_iff in Hs. destruct Hs as [Hs _].
  destruct m3 as [|b1 [|b2 m3]]; cbn [lit_match q] in H3;
    [discriminate | rewrite andb_false_r in H3; discriminate |].
  apply andb_true_iff in H3. destruct H3 as [_ H3].
  apply andb_true_iff in H3. destruct H3 as [H3 _].
  apply fold_case_dq in H3. subst b2.
  cbn [every] in Hs. rewrite andb_true_iff in Hs. destruct Hs as [_ Hs].
  rewrite andb_true_iff in Hs. destruct Hs as [Hs _]. discriminate.
Qed.

End PlainText.

(** [processItemDescription] deletes text and does nothing else: its
    last step, the rewriting of the src attributes, replaces each match by
    itself, so the result is the description without the script blocks,
    iframe blocks and event handlers that the three expressions match,
    never longer than the description; and a description that holds no
    opening angle bracket and no double quote is returned as it is. *)
Theorem processItemDescription_deletes_only (description : string) :
  processItemDescription description
  = replace_all handlerRegex ""
      (replace_all iframeRegex "" (replace_all scriptRegex "" description))
  /\ deleted_from (processItemDescription description) description
  /\ String.length (processItemDescription description)
     <= String.length description
  /\ (every plain_char description = true ->
      processItemDescription description = description).
Proof.
  assert (Heq : processItemDescription description
                = replace_all handlerRegex ""
                    (replace_all iframeRegex ""
                       (replace_all scriptRegex "" description))).
  { unfold processItemDescription. destruct (truthy description) eqn:Et; cbn [negb].
    - apply srcRegex_same.
    - unfold truthy in Et. apply negb_false_iff, String.eqb_eq in Et.
      subst description. reflexivity. }
  assert (Hdel : deleted_from (processItemDescription description) description).
  { rewrite Heq.
    eapply deleted_from_trans; [apply replace_all_deletes|].
    eapply deleted_from_trans; apply replace_all_deletes. }
  split; [exact Heq|]. split; [exact Hdel|]. split.
  - now apply deleted_from_length.
  - intros Hplain. rewrite Heq.
    rewrite (scan_no_match scriptRegex plain_char "" description); [|
      intros s' Hs'; now apply tag_needs_bracket | assumption].
    rewrite (scan_no_match iframeRegex plain_char "" description); [|
      intros s' Hs'; now apply tag_needs_bracket | assumption].
    apply (scan_no_match handlerRegex plain_char); [|assumption].
    intros s' Hs'. now apply handler_needs_quote.
Qed.

(** ** The links read from a page *)

Section KnownLinks.
Local Open Scope list_scope.

(** The text of a group that is one repeated class. *)
Lemma capture_repeated (ci : bool) (r : list atom) (ps : list string) :
  Forall2 (piece_ok ci) r ps ->
  forall i cls least greedy,
    nth_error r i = Some (Rep cls least greedy) ->
    every cls (capture ps (i, 1)) = true
    /\ least <= String.length (capture ps (i, 1)).
Proof.
  unfold capture. cbn [fst snd].
  induction 1 as [|a m r ps Ha Hr IH]; intros i cls least greedy Hi.
  - destruct i; discriminate.
  - destruct i as [|i]; cbn [nth_error skipn] in *.
    + injection Hi as ->. cbn [piece_ok] in Ha. cbn [firstn concat_all].
      now rewrite app_nil_r_s.
    + eapply IH; eassumption.
Qed.

Lemma firstGroup_h2 (s l : string) :
  firstGroup h2LinkRegex s = Some l ->
  every not_quote l = true /\ 1 <= String.length l.
Proof.
  unfold firstGroup. destruct (search h2LinkRegex s) as [[[pre ps] post]|] eqn:E;
    [|discriminate].
  intros H. injection H as <-. apply search_sound in E. destruct E as [_ E].
  apply match_here_pieces in E.
  apply (@capture_repeated _ _ _ E 9 not_quote 1 true eq_refl).
Qed.

Lemma anyLink_groups (s : string) (ps : list string) :
  In ps (matches anyLinkRegex s) ->
  every not_quote (nth 0 (captures anyLinkRegex ps) "") = true
  /\ 1 <= String.length (nth 0 (captures anyLinkRegex ps) "").
Proof.
  unfold matches. intros Hin. apply in_flat_map in Hin.
  destruct Hin as ([c|pre ps' post] & Htok & Hin); [contradiction|].
  destruct Hin as [<-|[]]. apply scan_hits in Htok. destruct Htok as [s' Hm].
  apply match_here_pieces in Hm.
  apply (@capture_repeated _ _ _ Hm 5 not_quote 1 true eq_refl).
Qed.

Lemma articleLink_text (articleContent l : string) :
  articleLink articleContent = Some l ->
  every not_quote l = true /\ 1 <= String.length l.
Proof.
  unfold articleLink.
  destruct (firstGroup h2LinkRegex articleContent) as [h2|] eqn:E.
  - intros H. injection H as <-. now apply (@firstGroup_h2 articleContent).
  - intros H.
    assert (Hin : In l (filter (fun l => truthy l && negb (startsWithHash l))
                               (map (fun ps => nth 0 (captures anyLinkRegex ps) "")
                                    (matches anyLinkRegex articleContent)))).
    { destruct (filter _ _) as [|x xs]; [discriminate|]. injection H as <-. now left. }
    apply filter_In in Hin. destruct Hin as [Hin _]. apply in_map_iff in Hin.
    destruct Hin as (ps & <- & Hps). eapply anyLink_groups; eassumption.
Qed.

Lemma add_outcome (x : string) (links : list string) :
  NoDup links ->
  NoDup (add x links)
  /\ List.length (add x links) <= S (List.length links)
  /\ (forall l, In l (add x links) <-> l = x \/ In l links).
Proof.
  intros Hnd. unfold add. destruct (existsb (String.eqb x) links) eqn:E.
  - split; [exact Hnd|]. split; [lia|]. intros l. split; [auto|].
    intros [->|H]; [|exact H]. apply existsb_exists in E.
    destruct E as (y & Hy & Heq). apply String.eqb_eq in Heq. now subst.
  - split; [|split].
    + apply NoDup_app; [exact Hnd|repeat constructor; intros []|].
      intros y Hy [Heq|[]]. subst y.
      assert (Hex : existsb (String.eqb x) links = true).
      { apply existsb_exists. exists x. split; [exact Hy|apply String.eqb_refl]. }
      congruence.
    + rewrite length_app. cbn [List.length]. lia.
    + intros l. rewrite in_app_iff. cbn [In]. intuition congruence.
Qed.

(** [extractExistingLinks]: the links read from a page are distinct, at
    most one per article block; each is the text of an href attribute up
    to its first quote character, so it is not empty and holds no quote
    character.  Hence [filterNewItems] keeps, against the links of any
    page, every dated item whose link is empty or holds a quote
    character. *)
Theorem extractExistingLinks_quote_free (htmlContent : string) :
  NoDup (extractExistingLinks htmlContent)
  /\ List.length (extractExistingLinks htmlContent)
     <= count_matches articleRegex htmlContent
  /\ (forall l, In l (extractExistingLinks htmlContent) ->
        l <> "" /\ every not_quote l = true)
  /\ (forall (T : Type) (lastDate : option T) newItems item,
        In item newItems -> pubDate item <> None ->
        link item = "" \/ every not_quote (link item) = false ->
        In item (filterNewItems newItems lastDate
                                (extractExistingLinks htmlContent))).
Proof.
  cut (NoDup (extractExistingLinks htmlContent)
       /\ List.length (extractExistingLinks htmlContent)
          <= count_matches articleRegex htmlContent
       /\ (forall l, In l (extractExistingLinks htmlContent) ->
             l <> "" /\ every not_quote l = true)).
  { intros (H1 & H2 & H3). split; [exact H1|]. split; [exact H2|].
    split; [exact H3|]. intros T lastDate newItems item Hin Hdate Hlink.
    unfold filterNewItems. apply filter_In. split; [exact Hin|].
    destruct (pubDate item); [|congruence].
    destruct (has (extractExistingLinks htmlContent) (link item)) eqn:Hhas;
      [|reflexivity].
    exfalso. unfold has in Hhas. apply existsb_exists in Hhas.
    destruct Hhas as (l & Hl & Heq). apply String.eqb_eq in Heq. subst l.
    destruct (H3 _ Hl) as [Hne Hq]. destruct Hlink as [He|Hquote];
      congruence. }
  unfold extractExistingLinks, count_matches.
  assert (H : forall articles links,
             NoDup links ->
             (forall l, In l links -> l <> "" /\ every not_quote l = true) ->
             let result :=
               fold_left
                 (fun links ps =>
                    match articleLink (nth 0 (captures articleRegex ps) "") with
                    | Some l => add l links
                    | None => links
                    end)
                 articles links in
             NoDup result
             /\ List.length result <= List.length links + List.length articles
             /\ (forall l, In l result -> l <> "" /\ every not_quote l = true)).
  { induction articles as [|ps articles IH]; intros links Hnd Hok; cbn zeta;
      cbn [fold_left List.length].
    - split; [exact Hnd|]. split; [lia|exact Hok].
    - destruct (articleLink _) as [l|] eqn:E.
      + destruct (@add_outcome l links Hnd) as (Hnd' & Hlen & Hmem).
        destruct (IH (add l links) Hnd') as (H1 & H2 & H3).
        * intros x Hx. apply Hmem in Hx. destruct Hx as [->|Hx]; [|now apply Hok].
          apply articleLink_text in E. destruct E as [Hq Hl].
          split; [|exact Hq]. intros ->. cbn in Hl. lia.
        * cbn zeta in H1, H2, H3. split; [exact H1|]. split; [lia|exact H3].
      + destruct (IH links Hnd Hok) as (H1 & H2 & H3).
        cbn zeta in H1, H2, H3. split; [exact H1|]. split; [lia|exact H3]. }
  destruct (H (matches articleRegex htmlContent) [] (NoDup_nil _)) as (H1 & H2 & H3);
    [intros l []|].
  cbn zeta in H1, H2, H3. cbn [List.length] in H2. auto.
Qed.

End KnownLinks.

(** ** The name of a monthly page *)

Lemma digit_not_dash (c : ascii) : is_digit c = true -> (c =? "-")%char = false.
Proof.
  intros H. destruct (c =? "-")%char eqn:E; [|reflexivity].
  apply Ascii.eqb_eq in E. subst c. discriminate.
Qed.

Ltac try_digits :=
  repeat (first [ progress cbn [match_here strip]
                | match goal with
                  | H : is_digit ?c = true |- context [is_digit ?c] => rewrite H
                  end ]).

(** [createMonthly], [isMonthlyOutput] and [getYearMonth]: the file made
    for a key of the form YYYY-MM has the name YYYY/YYYY-MM.html, is
    recognised as a monthly output, and gives the key back. *)
Theorem createMonthly_recognised (yearMonth outputDir content : string)
    (itemCount : nat) (outputFile : OutputFile.t) :
  is_year_month yearMonth = true ->
  OutputFile.createMonthly yearMonth outputDir content itemCount = inr outputFile ->
  OutputFile.filename outputFile = before_dash yearMonth ++ "/" ++ yearMonth ++ ".html"
  /\ OutputFile.content outputFile = content
  /\ OutputFile.isMonthlyOutput outputFile = true
  /\ OutputFile.getYearMonth outputFile = Some yearMonth.
Proof.
  intros Hkey Hfile.
  assert (Hf : outputFile
               = OutputFile.mk (before_dash yearMonth ++ "/" ++ yearMonth ++ ".html")
                               content itemCount).
  { unfold OutputFile.createMonthly, OutputFile.create in Hfile.
    destruct (negb _); [discriminate|]. destruct (_ =? 0)%nat; [discriminate|].
    destruct (negb _); [discriminate|]. destruct (_ =? 0)%nat; [discriminate|].
    now injection Hfile as <-. }
  subst outputFile. split; [reflexivity|]. split; [reflexivity|].
  destruct yearMonth as [|y1 [|y2 [|y3 [|y4 [|d [|m1 [|m2 [|? ?]]]]]]]];
    try discriminate.
  cbn [is_year_month] in Hkey.
  apply andb_true_iff in Hkey; destruct Hkey as [Hkey Hm2].
  apply andb_true_iff in Hkey; destruct Hkey as [Hkey Hm1].
  apply andb_true_iff in Hkey; destruct Hkey as [Hkey Hd].
  apply andb_true_iff in Hkey; destruct Hkey as [Hkey Hy4].
  apply andb_true_iff in Hkey; destruct Hkey as [Hkey Hy3].
  apply andb_true_iff in Hkey; destruct Hkey as [Hy1 Hy2].
  apply Ascii.eqb_eq in Hd. subst d.
  unfold OutputFile.isMonthlyOutput, OutputFile.getYearMonth.
  cbn [OutputFile.filename before_dash].
  rewrite (@digit_not_dash y1), (@digit_not_dash y2), (@digit_not_dash y3),
    (@digit_not_dash y4) by assumption.
  cbn [Ascii.eqb Bool.eqb append].
  split.
  - unfold OutputFile.monthlyNameAtoms. try_digits.
    change (char_eq true "/" "/") with true. try_digits.
    change (char_eq true "-" "-") with true. try_digits.
    reflexivity.
  - assert (Hskip : forall c s,
              match_here true OutputFile.yearMonthAtoms (String c s) = None ->
              OutputFile.match_to_end OutputFile.yearMonthAtoms (String c s)
              = OutputFile.match_to_end OutputFile.yearMonthAtoms s).
    { intros c s H. cbn [OutputFile.match_to_end]. now rewrite H. }
    rewrite Hskip by
      (unfold OutputFile.yearMonthAtoms; try_digits;
       change (char_eq true "-" "/") with false; reflexivity).
    rewrite Hskip by
      (unfold OutputFile.yearMonthAtoms; try_digits;
       change (is_digit "/") with false; reflexivity).
    rewrite Hskip by
      (unfold OutputFile.yearMonthAtoms; try_digits;
       change (is_digit "/") with false; reflexivity).
    rewrite Hskip by
      (unfold OutputFile.yearMonthAtoms; try_digits;
       change (is_digit "/") with false; reflexivity).
    rewrite Hskip by
      (unfold OutputFile.yearMonthAtoms; cbn [match_here];
       change (is_digit "/") with false; reflexivity).
    assert (Hhere : forall s ps,
              match_here true OutputFile.yearMonthAtoms s = Some (ps, "") ->
              OutputFile.match_to_end OutputFile.yearMonthAtoms s = Some ps).
    { intros s ps H. destruct s; cbn [OutputFile.match_to_end]; now rewrite H. }
    rewrite (Hhere _ [String y1 ""; String y2 ""; String y3 ""; String y4 "";
                      "-"; String m1 ""; String m2 ""; ".html"]);
      [reflexivity|].
    unfold OutputFile.yearMonthAtoms.
    try_digits. change (char_eq true "-" "-") with true. try_digits.
    reflexivity.
Qed.

Lemma createMonthly_recognised_witness :
  is_year_month "2024-12" = true
  /\ OutputFile.createMonthly "2024-12" "/out" "<p>A</p>" 1
     = inr (OutputFile.mk "2024/2024-12.html" "<p>A</p>" 1)
  /\ OutputFile.isMonthlyOutput (OutputFile.mk "2024/2024-12.html" "<p>A</p>" 1)
     = true
  /\ OutputFile.getYearMonth (OutputFile.mk "2024/2024-12.html" "<p>A</p>" 1)
     = Some "2024-12".
Proof.
  split; [reflexivity|]. split; [reflexivity|].
  apply (@createMonthly_recognised "2024-12" "/out" "<p>A</p>" 1
           (OutputFile.mk "2024/2024-12.html" "<p>A</p>" 1) eq_refl eq_refl).
Defined.

(** ** A patched navigation and a regenerated one *)

Lemma test_step (re : regex) (c : ascii) (s : string) :
  match_here (icase re) (atoms re) (String c s) = None ->
  test re (String c s) = test re s.
Proof.
  intros H. unfold test. cbn [search]. rewrite H.
  destruct (search re s) as [[[pre ps] post]|]; reflexivity.
Qed.

Lemma test_skip (re : regex) (p : ascii -> bool) (x rest : string) :
  (forall c s, p c = true -> match_here (icase re) (atoms re) (String c s) = None) ->
  every p x = true -> test re (x ++ rest) = test re rest.
Proof.
  intros Hp. induction x as [|c x IH]; cbn [every append]; [reflexivity|].
  rewrite andb_true_iff. intros [Hc Hx]. rewrite test_step by now apply Hp.
  now apply IH.
Qed.

(** A literal of an expression occurs in the text of a match. *)
Lemma lit_occurs (r : list atom) (l : string) :
  In (Lit l) r ->
  forall s ps rest,
    match_here false r s = Some (ps, rest) -> test (literal l) s = true.
Proof.
  intros Hin s ps rest Hm.
  pose proof (match_here_sound _ _ _ Hm) as Hs.
  apply match_here_pieces in Hm.
  assert (H : exists a b, concat_all ps = a ++ l ++ b).
  { clear Hs. induction Hm as [|x m r ps Hx Hr IH]; [contradiction|].
    destruct Hin as [->|Hin].
    - cbn [piece_ok] in Hx.
      assert (m = l).
      { clear -Hx. revert m Hx. induction l as [|c l IHl]; intros [|b m];
          cbn [lit_match]; try discriminate; [reflexivity|].
        unfold char_eq. rewrite andb_true_iff. intros [Hc Hm].
        apply Ascii.eqb_eq in Hc. subst b. f_equal. now apply IHl. }
      subst m. exists "", (concat_all ps). reflexivity.
    - destruct (IH Hin) as (a & b & Hab). exists (m ++ a), b.
      cbn [concat_all]. now rewrite Hab, app_assoc_s. }
  destruct H as (a & b & Hab). rewrite Hs, Hab, !app_assoc_s.
  apply test_complete. cbn [literal atoms icase match_here].
  rewrite strip_prefix. discriminate.
Qed.

Lemma key_char_path_char (c : ascii) : key_char c = true -> path_char c = true.
Proof. unfold path_char. now intros ->. Qed.

Lemma generateRelativePath_path_chars (cur target : string) :
  every key_char target = true ->
  every path_char (generateRelativePath cur target) = true.
Proof.
  intros Ht.
  assert (Hp : every path_char target = true)
    by (eapply every_impl; [apply key_char_path_char|assumption]).
  unfold generateRelativePath. destruct (before_dash cur =? before_dash target).
  - now rewrite every_app, Hp.
  - rewrite !every_app, Hp, (every_before_dash _ _ Hp). reflexivity.
Qed.

Lemma path_char_inert (c : ascii) :
  path_char c = true -> (c =? "<")%char = false /\ (c =? "n")%char = false.
Proof.
  destruct c as [b0 b1 b2 b3 b4 b5 b6 b7].
  destruct b0, b1, b2, b3, b4, b5, b6, b7; cbn; intros H;
    (discriminate || (split; reflexivity)).
Qed.

Lemma nextLinkRegex_needs_bracket (c : ascii) (s : string) :
  path_char c = true ->
  match_here (icase nextLinkRegex) (atoms nextLinkRegex) (String c s) = None.
Proof.
  intros Hc. apply path_char_inert in Hc. destruct Hc as [Hc _].
  cbn [nextLinkRegex atoms icase match_here strip]. unfold char_eq.
  rewrite Ascii.eqb_sym, Hc. reflexivity.
Qed.

Lemma next_month_needs_n (c : ascii) (s : string) :
  path_char c = true ->
  match_here (icase (literal "next-month")) (atoms (literal "next-month"))
             (String c s) = None.
Proof.
  intros Hc. apply path_char_inert in Hc. destruct Hc as [_ Hc].
  cbn [literal atoms icase match_here strip]. unfold char_eq.
  rewrite Ascii.eqb_sym, Hc. reflexivity.
Qed.

Ltac eval_q :=
  unfold nl, dq;
  repeat match goal with
         | |- context [q ?s] =>
             let v := eval vm_compute in (q s) in change (q s) with v
         end.

Ltac step_over re :=
  eval_q;
  repeat (cbn [append];
          rewrite (@test_step re) by (vm_compute; reflexivity)).

(** The previous-month link is not taken for a next-month link. *)
Lemma prev_link_no_match (path prev : string) :
  every path_char path = true -> every path_char prev = true ->
  test nextLinkRegex
       (q "<a href=`" ++ path ++ q "` class=`prev-month`>" ++ prev
          ++ " &raquo;</a>" ++ nl ++ "</nav>")
  = false.
Proof.
  intros Hpath Hprev.
  assert (Hneedle : forall rest,
            rest = path ++ q "` class=`prev-month`>" ++ prev
                     ++ " &raquo;</a>" ++ nl ++ "</nav>" ->
            test (literal "next-month") (q "<a href=`" ++ rest) = false).
  { intros rest ->. step_over (literal "next-month").
    rewrite (test_skip (literal "next-month") path_char) by
      (assumption || (intros; now apply next_month_needs_n)).
    step_over (literal "next-month").
    rewrite (test_skip (literal "next-month") path_char) by
      (assumption || (intros; now apply next_month_needs_n)).
    step_over (literal "next-month"). reflexivity. }
  eval_q. cbn [append]. rewrite test_step.
  - step_over nextLinkRegex.
    rewrite (test_skip nextLinkRegex path_char) by
      (assumption || (intros; now apply nextLinkRegex_needs_bracket)).
    step_over nextLinkRegex.
    rewrite (test_skip nextLinkRegex path_char) by
      (assumption || (intros; now apply nextLinkRegex_needs_bracket)).
    step_over nextLinkRegex. reflexivity.
  - destruct (match_here _ _ _) as [[ps rest]|] eqn:E; [|reflexivity].
    exfalso.
    apply (@lit_occurs (atoms nextLinkRegex) "next-month") in E;
      [|cbn; auto 10].
    pose proof (eq_trans (eq_sym E) (Hneedle _ eq_refl)) as Habs. discriminate Habs.
Qed.
Lemma truthy_nonempty (s : string) : s <> "" -> truthy s = true.
Proof.
  intros H. unfold truthy. apply negb_true_iff. now apply String.eqb_neq.
Qed.

(** The navigation of a page that has a previous month: what differs with
    and without a next month is one line. *)
Lemma createMonthlyNavigation_shape (cur prev : string) (next : option string) :
  truthy prev = true ->
  createMonthlyNavigation cur (Some prev, next) generateRelativePath
  = (q "<nav class=`monthly-nav`>" ++ nl ++ "  ")
      ++ (if present next then nextLink cur (key_text next) else placeholder)
      ++ (nl ++ q "  <span class=`current-month`>" ++ cur ++ "</span>" ++ nl
            ++ "  " ++ q "<a href=`" ++ generateRelativePath cur prev
            ++ q "` class=`prev-month`>" ++ prev ++ " &raquo;</a>" ++ nl
            ++ "</nav>").
Proof.
  intros Hprev. unfold createMonthlyNavigation. cbn [fst snd present key_text].
  rewrite Hprev. cbn [negb andb]. unfold nextLink, placeholder.
  destruct (present next); rewrite !app_assoc_s; reflexivity.
Qed.

(** [updateNextLink] on the navigation that [createMonthlyNavigation]
    wrote: for keys made of digits and dashes, patching the navigation of
    a page that has a previous month and no next month gives the
    navigation that would be generated with the next month; the
    navigation of a page created without any neighbour is empty, and the
    patch leaves it empty. *)
Theorem updateNextLink_regenerates (cur prev next : string) :
  every key_char cur = true ->
  every key_char prev = true ->
  every key_char next = true ->
  prev <> "" -> next <> "" ->
  updateNextLink
    (createMonthlyNavigation cur (Some prev, None) generateRelativePath)
    next generateRelativePath cur
  = createMonthlyNavigation cur (Some prev, Some next) generateRelativePath
  /\ createMonthlyNavigation cur (None, None) generateRelativePath = ""
  /\ updateNextLink
       (createMonthlyNavigation cur (None, None) generateRelativePath)
       next generateRelativePath cur
     = ""
  /\ createMonthlyNavigation cur (None, Some next) generateRelativePath <> "".
Proof.
  intros Hcur Hprev Hnext Hp Hn.
  apply truthy_nonempty in Hp, Hn.
  split; [|split; [reflexivity|split; [reflexivity|]]].
  - rewrite !createMonthlyNavigation_shape by assumption.
    cbn [present key_text]. rewrite Hn.
    set (head := q "<nav class=`monthly-nav`>" ++ nl ++ "  ").
    set (tail := nl ++ q "  <span class=`current-month`>" ++ cur ++ "</span>" ++ nl
                   ++ "  " ++ q "<a href=`" ++ generateRelativePath cur prev
                   ++ q "` class=`prev-month`>" ++ prev ++ " &raquo;</a>" ++ nl
                   ++ "</nav>").
    assert (Hquiet : test nextLinkRegex (head ++ placeholder ++ tail) = false).
    { assert (Hcur' : every path_char cur = true)
        by (eapply every_impl; [apply key_char_path_char|assumption]).
      subst head tail. unfold placeholder. rewrite !app_assoc_s.
      step_over nextLinkRegex.
      rewrite (test_skip nextLinkRegex path_char) by
        (assumption || (intros; now apply nextLinkRegex_needs_bracket)).
      step_over nextLinkRegex.
      assert (Hprev' : every path_char prev = true)
        by (eapply every_impl; [apply key_char_path_char|assumption]).
      pose proof (@prev_link_no_match (generateRelativePath cur prev) prev
                    (@generateRelativePath_path_chars cur prev Hprev)
                    Hprev') as H.
      etransitivity; [|exact H]. reflexivity. }
    assert (Hfound : search disabledNextPattern (head ++ placeholder ++ tail)
                     = Some (head, [placeholder], tail)).
    { subst head. generalize tail as rest. intros rest. vm_compute. reflexivity. }
    unfold updateNextLink. rewrite Hquiet.
    unfold test. rewrite Hfound.
    fold (nextLink cur next). unfold replace_first. rewrite Hfound.
    rewrite expand_plain by now apply nextLink_plain. reflexivity.
  - unfold createMonthlyNavigation. cbn [fst snd present key_text].
    rewrite Hn. cbn [negb andb]. unfold q at 1. cbn [append]. discriminate.
Qed.

Lemma updateNextLink_regenerates_witness :
  every key_char "2024-12" = true
  /\ every key_char "2024-11" = true
  /\ every key_char "2025-01" = true
  /\ updateNextLink
       (createMonthlyNavigation "2024-12" (Some "2024-11", None) generateRelativePath)
       "2025-01" generateRelativePath "2024-12"
     = createMonthlyNavigation "2024-12" (Some "2024-11", Some "2025-01")
                               generateRelativePath.
Proof.
  split; [reflexivity|]. split; [reflexivity|]. split; [reflexivity|].
  apply (@updateNextLink_regenerates "2024-12" "2024-11" "2025-01");
    (reflexivity || discriminate).
Defined.

(** ** The link of an Atom feed or entry *)

Section AtomLinkFacts.

Variable number : Type.
Variable nonzero : number -> bool.

Lemma isText_other (a : RSSParser.attr number) (s t : string) :
  (s =? t) = false -> RSSParser.isText a s = true -> RSSParser.isText a t = false.
Proof.
  intros Hst. destruct a as [|x| |]; cbn [RSSParser.isText]; try discriminate.
  intros H. apply String.eqb_eq in H. subst x. exact Hst.
Qed.

Lemma hrefOf_usable (p : RSSParser.linkElement number -> bool)
    (links : list (RSSParser.linkElement number)) (url : RSSParser.attr number) :
  (forall l, p l = true -> RSSParser.isText (RSSParser.rel l) "next" = false) ->
  RSSParser.hrefOf nonzero (find p links) = Some url ->
  exists l, In l links /\ usable_link nonzero l = true /\ url = RSSParser.href l.
Proof.
  intros Hp H. unfold RSSParser.hrefOf in H.
  destruct (find p links) as [l|] eqn:Hfind; [|discriminate].
  destruct (RSSParser.truthyAttr nonzero (RSSParser.href l)) eqn:Hhref;
    [|discriminate].
  injection H as <-. apply find_some in Hfind. destruct Hfind as [Hin Hl].
  exists l. unfold usable_link. now rewrite Hhref, (Hp _ Hl).
Qed.

Lemma hrefOf_found (p : RSSParser.linkElement number -> bool)
    (links : list (RSSParser.linkElement number)) (l : RSSParser.linkElement number) :
  find p links = Some l ->
  RSSParser.truthyAttr nonzero (RSSParser.href l) = true ->
  RSSParser.hrefOf nonzero (find p links) = Some (RSSParser.href l).
Proof. intros -> H. cbn [RSSParser.hrefOf]. now rewrite H. Qed.

(** [extractAtomLink] on an array of links.  The answer is the empty
    string exactly when no element is usable, that is, has an href and
    is not a rel=next link; otherwise it is the href of a usable
    element.  The first alternate link wins when it has an href; when it
    has none, the first self link with an href is taken even if a later
    alternate link has an href. *)
Theorem extractAtomLink_of_array (links : list (RSSParser.linkElement number)) :
  let result := RSSParser.extractAtomLink nonzero (RSSParser.Elements links) in
  let alternate l := RSSParser.isText (RSSParser.rel l) "alternate" in
  let self l := RSSParser.isText (RSSParser.rel l) "self" in
  (existsb (usable_link nonzero) links = false -> result = RSSParser.Text number "")
  /\ (existsb (usable_link nonzero) links = true ->
      RSSParser.truthyAttr nonzero result = true
      /\ exists l, In l links /\ usable_link nonzero l = true
                   /\ result = RSSParser.href l)
  /\ (forall a, find alternate links = Some a ->
        RSSParser.truthyAttr nonzero (RSSParser.href a) = true ->
        result = RSSParser.href a)
  /\ (forall a s, find alternate links = Some a ->
        RSSParser.truthyAttr nonzero (RSSParser.href a) = false ->
        find self links = Some s ->
        RSSParser.truthyAttr nonzero (RSSParser.href s) = true ->
        result = RSSParser.href s).
Proof.
  intros result alternate self.
  set (any := fun l : RSSParser.linkElement number =>
                RSSParser.truthyAttr nonzero (RSSParser.href l)
                && (negb (RSSParser.truthyAttr nonzero (RSSParser.rel l))
                    || negb (RSSParser.isText (RSSParser.rel l) "next"))).
  assert (Hany : forall l, any l = usable_link nonzero l).
  { intros l. unfold any, usable_link. f_equal.
    destruct (RSSParser.rel l) as [|x| |]; cbn [RSSParser.isText RSSParser.truthyAttr];
      try (now rewrite orb_true_r).
    destruct (x =? "next") eqn:E; [|now rewrite orb_true_r].
    apply String.eqb_eq in E. subst x. reflexivity. }
  assert (Halt : forall l, alternate l = true ->
                           RSSParser.isText (RSSParser.rel l) "next" = false)
    by (intros l; now apply isText_other).
  assert (Hself : forall l, self l = true ->
                            RSSParser.isText (RSSParser.rel l) "next" = false)
    by (intros l; now apply isText_other).
  assert (Hthird : forall l, any l = true ->
                             RSSParser.isText (RSSParser.rel l) "next" = false).
  { intros l Hl. rewrite Hany in Hl. unfold usable_link in Hl.
    apply andb_true_iff in Hl. destruct Hl as [_ Hl].
    now apply negb_true_iff in Hl. }
  assert (Hcases :
            (exists l, In l links /\ usable_link nonzero l = true
                       /\ result = RSSParser.href l)
            \/ (result = RSSParser.Text number ""
                /\ forall l, In l links -> usable_link nonzero l = false)).
  { subst result. cbn [RSSParser.extractAtomLink]. fold alternate self any.
    destruct (RSSParser.hrefOf nonzero (find alternate links)) as [u|] eqn:E1.
    { left. now apply (hrefOf_usable _ _ Halt). }
    destruct (RSSParser.hrefOf nonzero (find self links)) as [u|] eqn:E2.
    { left. now apply (hrefOf_usable _ _ Hself). }
    destruct (RSSParser.hrefOf nonzero (find any links)) as [u|] eqn:E3.
    { left. now apply (hrefOf_usable _ _ Hthird). }
    right. split; [reflexivity|]. intros l Hin.
    destruct (find any links) as [x|] eqn:Hfind.
    - exfalso. pose proof (find_some _ _ Hfind) as [_ Hx].
      cbn [RSSParser.hrefOf] in E3. unfold any in Hx.
      apply andb_true_iff in Hx. destruct Hx as [Hx _]. rewrite Hx in E3.
      discriminate.
    - rewrite <- Hany. exact (find_none _ _ Hfind l Hin). }
  split; [|split; [|split]].
  - intros Hnone. destruct Hcases as [(l & Hin & Hl & _)|[H _]]; [|exact H].
    exfalso. assert (existsb (usable_link nonzero) links = true)
      by (apply existsb_exists; eauto). congruence.
  - intros Hsome. destruct Hcases as [(l & Hin & Hl & Hr)|[_ H]].
    + split; [|eauto]. rewrite Hr. unfold usable_link in Hl.
      apply andb_true_iff in Hl. tauto.
    + apply existsb_exists in Hsome. destruct Hsome as (l & Hin & Hl).
      rewrite (H l Hin) in Hl. discriminate.
  - intros a Ha Hhref. subst result. cbn [RSSParser.extractAtomLink].
    fold alternate. now rewrite (hrefOf_found _ _ Ha Hhref).
  - intros a s Ha Hhref Hs Hshref. subst result. cbn [RSSParser.extractAtomLink].
    fold alternate self. rewrite Ha. cbn [RSSParser.hrefOf]. rewrite Hhref.
    now rewrite (hrefOf_found _ _ Hs Hshref).
Qed.

End AtomLinkFacts.

(** ** The files of the months *)

Section MonthFiles.
Local Open Scope list_scope.

Lemma NoDup_map_on (A B C : Type) (f : A -> B) (g : A -> C) (l : list A) :
  (forall x y, In x l -> In y l -> g x = g y -> f x = f y) ->
  NoDup (map f l) -> NoDup (map g l).
Proof.
  induction l as [|x l IH]; intros Hinj Hnd; cbn [map]; [constructor|].
  cbn [map] in Hnd. inversion Hnd as [|? ? Hx Hl]; subst. constructor.
  - intros Hin. apply in_map_iff in Hin. destruct Hin as (y & Hy & Hiny).
    apply Hx. apply in_map_iff. exists y. split; [|assumption].
    symmetry. apply Hinj; [now left|now right|now symmetry].
  - apply IH; [|assumption]. intros a b Ha Hb. apply Hinj; now right.
Qed.

Lemma strip_trailing_slashes_slash (s : string) :
  strip_trailing_slashes (s ++ "/")%string = strip_trailing_slashes s.
Proof.
  induction s as [|c s IH]; [reflexivity|].
  cbn [append strip_trailing_slashes]. now rewrite IH.
Qed.

(** [generateFilePath] over the months of a feed: no two months of a feed
    share a file, whatever the output directory; a trailing slash of the
    output directory changes nothing; and the file lies in the directory
    that [getYearDirPath] names for the month. *)
Theorem generateFilePath_one_file_per_month (items : list RSSItem)
    (outputDir : string) :
  NoDup (map (fun group => generateFilePath (fst group) outputDir)
             (groupItemsByMonth items))
  /\ (forall yearMonth,
        generateFilePath yearMonth (outputDir ++ "/")%string
        = generateFilePath yearMonth outputDir)
  /\ (forall yearMonth,
        generateFilePath yearMonth outputDir
        = (getYearDirPath yearMonth outputDir ++ "/" ++ yearMonth ++ ".html")%string).
Proof.
  split; [|split].
  - destruct (groupItemsByMonth_outcome items) as (Hnd & _). cbn zeta in Hnd.
    apply (@NoDup_map_on _ _ _ fst); [|exact Hnd].
    intros [k1 g1] [k2 g2] H1 H2 H. cbn [fst] in *.
    eapply generateFilePath_inj; [| |exact H]; eapply group_key_chars; eassumption.
  - intros yearMonth. unfold generateFilePath.
    now rewrite strip_trailing_slashes_slash.
  - intros yearMonth. unfold generateFilePath, getYearDirPath.
    now rewrite !app_assoc_s.
Qed.

End MonthFiles.

(** ** A block between two markers *)

Lemma search_eq (re : regex) (s : string) :
  search re s
  = match match_here (icase re) (atoms re) s with
    | Some (ps, rest) => Some ("", ps, rest)
    | None =>
        match s with
        | EmptyString => None
        | String c s' =>
            match search re s' with
            | Some (pre, ps, rest) => Some (String c pre, ps, rest)
            | None => None
            end
        end
    end.
Proof. destruct s; reflexivity. Qed.

Lemma search_none_suffix (re : regex) (x y : string) :
  search re (x ++ y) = None -> search re y = None.
Proof.
  induction x as [|c x IH]; cbn [append]; [auto|].
  rewrite search_eq.
  destruct (match_here (icase re) (atoms re) (String c (x ++ y))) as [[ps rest]|];
    [discriminate|].
  destruct (search re (x ++ y)) as [[[pre ps] rest]|]; [discriminate|].
  intros _. now apply IH.
Qed.

Lemma same_end (x y u v : string) :
  x ++ u = y ++ v -> String.length x <= String.length y ->
  exists w, u = w ++ v.
Proof.
  revert y. induction x as [|c x IH]; intros y H Hlen.
  - exists y. exact H.
  - destruct y as [|d y]; [cbn in Hlen; lia|].
    cbn [append] in H. injection H as _ H. apply (IH y H).
    cbn [String.length] in Hlen. lia.
Qed.

Section Block.

Variables (opening closing : string) (gs : list (nat * nat)).

Let block : regex :=
  mkRegex [Lit opening; Rep any_char 0 false; Lit closing] false gs.

(** A lazy run of any characters before a literal ends at the first
    occurrence of the literal. *)
Lemma lazy_until (s : string) :
  rep any_char false (match_here false [Lit closing]) s 0
  = match search (literal closing) s with
    | Some (body, _, rest) => Some ([body; closing], rest)
    | None => None
    end.
Proof.
  induction s as [|c s IH].
  - cbn [rep rep_stop prefer search literal icase atoms match_here].
    destruct (strip false closing "") as [[m r]|] eqn:E; [|reflexivity].
    apply strip_exact in E. destruct E as [-> _]. reflexivity.
  - cbn [rep rep_stop prefer search literal icase atoms match_here any_char
         Nat.pred].
    destruct (strip false closing (String c s)) as [[m r]|] eqn:E.
    + apply strip_exact in E. destruct E as [-> _]. reflexivity.
    + cbn [match_here] in IH. rewrite IH. cbn [literal rep_more].
      destruct (search _ s) as [[[body ps] rest]|]; reflexivity.
Qed.

Lemma block_here (s : string) :
  match_here false (atoms block) s
  = match strip false opening s with
    | Some (_, inner) =>
        match search (literal closing) inner with
        | Some (body, _, rest) => Some ([opening; body; closing], rest)
        | None => None
        end
    | None => None
    end.
Proof.
  cbn [block atoms match_here].
  destruct (strip false opening s) as [[m inner]|] eqn:E; [|reflexivity].
  apply strip_exact in E. destruct E as [-> _]. rewrite lazy_until.
  destruct (search _ inner) as [[[body ps] rest]|]; reflexivity.
Qed.

(** No block starts where the closing marker cannot follow. *)
Lemma block_none (s : string) :
  forall inner x,
    search (literal closing) inner = None ->
    String.length x <= String.length opening ->
    s = x ++ inner -> search block s = None.
Proof.
  induction s as [|c s IH]; intros inner x Hnone Hlen Hs;
    rewrite search_eq; change (icase block) with false; rewrite block_here.
  - destruct (strip false opening "") as [[m inner']|] eqn:E; [|reflexivity].
    pose proof (strip_sound _ _ _ E) as [Hm Hl].
    destruct (@same_end x m inner inner') as [w Hw];
      [now rewrite <- Hs, <- Hm|lia|].
    rewrite Hw in Hnone. apply search_none_suffix in Hnone. now rewrite Hnone.
  - assert (Hrest : search block s = None).
    { destruct x as [|d x].
      - cbn [append] in Hs. subst inner.
        apply (IH s ""); [|cbn; lia|reflexivity].
        now apply (search_none_suffix _ (String c "")).
      - cbn [append] in Hs. injection Hs as _ Hs.
        apply (IH inner x); [assumption| |assumption].
        cbn [String.length] in Hlen. lia. }
    rewrite Hrest.
    destruct (strip false opening (String c s)) as [[m inner']|] eqn:E;
      [|reflexivity].
    pose proof (strip_sound _ _ _ E) as [Hm Hl].
    destruct (@same_end x m inner inner') as [w Hw];
      [now rewrite <- Hs, <- Hm|lia|].
    rewrite Hw in Hnone. apply search_none_suffix in Hnone. now rewrite Hnone.
Qed.

Lemma block_no_opening (s : string) :
  search (literal opening) s = None -> search block s = None.
Proof.
  induction s as [|c s IH]; rewrite (search_eq (literal opening)),
    (search_eq block); change (icase block) with false; rewrite block_here;
    cbn [literal icase atoms match_here];
    destruct (strip false opening _) as [[m inner]|]; try discriminate;
    try reflexivity.
  destruct (search (literal opening) s) as [[[pre ps] rest]|] eqn:E;
    [discriminate|].
  intros _. now rewrite IH.
Qed.

(** The leftmost block runs from the first opening marker to the first
    closing marker after it. *)
Lemma block_search (s : string) :
  forall pre m inner,
    search (literal opening) s = Some (pre, m, inner) ->
    search block s
    = match search (literal closing) inner with
      | Some (body, _, rest) => Some (pre, [opening; body; closing], rest)
      | None => None
      end.
Proof.
  induction s as [|c s IH]; intros pre m inner;
    rewrite (search_eq (literal opening)), (search_eq block);
    change (icase block) with false; rewrite block_here;
    cbn [literal icase atoms match_here].
  - destruct (strip false opening "") as [[m' inner']|] eqn:E; [|discriminate].
    cbv beta iota. intros H. injection H as <- <- <-.
    destruct (search _ inner') as [[[body ps] rest]|]; reflexivity.
  - destruct (strip false opening (String c s)) as [[m' inner']|] eqn:E.
    + cbv beta iota. intros H. injection H as <- <- <-.
      destruct (search _ inner') as [[[body ps] rest]|] eqn:Hc; [reflexivity|].
      pose proof (strip_sound _ _ _ E) as [Hm Hl].
      assert (Hrest : search block (String c s) = None)
        by (apply (@block_none _ inner' m'); [assumption|lia|assumption]).
      rewrite search_eq in Hrest. change (icase block) with false in Hrest.
      rewrite block_here, E in Hrest. cbn [literal] in Hrest.
      rewrite Hc in Hrest. exact Hrest.
    + destruct (search (literal opening) s)
        as [[[pre' ps'] rest']|] eqn:Hs; [|discriminate].
      cbv beta iota. intros H. injection H as <- <- <-.
      rewrite (IH _ _ _ eq_refl).
      destruct (search _ rest') as [[[body ps] rest]|]; reflexivity.
Qed.

End Block.

(** [extractItemTemplate]: the items block of a template runs from the
    first opening marker to the first closing marker after it; the item
    template is the text between them, trimmed, and the block is
    replaced by the items placeholder.  A template without an opening
    marker, or without a closing marker after the first opening one,
    is left as it is and gives no item template. *)
Theorem extractItemTemplate_first_block (templateContent : string) :
  (forall before m inner body m' rest,
      search (literal "{{#ITEMS}}") templateContent = Some (before, m, inner) ->
      search (literal "{{/ITEMS}}") inner = Some (body, m', rest) ->
      extractItemTemplate templateContent
      = (Some (trim body), before ++ "{{ITEMS}}" ++ rest))
  /\ (forall before m inner,
        search (literal "{{#ITEMS}}") templateContent = Some (before, m, inner) ->
        search (literal "{{/ITEMS}}") inner = None ->
        extractItemTemplate templateContent = (None, templateContent))
  /\ (search (literal "{{#ITEMS}}") templateContent = None ->
      extractItemTemplate templateContent = (None, templateContent)).
Proof.
  unfold extractItemTemplate, replace_first.
  change itemBlockRegex
    with (mkRegex [Lit "{{#ITEMS}}"; Rep any_char 0 false; Lit "{{/ITEMS}}"]
                  false [(1, 1)]).
  split; [|split].
  - intros before m inner body m' rest Hopen Hclose.
    rewrite (@block_search "{{#ITEMS}}" "{{/ITEMS}}" [(1, 1)] _ _ _ _ Hopen), Hclose.
    unfold captures, capture.
    cbn [groups map fst snd skipn firstn concat_all nth].
    rewrite app_nil_r_s, expand_plain by reflexivity. reflexivity.
  - intros before m inner Hopen Hclose.
    now rewrite (@block_search "{{#ITEMS}}" "{{/ITEMS}}" [(1, 1)] _ _ _ _ Hopen), Hclose.
  - intros Hopen.
    now rewrite (@block_no_opening "{{#ITEMS}}" "{{/ITEMS}}" [(1, 1)] _ Hopen).
Qed.

(** ** A match that can be cut in one way only *)

Section ExactCut.
Local Open Scope list_scope.

Lemma rep_greedy_run (cls : ascii -> bool)
    (k : string -> option (list string * string)) (m s' : string) :
  forall least ps r,
    every cls m = true -> least <= String.length m ->
    stops_at cls s' = true -> k s' = Some (ps, r) ->
    rep cls true k (m ++ s')%string least = Some (m :: ps, r).
Proof.
  induction m as [|c m IH]; intros least ps r Hm Hleast Hstop Hk;
    rewrite rep_unfold; cbn zeta.
  - cbn [String.length] in Hleast. assert (least = 0) by lia. subst least.
    cbn [append]. unfold rep_stop. rewrite Hk.
    destruct s' as [|c s']; [reflexivity|].
    cbn [stops_at] in Hstop. apply negb_true_iff in Hstop. now rewrite Hstop.
  - cbn [every] in Hm. apply andb_true_iff in Hm. destruct Hm as [Hc Hm].
    cbn [append]. rewrite Hc.
    rewrite (IH (Nat.pred least) ps r); [reflexivity|assumption| |assumption
                                         |assumption].
    cbn [String.length] in Hleast. lia.
Qed.

Lemma exact_cut_match (ci : bool) (r2 : list atom) (rest : string)
    (ps2 : list string) (rest2 : string) :
  match_here ci r2 rest = Some (ps2, rest2) ->
  forall r1 ps1,
    exact_cut ci r1 ps1 rest ->
    match_here ci (r1 ++ r2) (concat_all ps1 ++ rest)%string
    = Some (ps1 ++ ps2, rest2).
Proof.
  intros H2. induction r1 as [|a r1 IH]; intros [|m ps1] H; cbn [exact_cut] in H;
    try contradiction.
  - exact H2.
  - destruct H as (Hm & Hstop & Hcut). specialize (IH ps1 Hcut).
    cbn [concat_all app]. rewrite app_assoc_s.
    destruct a as [l|cls|cls|cls least [|]]; cbn [piece_ok] in Hm;
      try contradiction.
    + cbn [match_here]. rewrite lit_match_strip by assumption. now rewrite IH.
    + destruct Hm as (c & -> & Hc). cbn [append match_here]. now rewrite Hc, IH.
    + destruct Hm as [->|(c & -> & Hc)]; cbn [append match_here].
      * rewrite IH. specialize (Hstop eq_refl).
        destruct (concat_all ps1 ++ rest)%string as [|c s']; [reflexivity|].
        cbn [stops_at] in Hstop. apply negb_true_iff in Hstop.
        now rewrite Hstop.
      * now rewrite Hc, IH.
    + destruct Hm as [Hm Hleast]. cbn [match_here].
      now apply rep_greedy_run.
Qed.

End ExactCut.

(** The leftmost match is the one before which no match starts. *)
Lemma search_at (re : regex) (s : string) (ps : list string) (rest : string) :
  match_here (icase re) (atoms re) s = Some (ps, rest) ->
  forall pre,
    (forall u v, pre = u ++ v -> v <> "" ->
                 match_here (icase re) (atoms re) (v ++ s) = None) ->
    search re (pre ++ s) = Some (pre, ps, rest).
Proof.
  intros Hs. induction pre as [|c pre IH]; intros Hnone; rewrite search_eq.
  - cbn [append]. now rewrite Hs.
  - rewrite (Hnone "" (String c pre) eq_refl) by discriminate.
    cbn [append]. rewrite IH; [reflexivity|].
    intros u v -> Hv. now apply (Hnone (String c u) v).
Qed.

(** Two ways to cut a text: a prefix of characters of a class ends
    before a character outside the class. *)
Lemma prefix_before (p : ascii -> bool) (a : string) :
  forall b x c y,
    a ++ x = b ++ String c y -> every p a = true -> p c = false ->
    exists w, b = a ++ w.
Proof.
  induction a as [|d a IH]; intros b x c y H Ha Hc.
  - exists b. reflexivity.
  - cbn [every] in Ha. apply andb_true_iff in Ha. destruct Ha as [Hd Ha].
    destruct b as [|e b]; cbn [append] in H.
    + injection H as -> _. congruence.
    + injection H as -> H. destruct (IH _ _ _ _ H Ha Hc) as [w ->].
      exists w. reflexivity.
Qed.

(** A text that holds a quote character, cut at its first one. *)
Lemma first_quote (x : string) (c : ascii) (y : string) :
  is_quote c = true ->
  exists a c' b,
    x ++ String c y = a ++ String c' b
    /\ every not_quote a = true /\ is_quote c' = true.
Proof.
  intros Hc. induction x as [|d x IH].
  - exists "", c, y. auto.
  - destruct (is_quote d) eqn:Hd.
    + exists "", d, (x ++ String c y). auto.
    + destruct IH as (a & c' & b & Heq & Ha & Hc').
      exists (String d a), c', b. cbn [append every]. rewrite Heq.
      unfold not_quote at 1. rewrite Hd. auto.
Qed.

(** ** Characters that are no opening angle bracket *)

Lemma char_eq_not_lt (a b : ascii) :
  char_eq true a b = true -> not_lt a = true -> not_lt b = true.
Proof.
  intros H Ha. unfold not_lt. destruct (b =? "<")%char eqn:E; [|reflexivity].
  apply Ascii.eqb_eq in E. subst b. exfalso.
  assert (a = "<"%char).
  { clear Ha. destruct a as [b0 b1 b2 b3 b4 b5 b6 b7].
    destruct b0, b1, b2, b3, b4, b5, b6, b7; (reflexivity || discriminate). }
  subst a. discriminate.
Qed.

Lemma lit_match_not_lt (l : string) :
  forall m, lit_match true l m = true -> every not_lt l = true ->
            every not_lt m = true.
Proof.
  induction l as [|a l IH]; intros [|b m]; cbn [lit_match every];
    try discriminate; [reflexivity|].
  rewrite !andb_true_iff. intros [Hab Hm] [Ha Hl].
  split; [eapply char_eq_not_lt; eassumption|now apply IH].
Qed.

Lemma is_space_not_lt (c : ascii) : is_space c = true -> not_lt c = true.
Proof.
  intros H. unfold not_lt. destruct (c =? "<")%char eqn:E; [|reflexivity].
  apply Ascii.eqb_eq in E. subst c. discriminate.
Qed.

Lemma is_quote_not_lt (c : ascii) : is_quote c = true -> not_lt c = true.
Proof.
  intros H. unfold not_lt. destruct (c =? "<")%char eqn:E; [|reflexivity].
  apply Ascii.eqb_eq in E. subst c. discriminate.
Qed.

(** A letter of a literal is matched by no white space. *)
Lemma lit_match_stops (a : ascii) (l m x : string) :
  lit_match true (String a l) m = true ->
  (forall b, char_eq true a b = true -> is_space b = false) ->
  stops_at is_space (m ++ x) = true.
Proof.
  destruct m as [|b m]; cbn [lit_match]; [discriminate|].
  rewrite andb_true_iff. intros [Hab _] Ha. cbn [append stops_at].
  now rewrite (Ha b Hab).
Qed.

Lemma letter_n_no_space (b : ascii) : char_eq true "n" b = true -> is_space b = false.
Proof.
  destruct b as [b0 b1 b2 b3 b4 b5 b6 b7].
  destruct b0, b1, b2, b3, b4, b5, b6, b7; (reflexivity || discriminate).
Qed.

Lemma letter_c_no_space (b : ascii) : char_eq true "c" b = true -> is_space b = false.
Proof.
  destruct b as [b0 b1 b2 b3 b4 b5 b6 b7].
  destruct b0, b1, b2, b3, b4, b5, b6, b7; (reflexivity || discriminate).
Qed.

Lemma iso_char_plain (c : ascii) :
  iso_char c = true -> not_quote c = true /\ not_dollar c = true.
Proof.
  destruct c as [b0 b1 b2 b3 b4 b5 b6 b7].
  destruct b0, b1, b2, b3, b4, b5, b6, b7; cbn; intros H;
    (discriminate || (split; reflexivity)).
Qed.

(** ** Writing and reading the date of a page *)

Section MetaDate.
Local Open Scope list_scope.

Lemma Forall2_cons_inv (A B : Type) (R : A -> B -> Prop) (a : A) (r : list A)
    (l : list B) :
  Forall2 R (a :: r) l -> exists m t, l = m :: t /\ R a m /\ Forall2 R r t.
Proof. intros H. inversion H; subst. eauto. Qed.

Lemma Forall2_nil_inv (A B : Type) (R : A -> B -> Prop) (l : list B) :
  Forall2 R [] l -> l = [].
Proof. intros H. now inversion H. Qed.

Ltac piece H m Hm :=
  let t := fresh "t" in
  let E := fresh "E" in
  apply Forall2_cons_inv in H; destruct H as (m & t & E & Hm & H);
  match type of E with ?x = _ => subst x end.

Ltac no_piece H :=
  let E := fresh "E" in
  pose proof (Forall2_nil_inv H) as E;
  match type of E with ?x = _ => subst x end; clear H.

Lemma expand_group_one (g matched pre post : string) (e : ascii) (t : string) :
  expand [g] matched pre post (String "$" (String "1" (String e t)))
  = (g ++ expand [g] matched pre post (String e t))%string.
Proof.
  cbn [expand].
  change ("$" =? "$")%char with true. change ("1" =? "$")%char with false.
  change ("1" =? "&")%char with false. change ("1" =? "`")%char with false.
  change ("1" =? "'")%char with false. change (is_digit "1") with true.
  change (digit_val "1") with 1. cbv beta iota zeta.
  change (List.length [g]) with 1.
  replace (10 * 1 + digit_val e <=? 1)%nat with false
    by (symmetry; apply Nat.leb_gt; lia).
  rewrite andb_false_r. reflexivity.
Qed.

(** [updateMetaDate] then [extractMetaDate].  On a page whose first date
    tag, with the name before the content, is closed right after the
    content value, [updateMetaDate] puts the new date text in the place of
    the old value, between the opening of the tag as it was and a double
    quote, and leaves the rest of the page as it is; [extractMetaDate]
    then reads the new date from the page. *)
Theorem updateMetaDate_read_back (host : Host)
    (htmlContent isoDate before rest : string) (ps : list string) (date : Date) :
  search existingMetaRegex htmlContent = Some (before, ps, rest) ->
  closes_tag rest = true ->
  isoDate <> "" -> every iso_char isoDate = true ->
  parseDate host isoDate = Some date ->
  updateMetaDate htmlContent isoDate
  = (before ++ "<meta " ++ capture ps (2, 7) ++ isoDate ++ dq ++ rest)%string
  /\ extractMetaDate host (updateMetaDate htmlContent isoDate) = Some date.
Proof.
  intros Hsearch Hclose Hne Hiso Hparse.
  assert (Hplain : every not_quote isoDate = true /\ every not_dollar isoDate = true).
  { split; (eapply every_impl; [|exact Hiso]); intros c Hc;
      now apply iso_char_plain in Hc. }
  destruct Hplain as [Hnq Hnd].
  assert (Hupdate : updateMetaDate htmlContent isoDate
                    = (before ++ "<meta " ++ capture ps (2, 7) ++ isoDate ++ dq
                         ++ rest)%string).
  { unfold updateMetaDate, test, replace_first. rewrite Hsearch.
    unfold captures. cbn [existingMetaRegex groups map].
    change ("<meta $1" ++ isoDate ++ dq)%string
      with ("<meta " ++ ("$1" ++ isoDate ++ dq))%string.
    rewrite expand_plain_prefix by reflexivity.
    destruct isoDate as [|e iso]; [congruence|].
    change ("$1" ++ String e iso ++ dq)%string
      with (String "$" (String "1" (String e (iso ++ dq)%string))).
    rewrite expand_group_one.
    rewrite expand_plain
      by (change (String e (iso ++ dq)%string) with (String e iso ++ dq)%string;
          rewrite every_app, Hnd; reflexivity).
    repeat first [rewrite app_assoc_s | progress cbn [append]]. reflexivity. }
  split; [exact Hupdate|]. rewrite Hupdate.
  clear Hupdate.
  pose proof (search_sound _ _ Hsearch) as [Hhtml Hmatch].
  pose proof (match_here_pieces _ _ _ Hmatch) as Hps.
  cbn [existingMetaRegex atoms icase] in Hps.
  piece Hps m1 H1. piece Hps m2 H2. piece Hps m3 H3. piece Hps m4 H4.
  piece Hps m5 H5. piece Hps m6 H6. piece Hps m7 H7. piece Hps m8 H8.
  piece Hps m9 H9. piece Hps m10 H10. piece Hps m11 H11. no_piece Hps.
  cbn [piece_ok] in H1, H2, H3, H4, H5, H6, H7, H8, H9, H10, H11.
  unfold capture. cbn [fst snd skipn firstn concat_all].
  set (opening := [Lit "<meta"; Rep is_space 1 true; Lit "name="; One is_quote;
                   Lit "date"; One is_quote; Rep is_space 1 true;
                   Lit "content="; One is_quote; Rep not_quote 1 true;
                   One is_quote]).
  set (ps1 := ["<meta"; " "; m3; m4; m5; m6; m7; m8; m9; isoDate; dq]).
  assert (Htext : (before ++ "<meta " ++ (m3 ++ m4 ++ m5 ++ m6 ++ m7 ++ m8 ++ m9 ++ "")
                     ++ isoDate ++ dq ++ rest)%string
                  = (before ++ concat_all ps1 ++ rest)%string).
  { subst ps1. cbn [concat_all]. rewrite !app_nil_r_s.
    repeat first [rewrite app_assoc_s | progress cbn [append]]. reflexivity. }
  rewrite Htext. clear Htext.
  assert (Hcut : exact_cut true opening ps1 rest).
  { subst opening ps1. cbn [exact_cut piece_ok concat_all].
    split; [reflexivity|]. split; [exact I|].
    split; [split; [reflexivity|cbn; lia]|].
    split; [rewrite !app_assoc_s;
            apply (@lit_match_stops "n" "ame=" m3 _ H3 letter_n_no_space)|].
    split; [exact H3|]. split; [exact I|]. split; [exact H4|]. split; [exact I|].
    split; [exact H5|]. split; [exact I|]. split; [exact H6|]. split; [exact I|].
    split; [exact H7|].
    split; [rewrite !app_assoc_s;
            apply (@lit_match_stops "c" "ontent=" m8 _ H8 letter_c_no_space)|].
    split; [exact H8|]. split; [exact I|]. split; [exact H9|]. split; [exact I|].
    split; [split; [exact Hnq|destruct isoDate; [congruence|cbn; lia]]|].
    split; [reflexivity|].
    split; [exists "034"%char; split; reflexivity|]. auto. }
  unfold closes_tag in Hclose.
  destruct (match_here true [Rep is_space 0 true; Opt is_slash; Lit ">"] rest)
    as [[ps2 rest2]|] eqn:Htail; [|discriminate].
  pose proof (@exact_cut_match _ _ _ _ _ Htail opening ps1 Hcut) as Hhere.
  assert (Hfound : search metaNameContent (before ++ concat_all ps1 ++ rest)%string
                   = Some (before, ps1 ++ ps2, rest2)).
  { apply search_at; [exact Hhere|]. intros u v Hpre Hv.
    destruct (match_here (icase metaNameContent) (atoms metaNameContent)
                         (v ++ concat_all ps1 ++ rest)%string)
      as [[qs rest']|] eqn:E; [exfalso|reflexivity].
    pose proof (match_here_sound _ _ _ E) as Hq.
    pose proof (match_here_pieces _ _ _ E) as Hqs.
    cbn [metaNameContent atoms icase] in Hqs.
    piece Hqs q1 Q1. piece Hqs q2 Q2. piece Hqs q3 Q3. piece Hqs q4 Q4.
    piece Hqs q5 Q5. piece Hqs q6 Q6. piece Hqs q7 Q7. piece Hqs q8 Q8.
    piece Hqs q9 Q9. piece Hqs q10 Q10. piece Hqs q11 Q11. piece Hqs q12 Q12.
    piece Hqs q13 Q13. piece Hqs q14 Q14. no_piece Hqs.
    cbn [piece_ok] in Q1, Q2, Q3, Q4, Q5, Q6, Q7, Q8, Q9.
    destruct q1 as [|c1 q1']; [discriminate Q1|].
    change (char_eq true "<" c1 && lit_match true "meta" q1' = true) in Q1.
    apply andb_true_iff in Q1. destruct Q1 as [Qc Q1].
    destruct v as [|d v']; [congruence|].
    subst ps1. cbn [concat_all append] in Hq. rewrite !app_assoc_s in Hq.
    injection Hq as Hd Hq. subst d.
    set (P' := (q1' ++ q2 ++ q3 ++ q4 ++ q5 ++ q6 ++ q7 ++ q8 ++ q9)%string).
    assert (HP : every not_lt P' = true).
    { destruct Q4 as (c4 & -> & Hc4), Q6 as (c6 & -> & Hc6),
        Q9 as (c9 & -> & Hc9), Q2 as [Q2 _], Q7 as [Q7 _].
      subst P'. rewrite !every_app.
      rewrite (@lit_match_not_lt _ _ Q1), (@lit_match_not_lt _ _ Q3),
        (@lit_match_not_lt _ _ Q5), (@lit_match_not_lt _ _ Q8) by reflexivity.
      rewrite (every_impl _ _ _ is_space_not_lt Q2),
        (every_impl _ _ _ is_space_not_lt Q7).
      cbn [every]. now rewrite !is_quote_not_lt by assumption. }
    assert (Hw : exists w, v' = (P' ++ w)%string).
    { eapply (@prefix_before not_lt P' v' _ "<"%char _); [|exact HP|reflexivity].
      symmetry. etransitivity; [exact Hq|]. subst P'. rewrite !app_assoc_s.
      reflexivity. }
    destruct Hw as [w Hw].
    destruct H4 as (c4 & -> & Hc4).
    destruct (@first_quote (w ++ m1 ++ m2 ++ m3)%string c4
                (m5 ++ m6 ++ m7 ++ m8 ++ m9 ++ m10 ++ m11 ++ rest)%string Hc4)
      as (a & c' & b & Hab & Ha & Hc').
    assert (Hok : Forall2 (piece_ok true) (atoms existingMetaRegex)
                    [String c1 q1'; q2; q3; q4; q5; q6; q7; q8; q9; a;
                     String c' ""]).
    { cbn [existingMetaRegex atoms].
      constructor; [change (char_eq true "<" c1 && lit_match true "meta" q1' = true);
                    now rewrite Qc, Q1|].
      constructor; [exact Q2|]. constructor; [exact Q3|].
      constructor; [exact Q4|]. constructor; [exact Q5|].
      constructor; [exact Q6|]. constructor; [exact Q7|].
      constructor; [exact Q8|]. constructor; [exact Q9|].
      constructor; [cbn [piece_ok]; split; [exact Ha|lia]|].
      constructor; [cbn [piece_ok]; eauto|]. constructor. }
    apply (@match_here_complete _ _ _ b Hok).
    apply (@search_leftmost _ _ _ _ _ Hsearch u).
    - rewrite Hhtml, Hpre, Hw. cbn [concat_all].
      repeat first [rewrite app_assoc_s | progress cbn [append]].
      do 2 f_equal. subst P'. rewrite !app_assoc_s. do 9 f_equal.
      rewrite <- Hab. rewrite !app_assoc_s. reflexivity.
    - rewrite Hpre, length_app_s. cbn [String.length]. lia. }
  unfold extractMetaDate, firstGroup. rewrite Hfound.
  unfold captures, capture. cbn [metaNameContent groups map nth fst snd].
  subst ps1. cbn [app skipn firstn concat_all]. rewrite app_nil_r_s.
  rewrite (truthy_nonempty Hne), Hparse. reflexivity.
Qed.

End MetaDate.

Lemma updateMetaDate_read_back_witness :
  search existingMetaRegex datedPage
  = Some (q "<head><meta charset=`utf-8`>", datedPieces, q "></head>")
  /\ closes_tag (q "></head>") = true
  /\ every iso_char "2025-02-01T10:20:30.000Z" = true
  /\ updateMetaDate datedPage "2025-02-01T10:20:30.000Z"
     = q "<head><meta charset=`utf-8`>" ++ "<meta " ++ capture datedPieces (2, 7)
         ++ "2025-02-01T10:20:30.000Z" ++ dq ++ q "></head>"
  /\ extractMetaDate readingHost
       (updateMetaDate datedPage "2025-02-01T10:20:30.000Z")
     = Some (mkDate 1738405230000 2025 1).
Proof.
  assert (Hsearch : search existingMetaRegex datedPage
                    = Some (q "<head><meta charset=`utf-8`>", datedPieces,
                            q "></head>"))
    by (vm_compute; reflexivity).
  assert (Hclose : closes_tag (q "></head>") = true) by (vm_compute; reflexivity).
  assert (Hiso : every iso_char "2025-02-01T10:20:30.000Z" = true)
    by (vm_compute; reflexivity).
  split; [exact Hsearch|]. split; [exact Hclose|]. split; [exact Hiso|].
  apply (@updateMetaDate_read_back readingHost datedPage
           "2025-02-01T10:20:30.000Z" _ _ _ (mkDate 1738405230000 2025 1)
           Hsearch Hclose);
    [discriminate|exact Hiso|vm_compute; reflexivity].
Defined.

